(** * Document scan quality engine: the scanner and the capture camera

    A shallow embedding of [DocumentScanner] (utils/documentScanner) and of
    the [DocumentCaptureCamera] component, with the properties of the
    specification stated over it.

    JavaScript numbers are IEEE 754 binary64 values.  They are modelled by
    the Standard Library's executable specification of floating-point
    arithmetic ([SpecFloat], precision 53, maximal exponent 1024), so that
    rounding, signed zeros, infinities and NaN are those of the source.
    Quantities that the source only ever uses as array indices, loop
    counters and pixel coordinates are integers far below 2^53, on which
    binary64 arithmetic is exact; they are kept in [Z]. *)

From Stdlib Require Import ZArith Bool String Ascii Strings.Byte Lia SpecFloat.
From Stdlib Require QArith.
From stdpp Require Import base list.

Local Open Scope Z_scope.

(** ** Numbers *)

Module Num.

Definition number := spec_float.

Definition prec : Z := 53.
Definition emax : Z := 1024.

Definition NaN : number := S754_nan.
Definition zero : number := S754_zero false.

Definition add : number -> number -> number := SFadd prec emax.
Definition sub : number -> number -> number := SFsub prec emax.
Definition mul : number -> number -> number := SFmul prec emax.
Definition div : number -> number -> number := SFdiv prec emax.
Definition neg : number -> number := SFopp.

(** [a > b] and [a < b] of the source; both are false on NaN. *)
Definition gt (a b : number) : bool := SFltb b a.
Definition lt (a b : number) : bool := SFltb a b.
Definition le (a b : number) : bool := SFleb a b.

(** The binary64 value of an integer (rounded to nearest even beyond
    2^53). *)
Definition of_Z (z : Z) : number := binary_normalize prec emax z 0 false.

(** The value of a decimal literal [n / 10^k]: the binary64 number
    nearest to it, which is the correctly rounded quotient. *)
Definition literal (n d : Z) : number := div (of_Z n) (of_Z d).

Definition c0_299 : number := Eval vm_compute in literal 299 1000.
Definition c0_587 : number := Eval vm_compute in literal 587 1000.
Definition c0_114 : number := Eval vm_compute in literal 114 1000.
Definition c0_25 : number := Eval vm_compute in literal 25 100.
Definition c8 : number := Eval vm_compute in of_Z 8.
Definition c40 : number := Eval vm_compute in of_Z 40.
Definition c100 : number := Eval vm_compute in of_Z 100.
Definition c128 : number := Eval vm_compute in of_Z 128.

(** Rounding to binary32 (precision 24, maximal exponent 128), the
    conversion a [Float32Array] applies to every value stored in it.  The
    result is again a binary64 value, kept in its binary64 normal form. *)
Definition to_binary32 (x : number) : spec_float :=
  match x with
  | S754_finite s m e => binary_round 24 128 s m e
  | _ => x
  end.

Definition of_binary32 (x : spec_float) : number :=
  match x with
  | S754_finite s m e => binary_round prec emax s m e
  | _ => x
  end.

Definition fround (x : number) : number := of_binary32 (to_binary32 x).

End Num.

Import Num.

(** ** Loops

    [for (let i = start; i < bound; i += step) body] with a positive step,
    as a fold over the loop state; the fuel bounds the number of
    iterations. *)

Fixpoint for_fuel {S : Type} (fuel : nat) (i bound step : Z)
    (body : Z -> S -> S) (s : S) : S :=
  match fuel with
  | O => s
  | Datatypes.S fuel' =>
      if i <? bound
      then for_fuel fuel' (i + step) bound step body (body i s)
      else s
  end.

Definition for_loop {S : Type} (start bound step : Z)
    (body : Z -> S -> S) (s : S) : S :=
  for_fuel (Z.to_nat (bound - start)) start bound step body s.

(** ** Typed arrays and image data *)

(** Reading index [i] of an array: [None] stands for [undefined], the
    result of a read outside the array. *)
Definition get {A : Type} (a : list A) (i : Z) : option A :=
  if i <? 0 then None else a !! Z.to_nat i.

(** Writing index [i] of a typed array: a write outside the array is
    ignored. *)
Definition set {A : Type} (a : list A) (i : Z) (v : A) : list A :=
  if i <? 0 then a else <[Z.to_nat i := v]> a.

(** [v !== null] and [v !== undefined] *)
Definition is_some {A : Type} (v : option A) : bool :=
  match v with
  | Some _ => true
  | None => false
  end.

(** [undefined] becomes NaN in arithmetic. *)
Definition to_number (v : option number) : number :=
  match v with
  | Some x => x
  | None => NaN
  end.

Definition byte_to_Z (b : byte) : Z := Z.of_N (Byte.to_N b).

(** [ImageData]: [data] is a [Uint8ClampedArray] of RGBA bytes in row-major
    order. *)
Record ImageData := {
  data : list byte;
  width : Z;
  height : Z
}.

(** [data[i]] as a number. *)
Definition channel (d : list byte) (i : Z) : number :=
  to_number ((fun b => of_Z (byte_to_Z b)) <$> get d i).

(** The canvas API hands out image data with at least one pixel, four bytes
    per pixel, and a byte array whose length is an array length. *)
Definition well_formed (img : ImageData) : Prop :=
  1 <= width img /\ 1 <= height img /\
  Z.of_nat (length (data img)) = 4 * (width img * height img) /\
  4 * (width img * height img) < 2 ^ 53.

(** ** DocumentScanner *)

Record Point := { x : Z; y : Z }.

Record ScanQuality := {
  isSharp : bool;
  blurScore : number;
  hasDocumentEdges : bool;
  documentCorners : option (list Point);
  qualityMessage : string;
  fillPercentage : number
}.

Module DocumentScanner.

(** [0.299 * data[i] + 0.587 * data[i + 1] + 0.114 * data[i + 2]] *)
Definition luma (d : list byte) (i : Z) : number :=
  add (add (mul c0_299 (channel d i)) (mul c0_587 (channel d (i + 1))))
      (mul c0_114 (channel d (i + 2))).

(** The grayscale loop of [calculateBlurScore]: [gray] is a
    [Float32Array] of [width * height] zeros, filled at [i / 4]. *)
Definition grayscale (img : ImageData) : list number :=
  for_loop 0 (Z.of_nat (length (data img))) 4
    (fun i gray => set gray (i / 4) (fround (luma (data img) i)))
    (replicate (Z.to_nat (width img * height img)) zero).

Definition at_ (gray : list number) (i : Z) : number :=
  to_number (get gray i).

Definition laplacian (gray : list number) (w idx : Z) : number :=
  sub (sub (sub (sub
    (add
      (sub (sub (sub (neg (at_ gray (idx - w - 1))) (at_ gray (idx - w)))
                (at_ gray (idx - w + 1)))
           (at_ gray (idx - 1)))
      (mul c8 (at_ gray idx)))
    (at_ gray (idx + 1)))
    (at_ gray (idx + w - 1)))
    (at_ gray (idx + w)))
    (at_ gray (idx + w + 1)).

Definition calculateBlurScore (img : ImageData) : number :=
  let w := width img in
  let h := height img in
  let gray := grayscale img in
  let variance :=
    for_loop 1 (h - 1) 1 (fun y variance =>
      for_loop 1 (w - 1) 1 (fun x variance =>
        let idx := y * w + x in
        let l := laplacian gray w idx in
        add variance (mul l l)) variance) zero in
  div variance (of_Z ((w - 2) * (h - 2))).

(** The binarisation loop of [detectDocumentEdges]: [binary] is a
    [Uint8Array] of [width * height] zeros. *)
Definition binarize (img : ImageData) : list Z :=
  for_loop 0 (Z.of_nat (length (data img))) 4
    (fun i binary =>
       let gray := luma (data img) i in
       set binary (i / 4) (if gt gray c128 then 255 else 0))
    (replicate (Z.to_nat (width img * height img)) 0).

(** The state of the scan loop: [topLeft], [bottomRight], [edgeCount]. *)
Record Scan := {
  topLeft : Point;
  bottomRight : Point;
  edgeCount : Z
}.

Definition scan_pixel (binary : list Z) (w : Z) (py px : Z) (s : Scan) : Scan :=
  let idx := py * w + px in
  match get binary idx with
  | Some 0 =>
      let tl := topLeft s in
      let br := bottomRight s in
      let tl := if px <? x tl then {| x := px; y := y tl |} else tl in
      let tl := if py <? y tl then {| x := x tl; y := py |} else tl in
      let br := if x br <? px then {| x := px; y := y br |} else br in
      let br := if y br <? py then {| x := x br; y := py |} else br in
      {| topLeft := tl; bottomRight := br; edgeCount := edgeCount s + 1 |}
  | _ => s
  end.

Definition scan (binary : list Z) (w h : Z) : Scan :=
  for_loop 0 h 4 (fun py s =>
    for_loop 0 w 4 (fun px s => scan_pixel binary w py px s) s)
    {| topLeft := {| x := w; y := h |};
       bottomRight := {| x := 0; y := 0 |};
       edgeCount := 0 |}.

Definition detectDocumentEdges (img : ImageData) : option (list Point) * number :=
  let w := width img in
  let h := height img in
  let binary := binarize img in
  let minArea := mul (of_Z (w * h)) c0_25 in
  let s := scan binary w h in
  let tl := topLeft s in
  let br := bottomRight s in
  let area := (x br - x tl) * (y br - y tl) in
  let accepted := gt (of_Z area) minArea && (100 <? edgeCount s) in
  let largestArea := if accepted then area else 0 in
  let corners :=
    if accepted
    then Some [tl; {| x := x br; y := y tl |}; br; {| x := x tl; y := y br |}]
    else None in
  let fillPercentage := mul (div (of_Z largestArea) (of_Z (w * h))) c100 in
  (corners, fillPercentage).

Definition msg_position : string := "📄 Position document in frame".
Definition msg_closer : string := "📐 Move closer".
Definition msg_blurry : string := "⚠️ Hold steady - image is blurry".
Definition msg_ready : string := "✓ Ready to capture".

(** [checkQuality], on the image data the canvas returns for the video
    element's current frame. *)
Definition checkQuality (img : ImageData) : ScanQuality :=
  let blurScore := calculateBlurScore img in
  let isSharp := gt blurScore c100 in
  let '(corners, fillPercentage) := detectDocumentEdges img in
  let hasDocumentEdges := is_some corners && gt fillPercentage c40 in
  let qualityMessage :=
    if negb hasDocumentEdges then msg_position
    else if lt fillPercentage c40 then msg_closer
    else if negb isSharp then msg_blurry
    else msg_ready in
  {| isSharp := isSharp;
     blurScore := blurScore;
     hasDocumentEdges := hasDocumentEdges;
     documentCorners := corners;
     qualityMessage := qualityMessage;
     fillPercentage := fillPercentage |}.

(** How a call ends: with a value, or with an exception. *)
Inductive completion (A : Type) :=
| Returns (a : A)
| Throws (reason : string).
Arguments Returns {A} a.
Arguments Throws {A} reason.

(** The promise of [checkQuality] on image data: the body has no [throw]
    and no early exit, and the one operation in it that can raise is the
    allocation of the typed arrays, [new Float32Array(width * height)],
    which is a RangeError on a negative length. *)
Definition checkQuality_completion (img : ImageData) : completion ScanQuality :=
  if width img * height img <? 0
  then Throws "RangeError: Invalid typed array length"
  else Returns (checkQuality img).




End DocumentScanner.

(** ** The pipeline as the specification describes it

    The definitions of this module follow the words of the specification,
    not the source; the scanner is compared with them below. *)

Module Spec.

(** A frame is a row-major raster with four 8-bit channels per pixel:
    channel [c] of the pixel in column [px] of row [py]. *)
Definition channel_at (img : ImageData) (px py c : Z) : option byte :=
  get (data img) (4 * (py * width img + px) + c).

(** Luma is 0.299 R + 0.587 G + 0.114 B; alpha is ignored. *)
Definition luma_of (r g b : byte) : number :=
  add (add (mul c0_299 (of_Z (byte_to_Z r))) (mul c0_587 (of_Z (byte_to_Z g))))
      (mul c0_114 (of_Z (byte_to_Z b))).

Definition pixel_luma (img : ImageData) (px py : Z) : number :=
  match channel_at img px py 0, channel_at img px py 1, channel_at img px py 2 with
  | Some r, Some g, Some b => luma_of r g b
  | _, _, _ => NaN
  end.

(** The luma field of the sharpness estimator: the luma
    0.299 R + 0.587 G + 0.114 B of every pixel. *)
Definition luminance_field (img : ImageData) (px py : Z) : number :=
  pixel_luma img px py.

(** The 8-neighbour Laplacian kernel: centre weight +8, the eight
    surrounding cells weight -1 each. *)
Definition kernel (dx dy : Z) : Z :=
  if (dx =? 0) && (dy =? 0) then 8 else -1.

(** The cells under the kernel, row by row. *)
Definition neighbourhood : list (Z * Z) :=
  [(-1, -1); (0, -1); (1, -1); (-1, 0); (0, 0); (1, 0); (-1, 1); (0, 1); (1, 1)].

(** The sum of a list of terms, from left to right. *)
Definition sum (ts : list number) : number :=
  match ts with
  | [] => zero
  | t :: ts => foldl add t ts
  end.

(** The response of the kernel at a pixel. *)
Definition response (field : Z -> Z -> number) (px py : Z) : number :=
  sum ((fun d : Z * Z => mul (of_Z (kernel d.1 d.2)) (field (px + d.1) (py + d.2)))
         <$> neighbourhood).

(** The interior pixels: all but a border of one pixel, row by row. *)
Definition interior (img : ImageData) : list (Z * Z) :=
  py ← seqZ 1 (height img - 2); px ← seqZ 1 (width img - 2); [(px, py)].

(** The mean squared response of the kernel on a field: the sum of the
    squared responses over the interior pixels, divided by their number
    (W - 2) * (H - 2). *)
Definition blur_score_over (field : Z -> Z -> number) (img : ImageData) : number :=
  div (foldl (fun acc p => let r := response field p.1 p.2 in
                           add acc (mul r r))
         zero (interior img))
      (of_Z ((width img - 2) * (height img - 2))).

(** The blur score: the mean squared response on the luma field. *)
Definition blur_score (img : ImageData) : number :=
  blur_score_over (luminance_field img) img.

(** A frame is sharp when its blur score exceeds 100. *)
Definition sharp (img : ImageData) : bool := gt (blur_score img) c100.

(** A pixel is foreground if its luma is at most 128. *)
Definition foreground (img : ImageData) (px py : Z) : bool :=
  le (pixel_luma img px py) c128.

(** Every 4th coordinate of an axis of length [n]. *)
Definition every_4th (n : Z) : list Z := (fun k => 4 * k) <$> seqZ 0 ((n + 3) / 4).

(** The foreground samples of the sparse scan. *)
Definition samples (img : ImageData) : list Point :=
  py ← every_4th (height img); px ← every_4th (width img);
  if foreground img px py then [{| x := px; y := py |}] else [].

(** The minimal bounding box (top-left, bottom-right) of a set of points;
    there is none for the empty set. *)
Definition bounding_box (pts : list Point) : option (Point * Point) :=
  match pts with
  | [] => None
  | p :: ps =>
      Some ({| x := foldr Z.min (x p) (x <$> ps); y := foldr Z.min (y p) (y <$> ps) |},
            {| x := foldr Z.max (x p) (x <$> ps); y := foldr Z.max (y p) (y <$> ps) |})
  end.

Definition box_area (tl br : Point) : Z := (x br - x tl) * (y br - y tl).

(** The boundary estimate and the fill percentage: the box is accepted if
    its area exceeds 25% of the frame area and there are more than 100
    foreground samples; then its corners are emitted in the order top-left,
    top-right, bottom-right, bottom-left, and the fill percentage is
    100 times the box area over the frame area; otherwise there is no
    boundary and the fill percentage is 0. *)
Definition boundary (img : ImageData) : option (list Point) * number :=
  let total := width img * height img in
  let pts := samples img in
  match bounding_box pts with
  | Some (tl, br) =>
      let area := box_area tl br in
      if gt (of_Z area) (mul c0_25 (of_Z total)) && (100 <? Z.of_nat (length pts))
      then (Some [tl; {| x := x br; y := y tl |}; br; {| x := x tl; y := y br |}],
            mul c100 (div (of_Z area) (of_Z total)))
      else (None, zero)
  | None => (None, zero)
  end.

End Spec.

(** ** The blur score in exact arithmetic

    The formula of the specification once more, over the rationals: the
    weights of the luma are the fractions 299/1000, 587/1000 and 114/1000
    and no step rounds.  A channel outside the frame counts as 0; the
    kernel never reads one at an interior pixel. *)

Module Exact.

Import QArith_base.
Local Open Scope Z_scope.

Definition luma_of (r g b : byte) : Q :=
  ((299 # 1000) * inject_Z (byte_to_Z r) + (587 # 1000) * inject_Z (byte_to_Z g)
   + (114 # 1000) * inject_Z (byte_to_Z b))%Q.

Definition pixel_luma (img : ImageData) (px py : Z) : Q :=
  match Spec.channel_at img px py 0, Spec.channel_at img px py 1,
        Spec.channel_at img px py 2 with
  | Some r, Some g, Some b => luma_of r g b
  | _, _, _ => 0%Q
  end.

Definition response (field : Z -> Z -> Q) (px py : Z) : Q :=
  foldl Qplus 0%Q
    ((fun d : Z * Z => Qmult (inject_Z (Spec.kernel d.1 d.2)) (field (px + d.1) (py + d.2)))
       <$> Spec.neighbourhood).

Definition blur_score (img : ImageData) : Q :=
  Qdiv (foldl (fun acc p => let r := response (pixel_luma img) p.1 p.2 in
                            Qplus acc (Qmult r r))
          0%Q (Spec.interior img))
       (inject_Z ((width img - 2) * (height img - 2))).

Definition sharp (img : ImageData) : bool :=
  negb (Qle_bool (blur_score img) (inject_Z 100)).

End Exact.

(** ** The luma field as the scanner holds it

    [calculateBlurScore] keeps the luma of the pixels in a [Float32Array]:
    every value is rounded to single precision when it is stored, and is
    read back as that single-precision number. *)
Definition stored_luminance (img : ImageData) (px py : Z) : number :=
  fround (Spec.pixel_luma img px py).

(** ** DocumentCaptureCamera *)

(** The webcam's video element, as far as the component uses it: the image
    data the canvas reads back for its current frame, and the payload of
    the JPEG data URL the canvas exports for it (the codec is the
    browser's).  While the video has no frame, its width and height are 0:
    the canvas' [getImageData] throws and its [toDataURL] is "data:,". *)
Record Video := {
  frame : option ImageData;
  jpeg : string
}.

Module Scanner.

(** [scanner.captureImage(video)]: the canvas' [toDataURL]. *)
Definition captureImage (v : Video) : string :=
  match frame v with
  | Some _ => ("data:image/jpeg;base64," ++ jpeg v)%string
  | None => "data:,"%string
  end.

(** [scanner.checkQuality(video)]: the promise is fulfilled with the scan
    quality of the frame, or rejected when there is no frame to read. *)
Definition checkQuality (v : Video) : option ScanQuality :=
  DocumentScanner.checkQuality <$> frame v.

End Scanner.

Module DocumentCaptureCamera.

(** The values [scanQuality?.isSharp && scanQuality?.hasDocumentEdges]
    can take. *)
Inductive jsval := JUndefined | JBool (b : bool).

Definition truthy (v : jsval) : bool :=
  match v with
  | JUndefined => false
  | JBool b => b
  end.

(** [a && b] returns [a] when [a] is falsy, else [b]. *)
Definition js_and (a b : jsval) : jsval := if truthy a then b else a.

(** [q?.field] *)
Definition opt_chain (q : option ScanQuality) (field : ScanQuality -> bool) : jsval :=
  match q with
  | Some q => JBool (field q)
  | None => JUndefined
  end.

(** A string is truthy unless it is empty or [null]. *)
Definition truthy_str (s : option string) : bool :=
  match s with
  | Some EmptyString | None => false
  | Some _ => true
  end.

(** The component's state hooks, and the interval its effect holds
    ([Some 500] while a 500 ms interval is set). *)
Record State := {
  scanQuality : option ScanQuality;
  capturedImage : option string;
  isScanning : bool;
  interval : option Z
}.

Inductive Session := Scanning | Captured.

Definition session (st : State) : Session :=
  if isScanning st then Scanning else Captured.

Definition canCapture (st : State) : jsval :=
  js_and (opt_chain (scanQuality st) isSharp)
         (opt_chain (scanQuality st) hasDocumentEdges).

(** The rendered controls. *)
Inductive Control := Cancel | Capture | Retake | Confirm.

Definition Control_eqb (a b : Control) : bool :=
  match a, b with
  | Cancel, Cancel | Capture, Capture | Retake, Retake | Confirm, Confirm => true
  | _, _ => false
  end.

Record Button := {
  control : Control;
  disabled : bool
}.

(** The rendered button of a control, if any. *)
Definition find_control (c : Control) (bs : list Button) : option Button :=
  List.find (fun b => Control_eqb (control b) c) bs.

Definition render_controls (st : State) : list Button :=
  if negb (truthy_str (capturedImage st))
  then [ {| control := Cancel; disabled := false |};
         {| control := Capture; disabled := negb (truthy (canCapture st)) |} ]
  else [ {| control := Retake; disabled := false |};
         {| control := Confirm; disabled := false |} ].

(** The capture control is rendered and not disabled, so that a click on
    it reaches its handler. *)
Definition capture_permitted (st : State) : bool :=
  match find_control Capture (render_controls st) with
  | Some b => negb (disabled b)
  | None => false
  end.

(** The webcam is rendered, and its ref attached, while there is no
    captured image: [webcamRef.current?.video]. *)
Definition webcam_video (st : State) (v : Video) : option Video :=
  if negb (truthy_str (capturedImage st)) then Some v else None.

(** What the component does to the outside. *)
Inductive Effect :=
| CaptureImage (still : string)
| SetInterval (ms : Z)
| ClearInterval
| OnCapture (imageData : string)
| OnCancel.

Inductive Event :=
| Tick
| Click (c : Control).

(** The effect hook with dependencies [isScanning, scanner], run after a
    render that changed [isScanning]: the previous clean-up, then the
    effect body. *)
Definition run_effect (v : Video) (old : State) (st : State) : State * list Effect :=
  if Bool.eqb (isScanning old) (isScanning st) then (st, [])
  else
    let cleanup := match interval old with Some _ => [ClearInterval] | None => [] end in
    if negb (isScanning st) || negb (is_some (webcam_video st v))
    then ({| scanQuality := scanQuality st; capturedImage := capturedImage st;
             isScanning := isScanning st; interval := None |}, cleanup)
    else ({| scanQuality := scanQuality st; capturedImage := capturedImage st;
             isScanning := isScanning st; interval := Some 500 |},
          cleanup ++ [SetInterval 500]).

Definition handleCapture (v : Video) (st : State) : State * list Effect :=
  match webcam_video st v with
  | Some video =>
      let imageData := Scanner.captureImage video in
      ({| scanQuality := scanQuality st; capturedImage := Some imageData;
          isScanning := false; interval := interval st |},
       [CaptureImage imageData])
  | None => (st, [])
  end.

Definition handleRetake (st : State) : State * list Effect :=
  ({| scanQuality := scanQuality st; capturedImage := None;
      isScanning := true; interval := interval st |}, []).

Definition handleConfirm (st : State) : State * list Effect :=
  if truthy_str (capturedImage st)
  then match capturedImage st with
       | Some s => (st, [OnCapture s])
       | None => (st, [])
       end
  else (st, []).

(** The interval callback: it awaits the scan quality and publishes it; a
    rejected promise publishes nothing. *)
Definition on_tick (v : Video) (st : State) : State * list Effect :=
  match interval st with
  | None => (st, [])
  | Some _ =>
      match webcam_video st v with
      | Some video =>
          match Scanner.checkQuality video with
          | Some quality =>
              ({| scanQuality := Some quality;
                  capturedImage := capturedImage st;
                  isScanning := isScanning st; interval := interval st |}, [])
          | None => (st, [])
          end
      | None => (st, [])
      end
  end.

Definition on_click (v : Video) (c : Control) (st : State) : State * list Effect :=
  match find_control c (render_controls st) with
  | Some b =>
      if disabled b then (st, [])
      else match c with
           | Cancel => (st, [OnCancel])
           | Capture => handleCapture v st
           | Retake => handleRetake st
           | Confirm => handleConfirm st
           end
  | None => (st, [])
  end.

(** One event, handled in the presence of the video element [v],
    followed by the effects of the render it causes. *)
Definition step (v : Video) (st : State) (ev : Event) : State * list Effect :=
  let '(st', out) :=
    match ev with
    | Tick => on_tick v st
    | Click c => on_click v c st
    end in
  let '(st'', out') := run_effect v st st' in
  (st'', out ++ out').

(** The component after its first render and effect. *)
Definition init : State :=
  {| scanQuality := None; capturedImage := None;
     isScanning := true; interval := Some 500 |}.

(** The states the component can be in. *)
Inductive reachable : State -> Prop :=
| reachable_init : reachable init
| reachable_step v st ev : reachable st -> reachable (step v st ev).1.

(** The two session states, as the state hooks and the interval show
    them. *)
Definition consistent (st : State) : Prop :=
  match session st with
  | Scanning => capturedImage st = None /\ interval st = Some 500
  | Captured => truthy_str (capturedImage st) = true /\ interval st = None
  end.

Fixpoint run (st : State) (evs : list (Video * Event)) : State * list Effect :=
  match evs with
  | [] => (st, [])
  | (v, ev) :: evs =>
      let '(st', out) := step v st ev in
      let '(st'', out') := run st' evs in
      (st'', out ++ out')
  end.

End DocumentCaptureCamera.

(** ** Example frames *)

Module Examples.

Definition pixel (r g b : byte) : list byte := [r; g; b; xff].

(** A frame of one colour. *)
Definition uniform (w h : nat) (r g b : byte) : ImageData :=
  {| data := mjoin (replicate (w * h) (pixel r g b));
     width := Z.of_nat w;
     height := Z.of_nat h |}.

(** A dark checkerboard: grey levels 0 and 100 alternate. *)
Definition checker (w h : nat) : ImageData :=
  {| data :=
       mjoin ((fun i : nat =>
                 let v := if Nat.even (i / w + i mod w) then x00 else x64 in
                 pixel v v v) <$> seq 0 (w * h));
     width := Z.of_nat w;
     height := Z.of_nat h |}.

(** A frame of 3 x 3 pixels on the threshold of sharpness: the top-left
    pixel is rgb(0, 0, 220), the other eight are rgb(10, 10, 230). *)
Definition threshold_frame : ImageData :=
  {| data := pixel x00 x00 xdc ++ mjoin (replicate 8 (pixel x0a x0a xe6));
     width := 3;
     height := 3 |}.

Definition blank_video : Video :=
  {| frame := Some (uniform 3 3 x80 x80 x80); jpeg := "AAAA" |}.

(** A dark, sharp document that fills the frame: 102 samples on every 4th
    pixel of 201 x 5 pixels. *)
Definition document_video : Video :=
  {| frame := Some (checker 201 5); jpeg := "/9j/4AAQ" |}.

Definition document_quality : ScanQuality :=
  {| isSharp := true;
     blurScore := S754_finite false 5497558138880000 (-35);
     hasDocumentEdges := true;
     documentCorners :=
       Some [{| x := 0; y := 0 |}; {| x := 200; y := 0 |};
             {| x := 200; y := 4 |}; {| x := 0; y := 4 |}];
     qualityMessage := DocumentScanner.msg_ready;
     fillPercentage := S754_finite false 5601492073843901 (-46) |}.

End Examples.


(** ** Notions used in the proofs *)

(** What [binary_round_aux] returns for the rounded mantissa [m2] at the
    exponent [e1]: a zero, the number itself, or, when the mantissa was
    rounded up to [2 ^ prec], the next power of two; an infinity beyond the
    largest exponent. *)
Definition round_result (prec emax : Z) (sx : bool) (m2 e1 : Z) : spec_float :=
  if m2 =? 0 then S754_zero sx
  else if m2 <? 2 ^ prec
  then (if e1 <=? emax - prec then S754_finite sx (Z.to_pos m2) e1
        else S754_infinity sx)
  else (if e1 + 1 <=? emax - prec
        then S754_finite sx (Z.to_pos (2 ^ (prec - 1))) (e1 + 1)
        else S754_infinity sx).

(** A positive normal number whose exponent lies between [lo] and [hi]. *)
Definition normal_in (prec lo hi : Z) (x : spec_float) : Prop :=
  exists M E,
    x = S754_finite false M E /\ Zdigits2 (Z.pos M) = prec /\ lo <= E <= hi.

(** The same, or a positive zero. *)
Definition zero_or_normal_in (prec lo hi : Z) (x : spec_float) : Prop :=
  x = S754_zero false \/ normal_in prec lo hi x.

(** The test of [zero_or_normal_in] for binary64. *)
Definition zero_or_normal_inb (lo hi : Z) (x : spec_float) : bool :=
  match x with
  | S754_zero false => true
  | S754_finite false m e => (Zdigits2 (Z.pos m) =? 53) && (lo <=? e) && (e <=? hi)
  | _ => false
  end.

(** The binary64 number [a * 2 ^ e]. *)
Definition scaled (a e : Z) : number := binary_normalize prec emax a e false.

(** The values a [Float32Array] holds for the luma of a pixel: zero, or a
    positive number of at most 24 significant bits. *)
Definition gray_value (g : number) : Prop :=
  g = zero \/
  exists M E, g = scaled (Z.pos M) E /\ Z.pos M < 2 ^ 24 /\ -1000 <= E <= 900.

(** The values [start], [start + step], ... below [bound] that the loop
    variable of a [for] loop takes. *)
Definition stride (start bound step : Z) : list Z :=
  (fun k => start + step * k) <$> seqZ 0 ((bound - start + step - 1) / step).

(** The expression of [laplacian] on the nine values it reads, row by
    row. *)
Definition laplacian9 (a b c d e f g h i : number) : number :=
  sub (sub (sub (sub (add (sub (sub (sub (neg a) b) c) d) (mul c8 e)) f) g) h) i.

(** All pixels of the frame have the same colour. *)
Definition uniformly_coloured (img : ImageData) : Prop :=
  exists r g b : byte,
    forall px py, 0 <= px < width img -> 0 <= py < height img ->
      Spec.channel_at img px py 0 = Some r
      /\ Spec.channel_at img px py 1 = Some g
      /\ Spec.channel_at img px py 2 = Some b.

(** The scan state after one more foreground sample. *)
Definition extend (s : DocumentScanner.Scan) (p : Point) : DocumentScanner.Scan :=
  {| DocumentScanner.topLeft :=
       {| x := Z.min (x p) (x (DocumentScanner.topLeft s));
          y := Z.min (y p) (y (DocumentScanner.topLeft s)) |};
     DocumentScanner.bottomRight :=
       {| x := Z.max (x p) (x (DocumentScanner.bottomRight s));
          y := Z.max (y p) (y (DocumentScanner.bottomRight s)) |};
     DocumentScanner.edgeCount := DocumentScanner.edgeCount s + 1 |}.

(** The number 25. *)
Definition c25 : number := Eval vm_compute in of_Z 25.


From Stdlib Require Import DecimalString.

(** ** Further notions for the scanner *)

(** The red, green and blue channels of image data: every fourth byte,
    the alpha channel, is left out. *)
Fixpoint drop_alpha (d : list byte) : list byte :=
  match d with
  | r :: g :: b :: _ :: d' => r :: g :: b :: drop_alpha d'
  | _ => d
  end.

(** The number of sample points of the stride-4 scan of a [w] x [h]
    frame. *)
Definition grid_size (w h : Z) : Z := ((w + 3) / 4) * ((h + 3) / 4).

(** A number that is neither NaN nor negative: [+0], a positive number or
    [+Infinity]. *)
Definition nonnegative (x : number) : bool :=
  match x with
  | S754_zero false | S754_infinity false | S754_finite false _ _ => true
  | _ => false
  end.

(** A zero, or the binary64 number [a * 2 ^ e] of an integer [a] other
    than 0 and below [B] in absolute value. *)
Definition multiple_of (e B : Z) (x : number) : Prop :=
  (exists s, x = S754_zero s)
  \/ exists a, a <> 0 /\ Z.abs a < B /\ x = scaled a e.

(** A number in a template literal: the decimal digits of an integer, with
    a minus sign when it is negative. *)
Definition string_of_Z (z : Z) : string := NilZero.string_of_int (Z.to_int z).

(** ** The rest of the capture camera *)

Module CameraView.

Import DocumentCaptureCamera.

(** The colour of the overlay and of the status indicator: green when
    [canCapture] is truthy, amber otherwise. *)
Inductive Colour := Green | Amber.

Definition colour (st : State) : Colour :=
  if truthy (canCapture st) then Green else Amber.

Definition msg_initializing : string := "Initializing camera...".

(** [scanQuality?.qualityMessage || 'Initializing camera...'] *)
Definition status_text (st : State) : string :=
  match scanQuality st with
  | Some q =>
      if truthy_str (Some (qualityMessage q)) then qualityMessage q
      else msg_initializing
  | None => msg_initializing
  end.

(** The status indicator over the live feed. *)
Record Status := {
  text : string;
  background : Colour
}.

Definition status (st : State) : option Status :=
  if negb (truthy_str (capturedImage st))
  then Some {| text := status_text st; background := colour st |}
  else None.

(** The [points] attribute of the polygon: the corners as [x,y], separated
    by spaces. *)
Definition polygon_points (corners : list Point) : string :=
  String.concat " "
    ((fun c => (string_of_Z (x c) ++ "," ++ string_of_Z (y c))%string) <$> corners).

(** The overlay polygon over the live feed, drawn when
    [scanQuality?.documentCorners] is truthy (as every array is). *)
Record Polygon := {
  points : string;
  stroke : Colour
}.

Definition overlay (st : State) : option Polygon :=
  if negb (truthy_str (capturedImage st))
  then match scanQuality st with
       | Some q =>
           match documentCorners q with
           | Some corners =>
               Some {| points := polygon_points corners; stroke := colour st |}
           | None => None
           end
       | None => None
       end
  else None.

(** Unmounting the component runs the clean-up of its effect. *)
Definition unmount (st : State) : list Effect :=
  match interval st with
  | Some _ => [ClearInterval]
  | None => []
  end.

(** The timer along a list of effects: [live] tells whether an interval
    is set.  The result is [None] when an interval is set while one is
    live, or cleared while none is. *)
Fixpoint timer_trace (live : bool) (out : list Effect) : option bool :=
  match out with
  | [] => Some live
  | SetInterval _ :: out => if live then None else timer_trace true out
  | ClearInterval :: out => if live then timer_trace false out else None
  | _ :: out => timer_trace live out
  end.

(** The stills along a list of effects: [last] is the still captured
    last.  The result is [None] when an image is handed to the caller that
    is not the still captured last. *)
Fixpoint still_trace (last : option string) (out : list Effect) : option (option string) :=
  match out with
  | [] => Some last
  | CaptureImage s :: out => still_trace (Some s) out
  | OnCapture s :: out =>
      match last with
      | Some s' => if String.eqb s s' then still_trace last out else None
      | None => None
      end
  | _ :: out => still_trace last out
  end.

(** The published scan quality, if any, is that of a frame. *)
Definition scanned (st : State) : Prop :=
  forall q, scanQuality st = Some q ->
    exists img, q = DocumentScanner.checkQuality img.

End CameraView.

(** ** DocumentUploadPortal

    The portal that renders the capture camera and collects the captured
    documents.  Its strings are those of the select list and of the
    environment; the document types are ASCII. *)

Module DocumentUploadPortal.

(** A [CapturedDocument] as an array holds it: a reference to the
    object, [obj], and the fields that are never assigned after its
    creation.  The field [uploadedUrl], which [handleSubmit] assigns, is
    kept in the store of the portal under [obj]. *)
Record CapturedDocument := {
  obj : nat;
  id : string;
  type : string;
  imageData : string
}.

Definition DOCUMENT_TYPES : list string :=
  ["Passport"; "National ID Card"; "Driving License"; "Proof of Address";
   "Birth Certificate"; "Right to Work Document"; "DBS Certificate";
   "Qualification Certificate"; "Other"]%string.

Inductive Mode := ModeSelect | ModeCamera | ModeUpload.

(** A string is truthy unless it is empty. *)
Definition truthy (s : string) : bool :=
  match s with
  | EmptyString => false
  | _ => true
  end.

Record File := { size : Z }.

Record Blob := {
  blob_size : Z;
  blob_type : string
}.

(** What a [catch] clause can receive: an [Error] with its message, or
    any other value. *)
Inductive Thrown := ErrorObject (message : string) | OtherValue.

(** How an awaited promise settles. *)
Inductive Settled (A : Type) :=
| Fulfilled (a : A)
| RejectedWith (e : Thrown).
Arguments Fulfilled {A} a.
Arguments RejectedWith {A} e.

Record Response := {
  ok : bool;
  statusText : string;
  blob : Settled Blob
}.

(** The answers of the outside to one run of [handleSubmit]: of [fetch],
    [Date.now()] and the storage upload at the [k]-th document, of the
    [k]-th [new Date().toISOString()], and of the update of the token; the
    results of the storage and of the table carry the message of their
    [error], if any. *)
Record Env := {
  fetch : nat -> Settled Response;
  now : nat -> Z;
  upload : nat -> Settled (option string);
  iso : nat -> string;
  update : Settled (option string)
}.

Inductive Variant := Default | Destructive.

(** An entry of [documents_uploaded]. *)
Record Uploaded := {
  uploaded_type : string;
  url : option string;
  uploaded_at : string
}.

(** What the portal does to the outside. *)
Inductive Action :=
| Toast (title description : string) (variant : Variant)
| ReadAsDataURL (file : File)
| Fetch (resource : string)
| StorageUpload (bucket path : string) (body : Blob) (contentType : string) (upsert : bool)
| TokenUpdate (token : string) (documents_uploaded : list Uploaded) (used_at : string)
| OnComplete.

(** The state hooks, the store of the [uploadedUrl] fields of the
    document objects, the file readers that have not loaded yet, each with
    the selected type its [onload] closes over, and the [documents] array a
    running [handleSubmit] closes over. *)
Record Portal := {
  mode : Mode;
  selectedType : string;
  documents : list CapturedDocument;
  isUploading : bool;
  uploadedUrl : list (option string);
  readers : list string;
  submitting : option (list CapturedDocument)
}.

Definition init : Portal :=
  {| mode := ModeSelect; selectedType := ""; documents := []; isUploading := false;
     uploadedUrl := []; readers := []; submitting := None |}.

(** [mode === 'camera' && selectedType]: the camera is rendered in place
    of the portal. *)
Definition camera_shown (p : Portal) : bool :=
  match mode p with
  | ModeCamera => truthy (selectedType p)
  | _ => false
  end.

(** [const newDoc = { id: crypto.randomUUID(), type, imageData }] and
    [setDocuments(prev => [...prev, newDoc])]; [setMode('select')];
    [setSelectedType('')]. *)
Definition add_document (ty imageData uuid : string) (p : Portal) : Portal :=
  let newDoc := {| obj := length (uploadedUrl p); id := uuid; type := ty;
                   imageData := imageData |} in
  {| mode := ModeSelect; selectedType := "";
     documents := documents p ++ [newDoc];
     isUploading := isUploading p;
     uploadedUrl := uploadedUrl p ++ [None];
     readers := readers p;
     submitting := submitting p |}.

Definition handleCameraCapture (imageData uuid : string) (p : Portal) : Portal * list Action :=
  if negb (truthy (selectedType p)) then (p, [])
  else (add_document (selectedType p) imageData uuid p,
        [Toast "Document Captured"
           (selectedType p ++ " has been captured successfully.") Default]).

(** [10 * 1024 * 1024] *)
Definition max_file_size : Z := 10 * 1024 * 1024.

Definition handleFileUpload (file : option File) (p : Portal) : Portal * list Action :=
  match file with
  | None => (p, [])
  | Some f =>
      if negb (truthy (selectedType p)) then (p, [])
      else if max_file_size <? size f
      then (p, [Toast "File Too Large" "Maximum file size is 10MB." Destructive])
      else ({| mode := mode p; selectedType := selectedType p;
               documents := documents p; isUploading := isUploading p;
               uploadedUrl := uploadedUrl p;
               readers := readers p ++ [selectedType p];
               submitting := submitting p |},
            [ReadAsDataURL f])
  end.

(** [reader.onload] of the [k]-th pending reader. *)
Definition reader_onload (k : nat) (result uuid : string) (p : Portal) : Portal * list Action :=
  match readers p !! k with
  | None => (p, [])
  | Some ty =>
      let p' := add_document ty result uuid p in
      ({| mode := mode p'; selectedType := selectedType p';
          documents := documents p'; isUploading := isUploading p';
          uploadedUrl := uploadedUrl p';
          readers := delete k (readers p);
          submitting := submitting p' |},
       [Toast "Document Added" (ty ++ " has been added successfully.") Default])
  end.

(** [setDocuments(prev => prev.filter(doc => doc.id !== id))] *)
Definition handleDelete (i : string) (p : Portal) : Portal :=
  {| mode := mode p; selectedType := selectedType p;
     documents := List.filter (fun d => negb (String.eqb (id d) i)) (documents p);
     isUploading := isUploading p;
     uploadedUrl := uploadedUrl p;
     readers := readers p;
     submitting := submitting p |}.

(** White space of [\s] among the ASCII characters. *)
Definition is_space (c : ascii) : bool :=
  match c with
  | " " | "009" | "010" | "011" | "012" | "013" => true
  | _ => false
  end%char.

(** [s.replace(/\s+/g, '_')], with [in_run] telling that the character
    before was white space already. *)
Fixpoint replace_spaces (in_run : bool) (s : string) : string :=
  match s with
  | EmptyString => EmptyString
  | String c s' =>
      if is_space c
      then (if in_run then replace_spaces true s'
            else String "_" (replace_spaces true s'))
      else String c (replace_spaces false s')
  end.

Definition fileName (time : Z) (ty : string) : string :=
  (string_of_Z time ++ "_" ++ replace_spaces false ty ++ ".jpg")%string.

Definition filePath (token : string) (time : Z) (ty : string) : string :=
  (token ++ "/" ++ ty ++ "/" ++ fileName time ty)%string.

(** The body of the loop of [handleSubmit] for the [k]-th document: the
    store after it, what it did, and what it threw, if anything. *)
Definition upload_document (token : string) (env : Env) (k : nat) (doc : CapturedDocument)
    (store : list (option string)) : list (option string) * list Action * option Thrown :=
  match fetch env k with
  | RejectedWith e => (store, [Fetch (imageData doc)], Some e)
  | Fulfilled response =>
      if negb (ok response)
      then (store, [Fetch (imageData doc)],
            Some (ErrorObject ("Failed to process image: " ++ statusText response)))
      else
        match blob response with
        | RejectedWith e => (store, [Fetch (imageData doc)], Some e)
        | Fulfilled b =>
            if blob_size b =? 0
            then (store, [Fetch (imageData doc)], Some (ErrorObject "Image data is empty"))
            else
              let path := filePath token (now env k) (type doc) in
              let request :=
                StorageUpload "applicant-documents" path b
                  (if truthy (blob_type b) then blob_type b else "image/jpeg") false in
              match upload env k with
              | RejectedWith e => (store, [Fetch (imageData doc); request], Some e)
              | Fulfilled (Some message) =>
                  (store, [Fetch (imageData doc); request],
                   Some (ErrorObject ("Storage error: " ++ message)))
              | Fulfilled None =>
                  (<[obj doc := Some path]> store, [Fetch (imageData doc); request], None)
              end
        end
  end.

(** [for (const doc of documents)], from the [k]-th document on. *)
Fixpoint upload_documents (token : string) (env : Env) (k : nat) (docs : list CapturedDocument)
    (store : list (option string)) : list (option string) * list Action * option Thrown :=
  match docs with
  | [] => (store, [], None)
  | doc :: docs =>
      match upload_document token env k doc store with
      | (store, acts, Some e) => (store, acts, Some e)
      | (store, acts, None) =>
          let '(store, acts', r) := upload_documents token env (S k) docs store in
          (store, acts ++ acts', r)
      end
  end.

(** [documents.map(doc => ({ type, url: doc.uploadedUrl, uploaded_at }))],
    from the [k]-th document on. *)
Fixpoint documents_uploaded (env : Env) (k : nat) (docs : list CapturedDocument)
    (store : list (option string)) : list Uploaded :=
  match docs with
  | [] => []
  | doc :: docs =>
      {| uploaded_type := type doc;
         url := mjoin (store !! obj doc);
         uploaded_at := iso env k |}
      :: documents_uploaded env (S k) docs store
  end.

(** [error instanceof Error ? error.message : 'Unknown error occurred'] *)
Definition errorMessage (e : Thrown) : string :=
  match e with
  | ErrorObject message => message
  | OtherValue => "Unknown error occurred"
  end.

(** The [try] block of [handleSubmit] with its [catch]: the store
    afterwards and what was done. *)
Definition submit_documents (token : string) (env : Env) (docs : list CapturedDocument)
    (store : list (option string)) : list (option string) * list Action :=
  let failed (e : Thrown) :=
    [Toast "Upload Failed" ("Error: " ++ errorMessage e ++ ". Please try again.")
       Destructive] in
  match upload_documents token env 0 docs store with
  | (store, acts, Some e) => (store, acts ++ failed e)
  | (store, acts, None) =>
      let request :=
        TokenUpdate token (documents_uploaded env 0 docs store) (iso env (length docs)) in
      match update env with
      | RejectedWith e => (store, acts ++ [request] ++ failed e)
      | Fulfilled (Some message) =>
          (store, acts ++ [request] ++ failed (ErrorObject ("Database error: " ++ message)))
      | Fulfilled None =>
          (store,
           acts ++ [request;
                    Toast "Success!" "All documents have been uploaded successfully." Default;
                    OnComplete])
      end
  end.

(** [handleSubmit] up to its first [await]. *)
Definition handleSubmit (p : Portal) : Portal * list Action :=
  match documents p with
  | [] => (p, [Toast "No Documents" "Please capture or upload at least one document."
                 Destructive])
  | _ =>
      ({| mode := mode p; selectedType := selectedType p;
          documents := documents p; isUploading := true;
          uploadedUrl := uploadedUrl p; readers := readers p;
          submitting := Some (documents p) |}, [])
  end.

(** The rest of the running [handleSubmit], with the answers [env] of the
    outside; [finally] resets [isUploading]. *)
Definition submit_settled (token : string) (env : Env) (p : Portal) : Portal * list Action :=
  match submitting p with
  | None => (p, [])
  | Some docs =>
      let '(store, acts) := submit_documents token env docs (uploadedUrl p) in
      ({| mode := mode p; selectedType := selectedType p;
          documents := documents p; isUploading := false;
          uploadedUrl := store; readers := readers p;
          submitting := None |}, acts)
  end.

Inductive Event :=
| SelectType (value : string)
| ClickUseCamera
| ChooseFile (file : option File)
| ClickDelete (k : nat)
| ClickSubmit
| CameraCapture (imageData uuid : string)
| CameraCancel
| ReaderLoad (k : nat) (result uuid : string)
| SubmitSettled (env : Env).

Definition set_mode (m : Mode) (ty : string) (p : Portal) : Portal :=
  {| mode := m; selectedType := ty;
     documents := documents p; isUploading := isUploading p;
     uploadedUrl := uploadedUrl p; readers := readers p;
     submitting := submitting p |}.

(** One event.  The select, the two buttons, the file input and the card
    of the documents with its delete buttons and the submit button are
    rendered while the camera is not shown; the select offers the document
    types; the buttons "Use Camera" and "Upload File" are disabled while no
    type is selected, the card is rendered while there are documents, and
    the submit button is disabled while [isUploading]. *)
Definition step (token : string) (p : Portal) (ev : Event) : Portal * list Action :=
  match ev with
  | SelectType value =>
      if negb (camera_shown p) && existsb (String.eqb value) DOCUMENT_TYPES
      then (set_mode (mode p) value p, [])
      else (p, [])
  | ClickUseCamera =>
      if negb (camera_shown p) && truthy (selectedType p)
      then (set_mode ModeCamera (selectedType p) p, [])
      else (p, [])
  | ChooseFile file =>
      if negb (camera_shown p) && truthy (selectedType p)
      then handleFileUpload file p
      else (p, [])
  | ClickDelete k =>
      if negb (camera_shown p)
      then match documents p !! k with
           | Some doc => (handleDelete (id doc) p, [])
           | None => (p, [])
           end
      else (p, [])
  | ClickSubmit =>
      if negb (camera_shown p) && negb (isUploading p)
      then match documents p with
           | [] => (p, [])
           | _ => handleSubmit p
           end
      else (p, [])
  | CameraCapture imageData uuid =>
      if camera_shown p then handleCameraCapture imageData uuid p else (p, [])
  | CameraCancel =>
      if camera_shown p then (set_mode ModeSelect "" p, []) else (p, [])
  | ReaderLoad k result uuid => reader_onload k result uuid p
  | SubmitSettled env => submit_settled token env p
  end.

Fixpoint run (token : string) (p : Portal) (evs : list Event) : Portal * list Action :=
  match evs with
  | [] => (p, [])
  | ev :: evs =>
      let '(p', out) := step token p ev in
      let '(p'', out') := run token p' evs in
      (p'', out ++ out')
  end.

(** The states the portal can be in. *)
Inductive reachable (token : string) : Portal -> Prop :=
| reachable_init : reachable token init
| reachable_step p ev : reachable token p -> reachable token (step token p ev).1.

End DocumentUploadPortal.

(** ** Notions about the portal *)

Module PortalNotions.

Import DocumentUploadPortal.

(** What every state of the portal satisfies. *)
Record well_kept (p : Portal) : Prop := {
  mode_not_upload : mode p <> ModeUpload;
  camera_has_type : mode p = ModeCamera -> truthy (selectedType p) = true;
  selection_listed : selectedType p = ""%string \/ selectedType p ∈ DOCUMENT_TYPES;
  documents_listed : Forall (fun d => type d ∈ DOCUMENT_TYPES) (documents p);
  readers_listed : Forall (fun ty => ty ∈ DOCUMENT_TYPES) (readers p);
  uploading_submitting : isUploading p = is_some (submitting p);
  documents_allocated : Forall (fun d => (obj d < length (uploadedUrl p))%nat) (documents p);
  documents_distinct : NoDup (obj <$> documents p);
  submitting_kept :
    forall docs, submitting p = Some docs ->
      docs <> []
      /\ Forall (fun d => type d ∈ DOCUMENT_TYPES) docs
      /\ Forall (fun d => (obj d < length (uploadedUrl p))%nat) docs
      /\ NoDup (obj <$> docs)
}.

(** The [k]-th document goes through: its image is fetched with an [ok]
    response, the blob is not empty and the storage takes it without an
    error. *)
Definition document_ok (env : Env) (k : nat) : bool :=
  match fetch env k with
  | Fulfilled response =>
      ok response &&
      match blob response with
      | Fulfilled b =>
          negb (blob_size b =? 0) &&
          match upload env k with
          | Fulfilled None => true
          | _ => false
          end
      | RejectedWith _ => false
      end
  | RejectedWith _ => false
  end.

(** The first [n] documents go through. *)
Definition documents_ok (env : Env) (n : nat) : bool :=
  forallb (document_ok env) (seq 0 n).

Definition update_ok (env : Env) : bool :=
  match update env with
  | Fulfilled None => true
  | _ => false
  end.

(** The blob the [k]-th fetch delivers, if any. *)
Definition fetched_blob (env : Env) (k : nat) : option Blob :=
  match fetch env k with
  | Fulfilled response =>
      match blob response with
      | Fulfilled b => Some b
      | RejectedWith _ => None
      end
  | RejectedWith _ => None
  end.

(** The two requests [handleSubmit] makes for the [k]-th document when it
    goes through. *)
Definition requests (token : string) (env : Env) (k : nat) (doc : CapturedDocument) : list Action :=
  match fetched_blob env k with
  | Some b =>
      [Fetch (imageData doc);
       StorageUpload "applicant-documents" (filePath token (now env k) (type doc)) b
         (if truthy (blob_type b) then blob_type b else "image/jpeg") false]
  | None => []
  end.

(** The entry of [documents_uploaded] for the [k]-th document. *)
Definition entry (token : string) (env : Env) (k : nat) (doc : CapturedDocument) : Uploaded :=
  {| uploaded_type := type doc;
     url := Some (filePath token (now env k) (type doc));
     uploaded_at := iso env k |}.

(** The requests for the documents that go through, from the [k]-th
    on, their entries, and the store after them. *)
Fixpoint all_requests (token : string) (env : Env) (k : nat) (docs : list CapturedDocument) : list Action :=
  match docs with
  | [] => []
  | doc :: docs => requests token env k doc ++ all_requests token env (S k) docs
  end.

Fixpoint entries (token : string) (env : Env) (k : nat) (docs : list CapturedDocument) : list Uploaded :=
  match docs with
  | [] => []
  | doc :: docs => entry token env k doc :: entries token env (S k) docs
  end.

Fixpoint stored (token : string) (env : Env) (k : nat) (docs : list CapturedDocument)
    (store : list (option string)) : list (option string) :=
  match docs with
  | [] => store
  | doc :: docs =>
      stored token env (S k) docs
        (<[obj doc := Some (filePath token (now env k) (type doc))]> store)
  end.

(** What is done for the [k]-th document, and what it throws. *)
Definition attempt (token : string) (env : Env) (k : nat) (doc : CapturedDocument) : list Action :=
  (upload_document token env k doc []).1.2.

Definition thrown (token : string) (env : Env) (k : nat) (doc : CapturedDocument) : option Thrown :=
  (upload_document token env k doc []).2.

Definition upload_failed (e : Thrown) : Action :=
  Toast "Upload Failed" ("Error: " ++ errorMessage e ++ ". Please try again.") Destructive.

(** The toast of the guard of [handleSubmit]. *)
Definition no_documents : Action :=
  Toast "No Documents" "Please capture or upload at least one document." Destructive.

Definition success : Action :=
  Toast "Success!" "All documents have been uploaded successfully." Default.

Definition is_toast (a : Action) : bool :=
  match a with
  | Toast _ _ _ => true
  | _ => false
  end.

Definition is_fetch (a : Action) : bool :=
  match a with
  | Fetch _ => true
  | _ => false
  end.

Definition is_upload (a : Action) : bool :=
  match a with
  | StorageUpload _ _ _ _ _ => true
  | _ => false
  end.

Definition is_update (a : Action) : bool :=
  match a with
  | TokenUpdate _ _ _ => true
  | _ => false
  end.

Definition is_submit_settled (ev : Event) : bool :=
  match ev with
  | SubmitSettled _ => true
  | _ => false
  end.

(** What the camera's callbacks do in the portal: [onCapture] is
    [handleCameraCapture], which draws a fresh identifier from [uuids], and
    [onCancel] leaves the camera. *)
Fixpoint camera_events (out : list DocumentCaptureCamera.Effect) (uuids : list string) : list Event :=
  match out with
  | [] => []
  | DocumentCaptureCamera.OnCapture imageData :: out =>
      match uuids with
      | uuid :: uuids => CameraCapture imageData uuid :: camera_events out uuids
      | [] => []
      end
  | DocumentCaptureCamera.OnCancel :: out => CameraCancel :: camera_events out uuids
  | _ :: out => camera_events out uuids
  end.

End PortalNotions.

(** ** Example submissions *)

Module PortalExamples.

Import DocumentUploadPortal.

Definition passport : CapturedDocument :=
  {| obj := 0; id := "u1"; type := "Passport"; imageData := "data:image/jpeg;base64,AAAA" |}.

Definition address : CapturedDocument :=
  {| obj := 1; id := "u2"; type := "Proof of Address";
     imageData := "data:image/jpeg;base64,BBBB" |}.

Definition jpeg_response : Response :=
  {| ok := true; statusText := "OK";
     blob := Fulfilled {| blob_size := 3; blob_type := "image/jpeg" |} |}.

(** Everything goes through. *)
Definition fine : Env :=
  {| fetch := fun _ => Fulfilled jpeg_response;
     now := fun k => 1763561889000 + Z.of_nat k;
     upload := fun _ => Fulfilled None;
     iso := fun _ => "2025-11-19T14:18:09.000Z"%string;
     update := Fulfilled None |}.

(** The storage refuses the second document. *)
Definition refused : Env :=
  {| fetch := fun _ => Fulfilled jpeg_response;
     now := fun k => 1763561889000 + Z.of_nat k;
     upload := fun k => match k with
                        | 1%nat => Fulfilled (Some "The resource already exists"%string)
                        | _ => Fulfilled None
                        end;
     iso := fun _ => "2025-11-19T14:18:09.000Z"%string;
     update := Fulfilled None |}.

End PortalExamples.

(** ** DocumentUpload

    The page that validates the token of an upload link and renders the
    portal. *)

Module DocumentUpload.

Import DocumentUploadPortal.

(** A row of [document_upload_tokens], as far as the page reads it:
    [required_documents] is [None] when it is not an array, [used_at] is
    [None] when it is [null]. *)
Record Row := {
  applicant_name : string;
  applicant_email : string;
  required_documents : option (list string);
  expires_at : string;
  used_at : option string
}.

Record TokenData := {
  td_applicant_name : string;
  td_applicant_email : string;
  td_required_documents : list string;
  td_expires_at : string;
  td_used_at : option string
}.

(** [{ data, error: fetchError }] of the query; [fetchError] tells that
    there is an error. *)
Record QueryResult := {
  data : option Row;
  fetchError : bool
}.

(** The outside of the page: how the query settles, the time value of
    [new Date(s)] ([None] for an invalid date, whose comparisons are
    false) and the time value of [new Date()]. *)
Record Env := {
  query : Settled QueryResult;
  time_value : string -> option Z;
  current_time : Z
}.

Record Page := {
  tokenData : option TokenData;
  loading : bool;
  error : option string;
  completed : bool
}.

Definition init : Page :=
  {| tokenData := None; loading := true; error := None; completed := false |}.

Inductive Request :=
| SetTitle (title : string)
| SelectToken (token : string).

Definition setError (message : string) (pg : Page) : Page :=
  {| tokenData := tokenData pg; loading := loading pg; error := Some message;
     completed := completed pg |}.

Definition setLoading (b : bool) (pg : Page) : Page :=
  {| tokenData := tokenData pg; loading := b; error := error pg;
     completed := completed pg |}.

Definition setCompleted (b : bool) (pg : Page) : Page :=
  {| tokenData := tokenData pg; loading := loading pg; error := error pg;
     completed := b |}.

Definition setTokenData (td : TokenData) (pg : Page) : Page :=
  {| tokenData := Some td; loading := loading pg; error := error pg;
     completed := completed pg |}.

(** [new Date(data.expires_at) < new Date()] *)
Definition expired (env : Env) (row : Row) : bool :=
  match time_value env (expires_at row) with
  | Some t => t <? current_time env
  | None => false
  end.

(** The effect of the page: the title, and [validateToken] with the
    token of the search parameters ([None] when there is none). *)
Definition validateToken (token : option string) (env : Env) (pg : Page) : Page * list Request :=
  let title := SetTitle "Document Upload | Submit Your Documents" in
  match token with
  | None | Some EmptyString =>
      (setLoading false
         (setError "Invalid upload link. Please check your email for the correct link." pg),
       [title])
  | Some t =>
      match query env with
      | RejectedWith _ =>
          (setLoading false (setError "An error occurred. Please try again later." pg),
           [title; SelectToken t])
      | Fulfilled result =>
          match data result with
          | Some row =>
              if fetchError result
              then (setLoading false
                      (setLoading false (setError "Invalid or expired upload link." pg)),
                    [title; SelectToken t])
              else if expired env row
              then (setLoading false
                      (setLoading false
                         (setError
                            "This upload link has expired. Please contact support for a new link."
                            pg)),
                    [title; SelectToken t])
              else
                let pg := if DocumentCaptureCamera.truthy_str (used_at row)
                          then setCompleted true pg else pg in
                (setLoading false
                   (setTokenData
                      {| td_applicant_name := applicant_name row;
                         td_applicant_email := applicant_email row;
                         td_required_documents :=
                           match required_documents row with
                           | Some docs => docs
                           | None => []
                           end;
                         td_expires_at := expires_at row;
                         td_used_at := used_at row |} pg),
                 [title; SelectToken t])
          | None =>
              (setLoading false
                 (setLoading false (setError "Invalid or expired upload link." pg)),
               [title; SelectToken t])
          end
      end
  end.

(** What the page renders: the checks are made in this order. *)
Inductive View :=
| Validating
| LinkInvalid (message : string)
| Submitted
| UploadPortal (token : option string) (applicantName : string)
    (requiredDocuments : list string)
| NoPortal.

Definition render (token : option string) (pg : Page) : View :=
  if loading pg then Validating
  else
    match error pg with
    | Some message =>
        if DocumentCaptureCamera.truthy_str (Some message) then LinkInvalid message
        else if completed pg then Submitted
        else match tokenData pg with
             | Some td => UploadPortal token (td_applicant_name td) (td_required_documents td)
             | None => NoPortal
             end
    | None =>
        if completed pg then Submitted
        else match tokenData pg with
             | Some td => UploadPortal token (td_applicant_name td) (td_required_documents td)
             | None => NoPortal
             end
    end.

(** [onComplete={() => setCompleted(true)}], for what the portal does. *)
Definition on_portal_action (pg : Page) (a : Action) : Page :=
  match a with
  | OnComplete => setCompleted true pg
  | _ => pg
  end.

End DocumentUpload.


(** * Properties *)

(** ** Binary digits and shifts *)

Lemma digits2_pos_size (p : positive) : digits2_pos p = Pos.size p.
Proof. induction p as [p IH|p IH|]; cbn; congruence. Qed.

Lemma Zdigits2_log2 (p : positive) : Zdigits2 (Zpos p) = Z.log2 (Zpos p) + 1.
Proof.
  cbn [Zdigits2]. rewrite digits2_pos_size.
  destruct p as [p|p|]; cbn [Pos.size Z.log2]; lia.
Qed.

Lemma Zdigits2_nonneg (m : Z) : 0 <= Zdigits2 m.
Proof. destruct m; cbn; lia. Qed.

Lemma Zdigits2_pos (m : Z) : 0 < m -> 0 < Zdigits2 m.
Proof. destruct m; cbn; lia. Qed.

Lemma Zdigits2_bounds (m : Z) :
  0 < m -> 2 ^ (Zdigits2 m - 1) <= m < 2 ^ Zdigits2 m.
Proof.
  intros Hm. destruct m as [|p|p]; try lia.
  rewrite Zdigits2_log2. replace (Z.log2 (Z.pos p) + 1 - 1) with (Z.log2 (Z.pos p)) by lia.
  pose proof (Z.log2_spec (Z.pos p) Hm) as H.
  replace (Z.succ (Z.log2 (Z.pos p))) with (Z.log2 (Z.pos p) + 1) in H by lia.
  exact H.
Qed.

Lemma Zdigits2_unique (m d : Z) :
  2 ^ (d - 1) <= m < 2 ^ d -> 0 < m -> Zdigits2 m = d.
Proof.
  intros H Hm. destruct m as [|p|p]; try lia.
  assert (0 < d) as Hd.
  { destruct (Z_lt_le_dec 0 d) as [?|Hle]; [assumption|].
    assert (2 ^ d <= 2 ^ 0) by (apply Z.pow_le_mono_r; lia).
    change (2 ^ 0) with 1 in *. lia. }
  rewrite Zdigits2_log2.
  rewrite (Z.log2_unique (Z.pos p) (d - 1)); [lia|lia|].
  replace (Z.succ (d - 1)) with d by lia. exact H.
Qed.

Lemma Zdigits2_le (m k : Z) : 0 <= m -> 0 <= k -> m < 2 ^ k -> Zdigits2 m <= k.
Proof.
  intros Hm0 Hk H. destruct (Z_lt_le_dec 0 m) as [Hm|Hm].
  - destruct (Z_lt_le_dec k (Zdigits2 m)) as [Hlt|?]; [|assumption].
    pose proof (Zdigits2_bounds m Hm) as [Hlo _].
    assert (2 ^ k <= 2 ^ (Zdigits2 m - 1)) by (apply Z.pow_le_mono_r; lia).
    lia.
  - replace m with 0 by lia. exact Hk.
Qed.

Lemma Zdigits2_ge (m k : Z) : 0 < m -> 2 ^ (k - 1) <= m -> k <= Zdigits2 m.
Proof.
  intros Hm H. pose proof (Zdigits2_bounds m Hm) as [_ Hhi].
  destruct (Z_lt_le_dec (Zdigits2 m) k) as [Hlt|?]; [|assumption].
  assert (2 ^ Zdigits2 m <= 2 ^ (k - 1)) by (apply Z.pow_le_mono_r; [lia|lia]).
  lia.
Qed.

Lemma Zdigits2_mul_pow2 (m k : Z) :
  0 < m -> 0 <= k -> Zdigits2 (m * 2 ^ k) = Zdigits2 m + k.
Proof.
  intros Hm Hk. pose proof (Zdigits2_bounds m Hm) as [Hlo Hhi].
  pose proof (Zdigits2_pos m Hm) as Hd.
  assert (0 < 2 ^ k) as Hp by (apply Z.pow_pos_nonneg; lia).
  apply Zdigits2_unique; [|nia].
  replace (Zdigits2 m + k - 1) with (Zdigits2 m - 1 + k) by lia.
  rewrite !Z.pow_add_r by lia. nia.
Qed.

Lemma Zdigits2_div_pow2 (m k : Z) :
  0 < m -> 0 <= k -> k < Zdigits2 m -> Zdigits2 (m / 2 ^ k) = Zdigits2 m - k.
Proof.
  intros Hm Hk Hlt. pose proof (Zdigits2_bounds m Hm) as [Hlo Hhi].
  assert (0 < 2 ^ k) as Hp by (apply Z.pow_pos_nonneg; lia).
  assert (2 ^ (Zdigits2 m - k - 1) <= m / 2 ^ k) as Hq.
  { apply Z.div_le_lower_bound; [lia|].
    rewrite <- Z.pow_add_r by lia.
    replace (k + (Zdigits2 m - k - 1)) with (Zdigits2 m - 1) by lia. exact Hlo. }
  assert (0 < 2 ^ (Zdigits2 m - k - 1)) by (apply Z.pow_pos_nonneg; lia).
  apply Zdigits2_unique; [|lia]. split; [exact Hq|].
  apply Z.div_lt_upper_bound; [lia|].
  rewrite <- Z.pow_add_r by lia.
  replace (k + (Zdigits2 m - k)) with (Zdigits2 m) by lia. exact Hhi.
Qed.

Lemma div_pow2_small (m k : Z) :
  0 <= m -> Zdigits2 m <= k -> m / 2 ^ k = 0.
Proof.
  intros Hm Hk. destruct (Z.eq_dec m 0) as [->|Hne]; [apply Z.div_0_l; pose proof (Z.pow_pos_nonneg 2 k); pose proof (Zdigits2_nonneg 0); cbn in *; lia|].
  pose proof (Zdigits2_bounds m ltac:(lia)) as [_ Hhi].
  apply Z.div_small. split; [lia|].
  assert (2 ^ Zdigits2 m <= 2 ^ k) by (apply Z.pow_le_mono_r; lia). lia.
Qed.

(** The left shift of [shl_align]. *)
Lemma iter_xO_pow2 (d m : positive) : Z.pos (Pos.iter xO m d) = Z.pos m * 2 ^ Z.pos d.
Proof.
  change (Pos.iter xO m d) with (shift_pos d m).
  rewrite shift_pos_correct, Zpower_pos_nat, Zpower_nat_Z, positive_nat_Z. lia.
Qed.

(** The right shift of [shr]. *)
Lemma iter_pos_nat {A : Type} (f : A -> A) (n : positive) (a : A) :
  SpecFloat.iter_pos f n a = Nat.iter (Pos.to_nat n) f a.
Proof.
  revert a. induction n as [n IH|n IH|]; intros a; cbn [SpecFloat.iter_pos].
  - rewrite !IH, Pos2Nat.inj_xI. rewrite <- Nat.iter_succ_r.
    rewrite <- Nat.iter_add. f_equal. lia.
  - rewrite !IH, Pos2Nat.inj_xO, <- Nat.iter_add. f_equal. lia.
  - reflexivity.
Qed.

Lemma shr_1_m (r : shr_record) :
  0 <= shr_m r -> shr_m (shr_1 r) = shr_m r / 2.
Proof.
  destruct r as [m r s]; cbn [shr_m]. intros Hm.
  destruct m as [|[p|p|]|p]; cbn [shr_1 shr_m]; try lia; try reflexivity.
  - apply (Z.div_unique _ _ _ 1); lia.
  - apply (Z.div_unique _ _ _ 0); lia.
Qed.

Lemma shr_iter_m (n : nat) (r : shr_record) :
  0 <= shr_m r ->
  shr_m (Nat.iter n shr_1 r) = shr_m r / 2 ^ Z.of_nat n.
Proof.
  intros Hm. induction n as [|n IH].
  - cbn. rewrite Z.div_1_r. reflexivity.
  - change (Nat.iter (S n) shr_1 r) with (shr_1 (Nat.iter n shr_1 r)).
    rewrite shr_1_m.
    + rewrite IH, Z.div_div by (try apply Z.pow_pos_nonneg; lia).
      f_equal. rewrite Nat2Z.inj_succ, Z.pow_succ_r by lia. lia.
    + rewrite IH. apply Z.div_pos; [lia|apply Z.pow_pos_nonneg; lia].
Qed.

Lemma shr_1_exact (m : Z) :
  0 <= m ->
  shr_1 {| shr_m := 2 * m; shr_r := false; shr_s := false |}
  = {| shr_m := m; shr_r := false; shr_s := false |}.
Proof. intros Hm. destruct m as [|p|p]; [reflexivity|reflexivity|lia]. Qed.

Lemma shr_iter_exact (n : nat) (m : Z) :
  0 <= m ->
  Nat.iter n shr_1 {| shr_m := m * 2 ^ Z.of_nat n; shr_r := false; shr_s := false |}
  = {| shr_m := m; shr_r := false; shr_s := false |}.
Proof.
  intros Hm. revert m Hm. induction n as [|n IH]; intros m Hm.
  - change (Z.of_nat 0) with 0. rewrite Z.pow_0_r, Z.mul_1_r. reflexivity.
  - rewrite Nat.iter_succ_r.
    replace (m * 2 ^ Z.of_nat (S n)) with (2 * (m * 2 ^ Z.of_nat n)).
    + rewrite shr_1_exact; [apply IH; exact Hm|].
      apply Z.mul_nonneg_nonneg; [lia|apply Z.pow_nonneg; lia].
    + rewrite Nat2Z.inj_succ, Z.pow_succ_r by lia. lia.
Qed.

Lemma loc_of_shr_record_of_loc (m : Z) (l : location) :
  loc_of_shr_record (shr_record_of_loc m l) = l.
Proof. destruct l as [|[]]; reflexivity. Qed.

Lemma round_nearest_even_bounds (m : Z) (l : location) :
  m <= round_nearest_even m l <= m + 1.
Proof.
  destruct l as [|[]]; cbn [round_nearest_even]; try lia.
  destruct (Z.even m); lia.
Qed.

(** ** Rounding *)

Section Rounding.

Variables prec emax : Z.
Hypothesis Hprec : 0 < prec.

Local Abbreviation fexp := (SpecFloat.fexp prec emax).
Local Abbreviation emin := (SpecFloat.emin prec emax).

Lemma fexp_ge_emin (e : Z) : emin <= fexp e.
Proof. unfold SpecFloat.fexp. lia. Qed.

Lemma fexp_eq (e : Z) : fexp e = Z.max (e - prec) emin.
Proof. reflexivity. Qed.

Lemma shr_m_record_of_loc (m : Z) (l : location) : shr_m (shr_record_of_loc m l) = m.
Proof. destruct l as [|[]]; reflexivity. Qed.

Lemma shr_fexp_spec (m e : Z) (l : location) :
  0 <= m ->
  let e' := Z.max e (fexp (Zdigits2 m + e)) in
  exists r,
    shr_fexp prec emax m e l = (r, e')
    /\ shr_m r = m / 2 ^ (e' - e)
    /\ (e' = e -> r = shr_record_of_loc m l)
    /\ (l = loc_Exact -> m mod 2 ^ (e' - e) = 0 ->
        r = {| shr_m := m / 2 ^ (e' - e); shr_r := false; shr_s := false |}).
Proof.
  intros Hm e'. unfold shr_fexp, shr.
  destruct (fexp (Zdigits2 m + e) - e) as [|p|p] eqn:Hn.
  - assert (e' = e) as He by (unfold e'; lia).
    exists (shr_record_of_loc m l). rewrite He, Z.sub_diag, Z.pow_0_r, Z.div_1_r.
    repeat split; [apply shr_m_record_of_loc|].
    intros -> _. reflexivity.
  - assert (e' = e + Z.pos p) as He by (unfold e'; lia).
    exists (SpecFloat.iter_pos shr_1 p (shr_record_of_loc m l)).
    rewrite He. replace (e + Z.pos p - e) with (Z.pos p) by lia.
    rewrite iter_pos_nat.
    split; [reflexivity|]. split; [|split].
    + rewrite shr_iter_m by (rewrite shr_m_record_of_loc; exact Hm).
      rewrite shr_m_record_of_loc, positive_nat_Z. reflexivity.
    + lia.
    + intros -> Hmod. cbn [shr_record_of_loc].
      assert (0 < 2 ^ Z.pos p) as Hp by (apply Z.pow_pos_nonneg; lia).
      assert (m = m / 2 ^ Z.pos p * 2 ^ Z.pos p) as Hmq.
      { pose proof (Z.div_mod m (2 ^ Z.pos p)). lia. }
      rewrite Hmq at 1. rewrite <- (positive_nat_Z p) at 2.
      apply shr_iter_exact. apply Z.div_pos; lia.
  - assert (e' = e) as He by (unfold e'; lia).
    exists (shr_record_of_loc m l). rewrite He, Z.sub_diag, Z.pow_0_r, Z.div_1_r.
    repeat split; [apply shr_m_record_of_loc|].
    intros -> _. reflexivity.
Qed.

Lemma binary_round_aux_spec (sx : bool) (mx ex : Z) (lx : location) :
  0 < mx ->
  ex <= fexp (Zdigits2 mx + ex) ->
  let e1 := fexp (Zdigits2 mx + ex) in
  let m1 := mx / 2 ^ (e1 - ex) in
  exists m2,
    m1 <= m2 <= m1 + 1
    /\ m2 <= 2 ^ prec
    /\ (lx = loc_Exact -> mx mod 2 ^ (e1 - ex) = 0 -> m2 = m1)
    /\ binary_round_aux prec emax sx mx ex lx = round_result prec emax sx m2 e1.
Proof.
  intros Hmx Hpre e1 m1.
  assert (0 < 2 ^ (e1 - ex)) as Hpow by (apply Z.pow_pos_nonneg; lia).
  assert (0 <= m1) as Hm1 by (apply Z.div_pos; lia).
  assert (m1 < 2 ^ prec) as Hm1lt.
  { destruct (Z_lt_le_dec (e1 - ex) (Zdigits2 mx)) as [Hlt|Hge].
    - assert (Zdigits2 m1 = Zdigits2 mx - (e1 - ex)) as Hd
        by (apply Zdigits2_div_pow2; lia).
      assert (0 < m1).
      { destruct (Z.eq_dec m1 0) as [H0|]; [|lia]. rewrite H0 in Hd. cbn in Hd. lia. }
      pose proof (Zdigits2_bounds m1 ltac:(lia)) as [_ Hhi].
      assert (2 ^ Zdigits2 m1 <= 2 ^ prec); [|lia].
      apply Z.pow_le_mono_r; [lia|]. unfold e1, SpecFloat.fexp in *. lia.
    - unfold m1. rewrite div_pow2_small by lia. apply Z.pow_pos_nonneg; lia. }
  unfold binary_round_aux.
  destruct (shr_fexp_spec mx ex lx ltac:(lia)) as (r1 & E1 & Hr1 & Hsame & Hexact).
  replace (Z.max ex (fexp (Zdigits2 mx + ex))) with e1 in * by (unfold e1; lia).
  rewrite E1. fold m1 in Hr1, Hexact.
  set (m2 := round_nearest_even (shr_m r1) (loc_of_shr_record r1)).
  assert (m1 <= m2 <= m1 + 1) as Hm2.
  { unfold m2. rewrite <- Hr1. apply round_nearest_even_bounds. }
  exists m2. split; [exact Hm2|]. split; [lia|]. split.
  { intros Hl Hmod. unfold m2. rewrite (Hexact Hl Hmod). reflexivity. }
  assert (emin <= e1) as Hemin by apply fexp_ge_emin.
  destruct (shr_fexp_spec m2 e1 loc_Exact ltac:(lia)) as (r2 & E2 & Hr2 & _ & _).
  rewrite E2. unfold round_result.
  destruct (Z.eqb_spec m2 0) as [H0|Hne].
  - rewrite Hr2, H0. rewrite Z.div_0_l by (apply Z.pow_nonzero; lia). reflexivity.
  - destruct (Z.ltb_spec m2 (2 ^ prec)) as [Hlt|Hge].
    + assert (Zdigits2 m2 <= prec) by (apply Zdigits2_le; lia).
      assert (Z.max e1 (fexp (Zdigits2 m2 + e1)) = e1) as He2
        by (unfold SpecFloat.fexp; lia).
      rewrite He2 in *. rewrite Z.sub_diag, Z.pow_0_r, Z.div_1_r in Hr2.
      rewrite Hr2. destruct m2 as [|p|p]; try lia. reflexivity.
    + assert (m2 = 2 ^ prec) as Hm2eq by lia.
      assert (Zdigits2 m2 = prec + 1) as Hd.
      { apply Zdigits2_unique; [|lia]. rewrite Hm2eq.
        replace (prec + 1 - 1) with prec by lia. split; [lia|].
        apply Z.pow_lt_mono_r; lia. }
      assert (Z.max e1 (fexp (Zdigits2 m2 + e1)) = e1 + 1) as He2
        by (rewrite Hd; unfold SpecFloat.fexp; lia).
      rewrite He2 in *. replace (e1 + 1 - e1) with 1 in Hr2 by lia.
      assert (shr_m r2 = 2 ^ (prec - 1)) as Hr2'.
      { rewrite Hr2, Hm2eq. change (2 ^ 1) with 2.
        replace prec with (Z.succ (prec - 1)) at 1 by lia.
        rewrite Z.pow_succ_r by lia. rewrite Z.mul_comm, Z.div_mul by lia.
        reflexivity. }
      rewrite Hr2'. assert (0 < 2 ^ (prec - 1)) by (apply Z.pow_pos_nonneg; lia).
      destruct (2 ^ (prec - 1)) as [|p|p]; try lia. reflexivity.
Qed.

Lemma shl_align_spec (mx : positive) (ex ex' : Z) :
  exists mz,
    shl_align mx ex ex' = (mz, Z.min ex ex')
    /\ Z.pos mz = Z.pos mx * 2 ^ (ex - Z.min ex ex').
Proof.
  unfold shl_align. destruct (ex' - ex) as [|d|d] eqn:Hd.
  - exists mx. replace (Z.min ex ex') with ex by lia.
    rewrite Z.sub_diag, Z.pow_0_r. split; [reflexivity|lia].
  - exists mx. replace (Z.min ex ex') with ex by lia.
    rewrite Z.sub_diag, Z.pow_0_r. split; [reflexivity|lia].
  - exists (Pos.iter xO mx d). replace (Z.min ex ex') with ex' by lia.
    split; [reflexivity|]. rewrite iter_xO_pow2. f_equal. f_equal. lia.
Qed.

(** [binary_round] on a number that needs no rounding: the mantissa is
    moved to the exponent of its binade. *)
Lemma binary_round_exact (sx : bool) (mx : positive) (ex : Z) :
  let f := fexp (Zdigits2 (Z.pos mx) + ex) in
  (ex < f -> Z.pos mx mod 2 ^ (f - ex) = 0) ->
  binary_round prec emax sx mx ex
  = round_result prec emax sx
      (if f <=? ex then Z.pos mx * 2 ^ (ex - f) else Z.pos mx / 2 ^ (f - ex)) f.
Proof.
  intros f Hrep. unfold binary_round.
  change (Z.pos (digits2_pos mx)) with (Zdigits2 (Z.pos mx)). fold f.
  destruct (shl_align_spec mx ex f) as (mz & -> & Hmz).
  set (ez := Z.min ex f) in *.
  assert (Zdigits2 (Z.pos mz) + ez = Zdigits2 (Z.pos mx) + ex) as Hd.
  { rewrite Hmz, Zdigits2_mul_pow2 by lia. lia. }
  destruct (binary_round_aux_spec sx (Z.pos mz) ez loc_Exact ltac:(lia))
    as (m2 & _ & _ & Hex & ->).
  { rewrite Hd. fold f. lia. }
  rewrite Hd in *. fold f in Hex |- *. f_equal.
  destruct (Z.leb_spec f ex) as [Hle|Hlt].
  - assert (ez = f) as -> by lia. rewrite Hex; [|reflexivity|].
    + rewrite Z.sub_diag, Z.pow_0_r, Z.div_1_r. exact Hmz.
    + rewrite Z.sub_diag, Z.pow_0_r. apply Z.mod_1_r.
  - assert (ez = ex) as Hez by lia. rewrite Hez in *.
    rewrite Z.sub_diag, Z.pow_0_r, Z.mul_1_r in Hmz. rewrite Hmz in *.
    apply Hex; [reflexivity|]. apply Hrep. lia.
Qed.

(** A number of at most [prec] bits, in the normal range: its mantissa is
    shifted to exactly [prec] bits. *)
Lemma binary_round_small (sx : bool) (c : positive) (e : Z) :
  Z.pos c < 2 ^ prec ->
  emin + prec - 1 <= e <= emax - prec ->
  binary_round prec emax sx c e
  = S754_finite sx (Z.to_pos (Z.pos c * 2 ^ (prec - Zdigits2 (Z.pos c))))
      (e - (prec - Zdigits2 (Z.pos c))).
Proof.
  intros Hc He. pose proof (Zdigits2_pos (Z.pos c) ltac:(lia)) as Hd0.
  assert (Zdigits2 (Z.pos c) <= prec) as Hd by (apply Zdigits2_le; lia).
  pose proof (Zdigits2_bounds (Z.pos c) ltac:(lia)) as [_ Hhi].
  assert (fexp (Zdigits2 (Z.pos c) + e) = e - (prec - Zdigits2 (Z.pos c))) as Hf
    by (unfold SpecFloat.fexp; lia).
  rewrite binary_round_exact by (rewrite Hf; lia).
  rewrite Hf. destruct (Z.leb_spec (e - (prec - Zdigits2 (Z.pos c))) e); [|lia].
  replace (e - (e - (prec - Zdigits2 (Z.pos c)))) with (prec - Zdigits2 (Z.pos c)) by lia.
  set (k := prec - Zdigits2 (Z.pos c)) in *.
  assert (0 < 2 ^ k) by (apply Z.pow_pos_nonneg; lia).
  assert (Z.pos c * 2 ^ k < 2 ^ prec).
  { assert (2 ^ prec = 2 ^ Zdigits2 (Z.pos c) * 2 ^ k) as ->
      by (rewrite <- Z.pow_add_r by lia; f_equal; unfold k; lia).
    nia. }
  unfold round_result.
  destruct (Z.eqb_spec (Z.pos c * 2 ^ k) 0); [nia|].
  destruct (Z.ltb_spec (Z.pos c * 2 ^ k) (2 ^ prec)); [|lia].
  destruct (Z.leb_spec (e - k) (emax - prec)); [reflexivity|lia].
Qed.

(** The same number written with a mantissa scaled by a power of two. *)
Lemma binary_round_scale (sx : bool) (c : positive) (J e : Z) :
  0 <= J ->
  Z.pos c < 2 ^ prec ->
  emin + prec - 1 <= e <= emax - prec ->
  binary_round prec emax sx (Z.to_pos (Z.pos c * 2 ^ J)) (e - J)
  = binary_round prec emax sx c e.
Proof.
  intros HJ Hc He. pose proof (Zdigits2_pos (Z.pos c) ltac:(lia)) as Hd0.
  assert (Zdigits2 (Z.pos c) <= prec) as Hd by (apply Zdigits2_le; lia).
  assert (0 < 2 ^ J) as HpJ by (apply Z.pow_pos_nonneg; lia).
  assert (Z.pos (Z.to_pos (Z.pos c * 2 ^ J)) = Z.pos c * 2 ^ J) as Hid
    by (apply Z2Pos.id; nia).
  set (f := e - (prec - Zdigits2 (Z.pos c))).
  assert (fexp (Zdigits2 (Z.pos c) + e) = f) as Hf
    by (unfold SpecFloat.fexp, f; lia).
  assert (fexp (Zdigits2 (Z.pos (Z.to_pos (Z.pos c * 2 ^ J))) + (e - J)) = f) as Hf'.
  { rewrite Hid, Zdigits2_mul_pow2 by lia. rewrite <- Hf. f_equal. lia. }
  rewrite (binary_round_exact sx c e) by (rewrite Hf; unfold f; lia).
  rewrite binary_round_exact.
  - rewrite Hf, Hf', Hid. f_equal.
    destruct (Z.leb_spec f e); [|unfold f in *; lia].
    destruct (Z.leb_spec f (e - J)).
    + rewrite <- Z.mul_assoc, <- Z.pow_add_r by lia. f_equal. f_equal. lia.
    + replace (2 ^ J) with (2 ^ (e - f) * 2 ^ (f - (e - J))).
      * rewrite Z.mul_assoc, Z.div_mul by (apply Z.pow_nonzero; lia). reflexivity.
      * rewrite <- Z.pow_add_r by lia. f_equal. lia.
  - rewrite Hf', Hid. intros Hlt.
    replace (2 ^ J) with (2 ^ (e - f) * 2 ^ (f - (e - J))).
    + rewrite Z.mul_assoc. apply Z.mod_mul. apply Z.pow_nonzero; unfold f in *; lia.
    + rewrite <- Z.pow_add_r by (unfold f in *; lia). f_equal. lia.
Qed.

Lemma Zdigits2_abs (z : Z) : Zdigits2 (Z.abs z) = Zdigits2 z.
Proof. destruct z; reflexivity. Qed.

Lemma binary_normalize_small (z e : Z) :
  z <> 0 ->
  Z.abs z < 2 ^ prec ->
  emin + prec - 1 <= e <= emax - prec ->
  binary_normalize prec emax z e false
  = S754_finite (z <? 0) (Z.to_pos (Z.abs z * 2 ^ (prec - Zdigits2 z)))
      (e - (prec - Zdigits2 z)).
Proof.
  intros Hz Hlt He. destruct z as [|p|p]; [lia| |]; cbn [binary_normalize Z.abs].
  - now rewrite binary_round_small.
  - now rewrite binary_round_small.
Qed.

Lemma binary_normalize_scale (z J e : Z) :
  0 <= J ->
  Z.abs z < 2 ^ prec ->
  emin + prec - 1 <= e <= emax - prec ->
  binary_normalize prec emax (z * 2 ^ J) (e - J) false
  = binary_normalize prec emax z e false.
Proof.
  intros HJ Hlt He. assert (0 < 2 ^ J) as HpJ by (apply Z.pow_pos_nonneg; lia).
  destruct z as [|p|p]; [reflexivity| |].
  - destruct (Z.pos p * 2 ^ J) as [|q|q] eqn:Hq; try nia.
    cbn [binary_normalize]. rewrite <- (binary_round_scale false p J e) by assumption.
    rewrite Hq. reflexivity.
  - destruct (Z.neg p * 2 ^ J) as [|q|q] eqn:Hq; try nia.
    cbn [binary_normalize]. rewrite <- (binary_round_scale true p J e) by assumption.
    f_equal. assert (Z.pos q = Z.pos p * 2 ^ J) as <- by lia. reflexivity.
Qed.

Lemma SFadd_finite (s1 : bool) (m1 : positive) (e1 : Z)
    (s2 : bool) (m2 : positive) (e2 : Z) :
  let ez := Z.min e1 e2 in
  SFadd prec emax (S754_finite s1 m1 e1) (S754_finite s2 m2 e2)
  = binary_normalize prec emax
      (cond_Zopp s1 (Z.pos m1 * 2 ^ (e1 - ez))
       + cond_Zopp s2 (Z.pos m2 * 2 ^ (e2 - ez))) ez false.
Proof.
  intros ez. unfold SFadd. fold ez.
  destruct (shl_align_spec m1 e1 ez) as (z1 & -> & H1).
  destruct (shl_align_spec m2 e2 ez) as (z2 & -> & H2).
  cbn [fst]. rewrite H1, H2.
  replace (Z.min e1 ez) with ez by (unfold ez; lia).
  replace (Z.min e2 ez) with ez by (unfold ez; lia). reflexivity.
Qed.

Lemma SFsub_finite (s1 : bool) (m1 : positive) (e1 : Z)
    (s2 : bool) (m2 : positive) (e2 : Z) :
  let ez := Z.min e1 e2 in
  SFsub prec emax (S754_finite s1 m1 e1) (S754_finite s2 m2 e2)
  = binary_normalize prec emax
      (cond_Zopp s1 (Z.pos m1 * 2 ^ (e1 - ez))
       - cond_Zopp s2 (Z.pos m2 * 2 ^ (e2 - ez))) ez false.
Proof.
  intros ez. unfold SFsub. fold ez.
  destruct (shl_align_spec m1 e1 ez) as (z1 & -> & H1).
  destruct (shl_align_spec m2 e2 ez) as (z2 & -> & H2).
  cbn [fst]. rewrite H1, H2.
  replace (Z.min e1 ez) with ez by (unfold ez; lia).
  replace (Z.min e2 ez) with ez by (unfold ez; lia). reflexivity.
Qed.

Lemma cond_Zopp_abs (z k : Z) : cond_Zopp (z <? 0) (Z.abs z * k) = z * k.
Proof. destruct (Z.ltb_spec z 0); cbn [cond_Zopp]; lia. Qed.

(** Sums and differences of small integer multiples of [2 ^ e] are
    exact. *)
Lemma SFadd_normalize (a b e : Z) :
  a <> 0 -> b <> 0 ->
  Z.abs a < 2 ^ prec -> Z.abs b < 2 ^ prec -> Z.abs (a + b) < 2 ^ prec ->
  emin + prec - 1 <= e <= emax - prec ->
  SFadd prec emax (binary_normalize prec emax a e false)
                  (binary_normalize prec emax b e false)
  = binary_normalize prec emax (a + b) e false.
Proof.
  intros Ha Hb Hla Hlb Hlab He.
  rewrite (binary_normalize_small a e), (binary_normalize_small b e) by assumption.
  rewrite SFadd_finite.
  assert (0 < Zdigits2 a <= prec /\ 0 < Zdigits2 b <= prec) as [Hda Hdb].
  { rewrite <- (Zdigits2_abs a), <- (Zdigits2_abs b).
    split; (split; [apply Zdigits2_pos; lia | apply Zdigits2_le; lia]). }
  set (J := Z.max (prec - Zdigits2 a) (prec - Zdigits2 b)).
  replace (Z.min (e - (prec - Zdigits2 a)) (e - (prec - Zdigits2 b)))
    with (e - J) by (unfold J; lia).
  assert (forall z, z <> 0 -> 0 < Zdigits2 z <= prec -> prec - Zdigits2 z <= J ->
            Z.pos (Z.to_pos (Z.abs z * 2 ^ (prec - Zdigits2 z)))
            * 2 ^ (e - (prec - Zdigits2 z) - (e - J)) = Z.abs z * 2 ^ J) as Hal.
  { intros z Hz Hdz Hk.
    assert (0 < 2 ^ (prec - Zdigits2 z)) by (apply Z.pow_pos_nonneg; lia).
    rewrite Z2Pos.id by nia. rewrite <- Z.mul_assoc, <- Z.pow_add_r by lia.
    f_equal. f_equal. lia. }
  rewrite (Hal a), (Hal b) by (try assumption; unfold J; lia).
  rewrite !cond_Zopp_abs, <- Z.mul_add_distr_r.
  apply binary_normalize_scale; [unfold J; lia|assumption..].
Qed.

Lemma SFsub_normalize (a b e : Z) :
  a <> 0 -> b <> 0 ->
  Z.abs a < 2 ^ prec -> Z.abs b < 2 ^ prec -> Z.abs (a - b) < 2 ^ prec ->
  emin + prec - 1 <= e <= emax - prec ->
  SFsub prec emax (binary_normalize prec emax a e false)
                  (binary_normalize prec emax b e false)
  = binary_normalize prec emax (a - b) e false.
Proof.
  intros Ha Hb Hla Hlb Hlab He.
  rewrite (binary_normalize_small a e), (binary_normalize_small b e) by assumption.
  rewrite SFsub_finite.
  assert (0 < Zdigits2 a <= prec /\ 0 < Zdigits2 b <= prec) as [Hda Hdb].
  { rewrite <- (Zdigits2_abs a), <- (Zdigits2_abs b).
    split; (split; [apply Zdigits2_pos; lia | apply Zdigits2_le; lia]). }
  set (J := Z.max (prec - Zdigits2 a) (prec - Zdigits2 b)).
  replace (Z.min (e - (prec - Zdigits2 a)) (e - (prec - Zdigits2 b)))
    with (e - J) by (unfold J; lia).
  assert (forall z, z <> 0 -> 0 < Zdigits2 z <= prec -> prec - Zdigits2 z <= J ->
            Z.pos (Z.to_pos (Z.abs z * 2 ^ (prec - Zdigits2 z)))
            * 2 ^ (e - (prec - Zdigits2 z) - (e - J)) = Z.abs z * 2 ^ J) as Hal.
  { intros z Hz Hdz Hk.
    assert (0 < 2 ^ (prec - Zdigits2 z)) by (apply Z.pow_pos_nonneg; lia).
    rewrite Z2Pos.id by nia. rewrite <- Z.mul_assoc, <- Z.pow_add_r by lia.
    f_equal. f_equal. lia. }
  rewrite (Hal a), (Hal b) by (try assumption; unfold J; lia).
  rewrite !cond_Zopp_abs, <- Z.mul_sub_distr_r.
  apply binary_normalize_scale; [unfold J; lia|assumption..].
Qed.

(** [binary_round] in general: the mantissa is moved to the exponent of
    the binade and rounded there. *)
Lemma binary_round_shape (sx : bool) (mx : positive) (ex : Z) :
  let f := fexp (Zdigits2 (Z.pos mx) + ex) in
  exists m2,
    binary_round prec emax sx mx ex = round_result prec emax sx m2 f
    /\ m2 <= 2 ^ prec
    /\ (f <= ex -> m2 = Z.pos mx * 2 ^ (ex - f))
    /\ (ex < f -> Z.pos mx / 2 ^ (f - ex) <= m2 <= Z.pos mx / 2 ^ (f - ex) + 1).
Proof.
  intros f. unfold binary_round.
  change (Z.pos (digits2_pos mx)) with (Zdigits2 (Z.pos mx)). fold f.
  destruct (shl_align_spec mx ex f) as (mz & -> & Hmz).
  set (ez := Z.min ex f) in *.
  assert (Zdigits2 (Z.pos mz) + ez = Zdigits2 (Z.pos mx) + ex) as Hd.
  { rewrite Hmz, Zdigits2_mul_pow2 by lia. lia. }
  destruct (binary_round_aux_spec sx (Z.pos mz) ez loc_Exact ltac:(lia))
    as (m2 & Hb & Hle & Hex & ->).
  { rewrite Hd. fold f. lia. }
  rewrite Hd in *. fold f in Hex, Hb |- *. exists m2.
  split; [reflexivity|]. split; [exact Hle|]. split.
  - intros Hfe. assert (ez = f) as Hez by lia. rewrite Hez in *.
    rewrite Hex; [|reflexivity|].
    + rewrite Z.sub_diag, Z.pow_0_r, Z.div_1_r. exact Hmz.
    + rewrite Z.sub_diag, Z.pow_0_r. apply Z.mod_1_r.
  - intros Hfe. assert (ez = ex) as Hez by lia. rewrite Hez in *.
    rewrite Z.sub_diag, Z.pow_0_r, Z.mul_1_r in Hmz. rewrite Hmz in *. exact Hb.
Qed.

(** A rounded mantissa of full width gives a normal number. *)
Lemma round_result_normal (sx : bool) (m2 f : Z) :
  2 ^ (prec - 1) <= m2 <= 2 ^ prec ->
  f + 1 <= emax - prec ->
  exists M E,
    round_result prec emax sx m2 f = S754_finite sx M E
    /\ Zdigits2 (Z.pos M) = prec
    /\ f <= E <= f + 1
    /\ Z.pos M * 2 ^ (E - f) = m2.
Proof.
  intros Hm Hf. assert (0 < 2 ^ (prec - 1)) as Hp by (apply Z.pow_pos_nonneg; lia).
  assert (2 ^ prec = 2 * 2 ^ (prec - 1)) as Hp2.
  { rewrite <- Z.pow_succ_r by lia. f_equal. lia. }
  unfold round_result. destruct (Z.eqb_spec m2 0); [lia|].
  destruct (Z.ltb_spec m2 (2 ^ prec)).
  - destruct (Z.leb_spec f (emax - prec)); [|lia].
    exists (Z.to_pos m2), f. rewrite Z2Pos.id by lia.
    rewrite Z.sub_diag, Z.pow_0_r. repeat split; try lia.
    apply Zdigits2_unique; lia.
  - destruct (Z.leb_spec (f + 1) (emax - prec)); [|lia].
    exists (Z.to_pos (2 ^ (prec - 1))), (f + 1). rewrite Z2Pos.id by lia.
    replace (f + 1 - f) with 1 by lia. change (2 ^ 1) with 2.
    repeat split; try lia.
    apply Zdigits2_unique; [|lia]. replace (prec - 1) with (prec - 1) by lia. lia.
Qed.

(** Multiplication of a normal number by a power of two. *)
Lemma SFmul_pow2 (s1 : bool) (P : positive) (k : Z)
    (s : bool) (M : positive) (f : Z) :
  Z.pos P = 2 ^ (prec - 1) ->
  Zdigits2 (Z.pos M) = prec ->
  emin <= f + k + (prec - 1) <= emax - prec ->
  SFmul prec emax (S754_finite s1 P k) (S754_finite s M f)
  = S754_finite (xorb s1 s) M (f + k + (prec - 1)).
Proof.
  intros HP HM Hr. cbn [SFmul]. rewrite Pos2Z.inj_mul, HP.
  assert (0 < 2 ^ (prec - 1)) as Hp by (apply Z.pow_pos_nonneg; lia).
  pose proof (Zdigits2_bounds (Z.pos M) ltac:(lia)) as [Hlo Hhi]. rewrite HM in Hlo, Hhi.
  assert (Zdigits2 (2 ^ (prec - 1) * Z.pos M) = prec + (prec - 1)) as Hd.
  { rewrite Z.mul_comm, Zdigits2_mul_pow2 by lia. lia. }
  assert (fexp (Zdigits2 (2 ^ (prec - 1) * Z.pos M) + (k + f)) = f + k + (prec - 1)) as Hf.
  { rewrite Hd. unfold SpecFloat.fexp. lia. }
  destruct (binary_round_aux_spec (xorb s1 s) (2 ^ (prec - 1) * Z.pos M) (k + f) loc_Exact)
    as (m2 & _ & _ & Hex & ->); [nia|rewrite Hf; lia|].
  rewrite Hf in *. replace (f + k + (prec - 1) - (k + f)) with (prec - 1) in Hex by lia.
  rewrite Hex; [|reflexivity|].
  - rewrite Z.mul_comm, Z.div_mul by lia. unfold round_result.
    destruct (Z.eqb_spec (Z.pos M) 0); [lia|].
    destruct (Z.ltb_spec (Z.pos M) (2 ^ prec)); [|lia].
    destruct (Z.leb_spec (f + k + (prec - 1)) (emax - prec)); [reflexivity|lia].
  - rewrite Z.mul_comm. apply Z.mod_mul. lia.
Qed.

(** The sum of two positive normal numbers is a positive normal number. *)
Lemma SFadd_normal (lo hi : Z) (x y : spec_float) :
  emin <= lo -> hi + 2 <= emax - prec ->
  normal_in prec lo hi x -> normal_in prec lo hi y ->
  normal_in prec lo (hi + 2) (SFadd prec emax x y).
Proof.
  intros Hlo Hhi (M1 & E1 & -> & Hd1 & He1) (M2 & E2 & -> & Hd2 & He2).
  rewrite SFadd_finite. cbn [cond_Zopp].
  set (ez := Z.min E1 E2). set (emx := Z.max E1 E2).
  pose proof (Zdigits2_bounds (Z.pos M1) ltac:(lia)) as [Hl1 Hh1].
  pose proof (Zdigits2_bounds (Z.pos M2) ltac:(lia)) as [Hl2 Hh2].
  rewrite Hd1 in Hl1, Hh1. rewrite Hd2 in Hl2, Hh2.
  assert (0 < 2 ^ (prec - 1)) as Hp1 by (apply Z.pow_pos_nonneg; lia).
  assert (2 ^ prec = 2 * 2 ^ (prec - 1)) as Hp2.
  { rewrite <- Z.pow_succ_r by lia. f_equal. lia. }
  assert (0 < 2 ^ (E1 - ez) /\ 0 < 2 ^ (E2 - ez)) as [Hq1 Hq2]
    by (split; apply Z.pow_pos_nonneg; unfold ez; lia).
  assert (2 ^ (emx - ez) = Z.max (2 ^ (E1 - ez)) (2 ^ (E2 - ez))) as Hmx.
  { unfold emx, ez. destruct (Z.le_ge_cases E1 E2).
    - rewrite !Z.min_l, !Z.max_r, Z.sub_diag by lia. change (2 ^ 0) with 1.
      replace (Z.max 1 (2 ^ (E2 - E1))) with (2 ^ (E2 - E1)) by lia. reflexivity.
    - rewrite !Z.min_r, !Z.max_l, Z.sub_diag by lia. change (2 ^ 0) with 1.
      replace (Z.max (2 ^ (E1 - E2)) 1) with (2 ^ (E1 - E2)) by lia. reflexivity. }
  set (zs := Z.pos M1 * 2 ^ (E1 - ez) + Z.pos M2 * 2 ^ (E2 - ez)).
  assert (2 ^ (prec - 1) * 2 ^ (emx - ez) <= zs < 2 * 2 ^ prec * 2 ^ (emx - ez)) as HZ
    by (rewrite Hmx; unfold zs; nia).
  assert (0 < 2 ^ (emx - ez)) by (apply Z.pow_pos_nonneg; unfold emx, ez; lia).
  assert (prec + (emx - ez) <= Zdigits2 zs <= prec + (emx - ez) + 1) as HdZ.
  { split.
    - apply Zdigits2_ge; [nia|].
      replace (prec + (emx - ez) - 1) with (prec - 1 + (emx - ez)) by lia.
      rewrite Z.pow_add_r by (unfold emx, ez; lia). lia.
    - apply Zdigits2_le; [nia|unfold emx, ez; lia|].
      replace (prec + (emx - ez) + 1) with (1 + prec + (emx - ez)) by lia.
      rewrite !Z.pow_add_r by (unfold emx, ez; lia). change (2 ^ 1) with 2. lia. }
  destruct zs as [|p|p] eqn:Hzs; try nia. cbn [binary_normalize].
  destruct (binary_round_shape false p ez) as (m2 & -> & Hle & Hcase1 & Hcase2).
  set (f := fexp (Zdigits2 (Z.pos p) + ez)) in *.
  assert (f = Zdigits2 (Z.pos p) + ez - prec) as Hf
    by (unfold f, SpecFloat.fexp, emx, ez in *; lia).
  assert (2 ^ (prec - 1) <= m2) as Hm2.
  { destruct (Z_le_gt_dec f ez) as [Hfe|Hfe].
    - rewrite (Hcase1 Hfe). replace (ez - f) with 0 by lia.
      rewrite Z.pow_0_r, Z.mul_1_r.
      pose proof (Zdigits2_bounds (Z.pos p) ltac:(lia)) as [Hlp _].
      replace (Zdigits2 (Z.pos p)) with prec in Hlp by lia. exact Hlp.
    - specialize (Hcase2 ltac:(lia)).
      assert (Zdigits2 (Z.pos p / 2 ^ (f - ez)) = prec) as Hdq.
      { rewrite Zdigits2_div_pow2 by lia. lia. }
      assert (0 < Z.pos p / 2 ^ (f - ez)).
      { destruct (Z.pos p / 2 ^ (f - ez)) as [|q|q] eqn:Hq; cbn in Hdq; try lia.
        pose proof (Z.div_pos (Z.pos p) (2 ^ (f - ez)) ltac:(lia)
                      ltac:(apply Z.pow_pos_nonneg; lia)). lia. }
      pose proof (Zdigits2_bounds _ H0) as [Hlq _]. rewrite Hdq in Hlq. lia. }
  destruct (round_result_normal false m2 f ltac:(lia)) as (M & E & -> & HdM & HE & _).
  { unfold emx, ez in *. lia. }
  exists M, E. split; [reflexivity|]. split; [exact HdM|]. unfold emx, ez in *. lia.
Qed.

(** Rounding a mantissa of at least [prec] bits, in the normal range: the
    result is a normal number, not below the truncated mantissa. *)
Lemma binary_round_aux_wide (sx : bool) (mx ex : Z) (lx : location) :
  prec <= Zdigits2 mx -> 0 < mx ->
  let e1 := Zdigits2 mx + ex - prec in
  emin <= e1 -> e1 + 1 <= emax - prec ->
  exists M E,
    binary_round_aux prec emax sx mx ex lx = S754_finite sx M E
    /\ Zdigits2 (Z.pos M) = prec
    /\ e1 <= E <= e1 + 1
    /\ mx / 2 ^ (Zdigits2 mx - prec) <= Z.pos M * 2 ^ (E - e1).
Proof.
  intros Hd Hmx e1 Hlo Hhi.
  assert (fexp (Zdigits2 mx + ex) = e1) as Hf by (unfold SpecFloat.fexp, e1; lia).
  destruct (binary_round_aux_spec sx mx ex lx Hmx) as (m2 & Hb & Hle & _ & ->).
  { rewrite Hf. unfold e1. lia. }
  rewrite Hf in *. replace (e1 - ex) with (Zdigits2 mx - prec) in Hb by (unfold e1; lia).
  assert (Zdigits2 (mx / 2 ^ (Zdigits2 mx - prec)) = prec) as Hdq.
  { rewrite Zdigits2_div_pow2 by lia. lia. }
  assert (0 < mx / 2 ^ (Zdigits2 mx - prec)) as Hq.
  { destruct (mx / 2 ^ (Zdigits2 mx - prec)) as [|q|q] eqn:Hq; cbn in Hdq; try lia.
    pose proof (Z.div_pos mx (2 ^ (Zdigits2 mx - prec)) ltac:(lia)
                  ltac:(apply Z.pow_pos_nonneg; lia)). lia. }
  pose proof (Zdigits2_bounds _ Hq) as [Hlq _]. rewrite Hdq in Hlq.
  destruct (round_result_normal sx m2 e1 ltac:(lia) Hhi) as (M & E & -> & HdM & HE & HM).
  exists M, E. split; [reflexivity|]. split; [exact HdM|]. split; [exact HE|].
  rewrite HM. lia.
Qed.

End Rounding.


(** ** binary64 and binary32 *)

Lemma prec_pos : 0 < prec.
Proof. reflexivity. Qed.

Lemma prec_lt_emax : prec < emax.
Proof. reflexivity. Qed.

Lemma pow2_24 : 2 ^ 24 = 16777216.
Proof. reflexivity. Qed.

Lemma pow2_53 : 2 ^ prec = 9007199254740992.
Proof. reflexivity. Qed.

Lemma scaled_zero (e : Z) : scaled 0 e = zero.
Proof. reflexivity. Qed.

(** The normal form of a small integer multiple of a power of two. *)
Lemma scaled_small (a e : Z) :
  a <> 0 -> Z.abs a < 2 ^ prec -> -1022 <= e <= 971 ->
  scaled a e
  = S754_finite (a <? 0) (Z.to_pos (Z.abs a * 2 ^ (prec - Zdigits2 a)))
      (e - (prec - Zdigits2 a)).
Proof.
  intros Ha Hlt He. apply (binary_normalize_small prec emax prec_pos);
    [assumption..|]. exact He.
Qed.

Lemma scaled_mantissa_digits (a : Z) :
  a <> 0 -> Z.abs a < 2 ^ prec ->
  Zdigits2 (Z.pos (Z.to_pos (Z.abs a * 2 ^ (prec - Zdigits2 a)))) = prec.
Proof.
  intros Ha Hlt. rewrite <- (Zdigits2_abs a).
  assert (0 < Zdigits2 (Z.abs a)) by (apply Zdigits2_pos; lia).
  assert (Zdigits2 (Z.abs a) <= prec) by (apply Zdigits2_le; [lia|unfold prec; lia|lia]).
  assert (0 < 2 ^ (prec - Zdigits2 (Z.abs a))) by (apply Z.pow_pos_nonneg; lia).
  rewrite Z2Pos.id by nia. rewrite Zdigits2_mul_pow2 by lia. lia.
Qed.

Lemma neg_scaled (a e : Z) :
  a <> 0 -> Z.abs a < 2 ^ prec -> -1022 <= e <= 971 ->
  neg (scaled a e) = scaled (- a) e.
Proof.
  intros Ha Hlt He. rewrite !scaled_small by lia. cbn [neg SFopp].
  rewrite Z.abs_opp. replace (Zdigits2 (- a)) with (Zdigits2 a) by (destruct a; reflexivity).
  f_equal. destruct (Z.ltb_spec a 0), (Z.ltb_spec (- a) 0); cbn; try reflexivity; lia.
Qed.

Lemma add_scaled (a b e : Z) :
  a <> 0 -> b <> 0 ->
  Z.abs a < 2 ^ prec -> Z.abs b < 2 ^ prec -> Z.abs (a + b) < 2 ^ prec ->
  -1022 <= e <= 971 ->
  add (scaled a e) (scaled b e) = scaled (a + b) e.
Proof.
  intros. apply (SFadd_normalize prec emax prec_pos); assumption.
Qed.

Lemma sub_scaled (a b e : Z) :
  a <> 0 -> b <> 0 ->
  Z.abs a < 2 ^ prec -> Z.abs b < 2 ^ prec -> Z.abs (a - b) < 2 ^ prec ->
  -1022 <= e <= 971 ->
  sub (scaled a e) (scaled b e) = scaled (a - b) e.
Proof.
  intros. apply (SFsub_normalize prec emax prec_pos); assumption.
Qed.

(** Multiplication by [2 ^ j] or [- 2 ^ j], written as a binary64
    constant. *)
Lemma mul_pow2_scaled (s1 : bool) (j a e : Z) :
  0 <= j <= 8 ->
  a <> 0 -> Z.abs a * 2 ^ j < 2 ^ prec -> -1000 <= e <= 900 ->
  mul (S754_finite s1 4503599627370496 (j - 52)) (scaled a e)
  = scaled (cond_Zopp s1 (a * 2 ^ j)) e.
Proof.
  intros Hj Ha Hlt He. assert (0 < 2 ^ j) by (apply Z.pow_pos_nonneg; lia).
  assert (Z.abs a < 2 ^ prec) by nia.
  assert (cond_Zopp s1 (a * 2 ^ j) <> 0) by (destruct s1; cbn; nia).
  assert (Z.abs (cond_Zopp s1 (a * 2 ^ j)) = Z.abs a * 2 ^ j) as Habs
    by (destruct s1; cbn; nia).
  assert (Zdigits2 (cond_Zopp s1 (a * 2 ^ j)) = Zdigits2 a + j) as Hdig.
  { rewrite <- Zdigits2_abs, Habs, Zdigits2_mul_pow2, Zdigits2_abs by lia. reflexivity. }
  assert (0 < Zdigits2 a).
  { rewrite <- Zdigits2_abs. apply Zdigits2_pos. lia. }
  assert (Zdigits2 a + j <= prec).
  { rewrite <- Hdig, <- Zdigits2_abs, Habs. apply Zdigits2_le; [nia|unfold prec; lia|lia]. }
  rewrite (scaled_small a e), (scaled_small (cond_Zopp s1 (a * 2 ^ j)) e) by lia.
  unfold mul. rewrite (SFmul_pow2 prec emax prec_pos).
  - rewrite Habs, Hdig. f_equal.
    + destruct s1, (Z.ltb_spec a 0), (Z.ltb_spec (cond_Zopp true (a * 2 ^ j)) 0),
        (Z.ltb_spec (cond_Zopp false (a * 2 ^ j)) 0); cbn in *; try reflexivity; nia.
    + f_equal. rewrite <- Z.mul_assoc, <- Z.pow_add_r by lia. f_equal. f_equal. lia.
    + unfold prec. lia.
  - reflexivity.
  - apply scaled_mantissa_digits; assumption.
  - unfold SpecFloat.emin, prec, emax in *. lia.
Qed.

Lemma c8_pow2 : c8 = S754_finite false 4503599627370496 (3 - 52).
Proof. reflexivity. Qed.

Lemma minus_one_pow2 : of_Z (-1) = S754_finite true 4503599627370496 (0 - 52).
Proof. reflexivity. Qed.

(** The Laplacian of a field in which the nine cells hold the same gray
    value is zero. *)
Lemma laplacian_uniform (g : number) :
  gray_value g -> laplacian9 g g g g g g g g g = zero.
Proof.
  unfold laplacian9. intros [->|(M & E & -> & HM & HE)]; [reflexivity|].
  rewrite pow2_24 in HM. pose proof pow2_53 as H53.
  rewrite c8_pow2, (mul_pow2_scaled false 3 (Z.pos M) E) by (cbn; lia).
  cbn [cond_Zopp]. change (2 ^ 3) with 8.
  rewrite neg_scaled by lia.
  rewrite !sub_scaled by lia.
  rewrite add_scaled by lia.
  rewrite !sub_scaled by lia.
  match goal with |- scaled ?X _ = _ => replace X with 0 by lia end.
  reflexivity.
Qed.

(** ** The luma of a pixel *)

Lemma zero_or_normal_inb_spec (lo hi : Z) (x : spec_float) :
  zero_or_normal_inb lo hi x = true -> zero_or_normal_in prec lo hi x.
Proof.
  destruct x as [[]|s| |[] m e]; cbn [zero_or_normal_inb]; try discriminate.
  - intros _. left. reflexivity.
  - intros H. apply andb_true_iff in H as [H H3]. apply andb_true_iff in H as [H1 H2].
    apply Z.eqb_eq in H1. apply Z.leb_le in H2, H3.
    right. exists m, e. split; [reflexivity|]. unfold prec. lia.
Qed.

(** The three weighted channels, for each of the 256 channel values. *)
Lemma weighted_channel_shape (b : byte) :
  zero_or_normal_inb (-60) (-40) (mul c0_299 (of_Z (byte_to_Z b))) = true
  /\ zero_or_normal_inb (-60) (-40) (mul c0_587 (of_Z (byte_to_Z b))) = true
  /\ zero_or_normal_inb (-60) (-40) (mul c0_114 (of_Z (byte_to_Z b))) = true.
Proof. destruct b; vm_compute; auto. Qed.

Lemma add_zero_or_normal (lo hi : Z) (a b : number) :
  -1074 <= lo -> hi + 2 <= 971 ->
  zero_or_normal_in prec lo hi a -> zero_or_normal_in prec lo hi b ->
  zero_or_normal_in prec lo (hi + 2) (add a b).
Proof.
  intros Hlo Hhi [->|Ha] [->|Hb].
  - left. reflexivity.
  - right. destruct Hb as (M & E & -> & Hd & He). exists M, E.
    split; [reflexivity|]. split; [assumption|lia].
  - right. destruct Ha as (M & E & -> & Hd & He). exists M, E.
    split; [reflexivity|]. split; [assumption|lia].
  - right. apply (SFadd_normal prec emax prec_pos); assumption.
Qed.

Lemma zero_or_normal_in_weaken (lo hi lo' hi' : Z) (a : number) :
  lo' <= lo -> hi <= hi' ->
  zero_or_normal_in prec lo hi a -> zero_or_normal_in prec lo' hi' a.
Proof.
  intros Hlo Hhi [->|(M & E & -> & Hd & He)]; [left; reflexivity|].
  right. exists M, E. split; [reflexivity|]. split; [assumption|lia].
Qed.

(** The luma of three channel values is a positive zero or a positive
    normal number below 2 ^ 17; in particular it is not NaN. *)
Lemma luma_rgb_shape (r g b : byte) :
  zero_or_normal_in prec (-60) (-36)
    (add (add (mul c0_299 (of_Z (byte_to_Z r))) (mul c0_587 (of_Z (byte_to_Z g))))
         (mul c0_114 (of_Z (byte_to_Z b)))).
Proof.
  destruct (weighted_channel_shape r) as (Hr & _ & _).
  destruct (weighted_channel_shape g) as (_ & Hg & _).
  destruct (weighted_channel_shape b) as (_ & _ & Hb).
  apply zero_or_normal_inb_spec in Hr, Hg, Hb.
  apply (add_zero_or_normal (-60) (-38)); [lia|lia| |].
  - apply (add_zero_or_normal (-60) (-40)); [lia|lia|assumption..].
  - apply (zero_or_normal_in_weaken (-60) (-40)); [lia|lia|assumption].
Qed.

(** Rounding to binary32 and back. *)
Lemma fround_normal (lo hi : Z) (a : number) :
  -178 <= lo -> hi <= 74 ->
  normal_in prec lo hi a ->
  exists M E, fround a = scaled (Z.pos M) E /\ Z.pos M < 2 ^ 24
              /\ lo + 29 <= E <= hi + 30.
Proof.
  intros Hlo Hhi (M0 & E0 & -> & Hd & He).
  unfold fround. cbn [to_binary32].
  destruct (binary_round_shape 24 128 ltac:(lia) false M0 E0) as (m2 & -> & Hle & _ & Hm2).
  rewrite Hd in *.
  assert (SpecFloat.fexp 24 128 (prec + E0) = E0 + 29) as Hf
    by (unfold SpecFloat.fexp, SpecFloat.emin, prec; lia).
  rewrite Hf in *. specialize (Hm2 ltac:(lia)).
  replace (E0 + 29 - E0) with 29 in Hm2 by lia.
  assert (Zdigits2 (Z.pos M0 / 2 ^ 29) = 24) as Hdq.
  { rewrite Zdigits2_div_pow2 by (unfold prec in *; lia). unfold prec in *. lia. }
  assert (0 < Z.pos M0 / 2 ^ 29) as Hq.
  { destruct (Z.pos M0 / 2 ^ 29) as [|q|q] eqn:Hq; cbn in Hdq; try lia.
    pose proof (Z.div_pos (Z.pos M0) (2 ^ 29) ltac:(lia) ltac:(lia)). lia. }
  pose proof (Zdigits2_bounds _ Hq) as [Hlq _]. rewrite Hdq in Hlq.
  destruct (round_result_normal 24 128 ltac:(lia) false m2 (E0 + 29))
    as (M & E & -> & HdM & HE & _); [cbn in *; lia|lia|].
  exists M, E. split; [reflexivity|].
  pose proof (Zdigits2_bounds (Z.pos M) ltac:(lia)) as [_ HhM]. rewrite HdM in HhM.
  split; [exact HhM|lia].
Qed.

Lemma fround_gray_value (lo hi : Z) (a : number) :
  -178 <= lo -> hi <= 74 ->
  zero_or_normal_in prec lo hi a -> gray_value (fround a).
Proof.
  intros Hlo Hhi [->|Ha]; [left; reflexivity|].
  destruct (fround_normal lo hi a Hlo Hhi Ha) as (M & E & -> & HM & HE).
  right. exists M, E. repeat split; [exact HM|lia..].
Qed.

(** ** Subtraction and negation *)

Lemma sub_add_neg (a b : number) : sub a b = add a (neg b).
Proof.
  destruct a as [sa|sa| |sa ma ea], b as [sb|sb| |sb mb eb];
    try reflexivity;
    destruct sa, sb; reflexivity.
Qed.

Lemma mul_minus_one_gray (g : number) :
  gray_value g -> mul (of_Z (-1)) g = neg g.
Proof.
  intros [->|(M & E & -> & HM & HE)]; [reflexivity|].
  rewrite pow2_24 in HM. pose proof pow2_53 as H53.
  rewrite minus_one_pow2, (mul_pow2_scaled true 0 (Z.pos M) E) by (cbn; lia).
  cbn [cond_Zopp]. rewrite Z.pow_0_r, Z.mul_1_r.
  rewrite neg_scaled by lia. reflexivity.
Qed.

Lemma of_Z_8 : of_Z 8 = c8.
Proof. reflexivity. Qed.

(** ** Integers *)

Lemma of_Z_scaled (z : Z) : of_Z z = scaled z 0.
Proof. reflexivity. Qed.

(** A positive integer below 2 ^ 53 is a positive normal number. *)
Lemma of_Z_pos_normal (n : Z) :
  0 < n < 2 ^ prec ->
  of_Z n = S754_finite false (Z.to_pos (n * 2 ^ (prec - Zdigits2 n)))
             (Zdigits2 n - prec)
  /\ Zdigits2 (Z.pos (Z.to_pos (n * 2 ^ (prec - Zdigits2 n)))) = prec.
Proof.
  intros Hn. rewrite of_Z_scaled, scaled_small by lia.
  destruct (Z.ltb_spec n 0); [lia|]. rewrite Z.abs_eq by lia.
  split; [f_equal; lia|].
  pose proof (scaled_mantissa_digits n ltac:(lia) ltac:(lia)) as Hd.
  rewrite Z.abs_eq in Hd by lia. exact Hd.
Qed.

Lemma div_zero_pos (n : Z) : 0 < n < 2 ^ prec -> div zero (of_Z n) = zero.
Proof. intros Hn. destruct (of_Z_pos_normal n Hn) as [-> _]. reflexivity. Qed.

(** ** Comparisons *)

Lemma compare_cont_antisym (p q : positive) (c : comparison) :
  Pos.compare_cont c q p = CompOpp (Pos.compare_cont (CompOpp c) p q).
Proof. rewrite <- Pos.compare_cont_antisym, CompOpp_involutive. reflexivity. Qed.

Lemma SFcompare_antisym (a b : spec_float) :
  SFcompare b a = option_map CompOpp (SFcompare a b).
Proof.
  destruct a as [sa|sa| |sa ma ea], b as [sb|sb| |sb mb eb]; cbn;
    try reflexivity; try (destruct sa; reflexivity); try (destruct sb; reflexivity);
    try (destruct sa, sb; reflexivity).
  destruct sa, sb; try reflexivity; f_equal;
    rewrite (Z.compare_antisym ea eb); destruct (ea ?= eb); cbn; try reflexivity;
    rewrite (compare_cont_antisym ma mb Eq); cbn;
    rewrite ?CompOpp_involutive; reflexivity.
Qed.

(** [a > b] and [a < b] exclude each other. *)
Lemma gt_not_lt (a b : number) : gt a b = true -> lt a b = false.
Proof.
  unfold gt, lt, SFltb. rewrite (SFcompare_antisym a b).
  destruct (SFcompare a b) as [[]|]; cbn; congruence.
Qed.

(** Zero divided by anything is a zero or NaN. *)
Lemma div_zero_cases (s : bool) (b : number) :
  div (S754_zero s) b = NaN \/ exists s', div (S754_zero s) b = S754_zero s'.
Proof. destruct b; cbn; eauto. Qed.

Lemma div_zero_not_sharp (s : bool) (b : number) :
  gt (div (S754_zero s) b) c100 = false.
Proof. destruct (div_zero_cases s b) as [-> | [s' ->]]; reflexivity. Qed.

(** ** Multiplication and order *)

Lemma mul_comm (a b : number) : mul a b = mul b a.
Proof.
  destruct a as [sa|sa| |sa ma ea], b as [sb|sb| |sb mb eb]; cbn;
    rewrite ?(xorb_comm sa sb); try reflexivity.
  rewrite (Pos.mul_comm ma mb), (Z.add_comm ea eb). reflexivity.
Qed.

Lemma SFcompare_not_nan (a b : number) :
  a <> NaN -> b <> NaN -> exists c, SFcompare a b = Some c.
Proof.
  unfold NaN. intros Ha Hb.
  destruct a as [sa|sa| |sa ma ea], b as [sb|sb| |sb mb eb];
    try congruence; cbn; eauto.
Qed.

(** On numbers, [a > b] is the negation of [a <= b]. *)
Lemma gt_negb_le (a b : number) :
  a <> NaN -> b <> NaN -> gt a b = negb (le a b).
Proof.
  intros Ha Hb. unfold gt, le, SFltb, SFleb. rewrite (SFcompare_antisym a b).
  destruct (SFcompare_not_nan a b Ha Hb) as [[] ->]; reflexivity.
Qed.

Lemma zero_or_normal_not_nan (lo hi : Z) (a : number) :
  zero_or_normal_in prec lo hi a -> a <> NaN.
Proof. intros [->|(M & E & -> & _)]; discriminate. Qed.

(** ** Quotients and products of positive normal numbers *)

Lemma SFltb_finite (M1 : positive) (e1 : Z) (M2 : positive) (e2 : Z) :
  SFltb (S754_finite false M1 e1) (S754_finite false M2 e2) = true
  <-> e1 < e2 \/ (e1 = e2 /\ Z.pos M1 < Z.pos M2).
Proof.
  unfold SFltb. cbn [SFcompare]. destruct (Z.compare_spec e1 e2) as [->|Hlt|Hgt].
  - change (Pos.compare_cont Eq M1 M2) with (Pos.compare M1 M2).
    destruct (Pos.compare_spec M1 M2) as [->|Hm|Hm]; split; intros H;
      try discriminate; try reflexivity; try lia.
  - split; [intros _; lia|reflexivity].
  - split; [discriminate|lia].
Qed.

Lemma div_normal (MA : positive) (eA : Z) (MT : positive) (eT : Z) :
  Zdigits2 (Z.pos MA) = prec -> Zdigits2 (Z.pos MT) = prec ->
  -900 <= eA - eT <= 900 ->
  let q := Z.pos MA * 2 ^ prec / Z.pos MT in
  let e1 := Zdigits2 q + (eA - eT - prec) - prec in
  exists MX EX,
    div (S754_finite false MA eA) (S754_finite false MT eT) = S754_finite false MX EX
    /\ Zdigits2 (Z.pos MX) = prec
    /\ e1 <= EX <= e1 + 1
    /\ q / 2 ^ (Zdigits2 q - prec) <= Z.pos MX * 2 ^ (EX - e1)
    /\ 2 ^ (prec - 1) <= q < 2 ^ (prec + 1).
Proof.
  intros HdA HdT He q e1.
  pose proof (Zdigits2_bounds (Z.pos MA) ltac:(lia)) as [HlA HhA].
  pose proof (Zdigits2_bounds (Z.pos MT) ltac:(lia)) as [HlT HhT].
  rewrite HdA in HlA, HhA. rewrite HdT in HlT, HhT.
  change (2 ^ (prec - 1)) with 4503599627370496 in *.
  change (2 ^ prec) with 9007199254740992 in *.
  change (2 ^ (prec + 1)) with 18014398509481984.
  assert (4503599627370496 <= q < 18014398509481984) as Hq.
  { unfold q. split.
    - apply Z.div_le_lower_bound; lia.
    - apply Z.div_lt_upper_bound; lia. }
  assert (prec <= Zdigits2 q) as Hdq1.
  { apply Zdigits2_ge; [lia|]. change (2 ^ (prec - 1)) with 4503599627370496. lia. }
  assert (Zdigits2 q <= prec + 1) as Hdq2.
  { apply Zdigits2_le; [lia|unfold prec; lia|].
    change (2 ^ (prec + 1)) with 18014398509481984. lia. }
  unfold div, SFdiv, SFdiv_core_binary. rewrite HdA, HdT.
  assert (Z.min (SpecFloat.fexp prec emax (prec + eA - (prec + eT))) (eA - eT)
          = eA - eT - prec) as ->
    by (unfold SpecFloat.fexp, SpecFloat.emin, prec, emax; lia).
  replace (eA - eT - (eA - eT - prec)) with prec by lia.
  change (match prec with 0 => Z.pos MA | Z.pos _ => Z.pos MA ≪ prec | Z.neg _ => 0 end)
    with (Z.shiftl (Z.pos MA) prec).
  rewrite Z.shiftl_mul_pow2 by (unfold prec; lia).
  change (IntDef.Z.div_eucl (Z.pos MA * 2 ^ prec) (Z.pos MT))
    with (Z.div_eucl (Z.pos MA * 2 ^ prec) (Z.pos MT)).
  assert ((Z.div_eucl (Z.pos MA * 2 ^ prec) (Z.pos MT)).1 = q) as Hdiv by reflexivity.
  destruct (Z.div_eucl (Z.pos MA * 2 ^ prec) (Z.pos MT)) as [q' r'].
  cbn [fst] in Hdiv. rewrite Hdiv.
  cbn [xorb].
  destruct (binary_round_aux_wide prec emax prec_pos false q (eA - eT - prec)
              (new_location (Z.pos MT) r') Hdq1 ltac:(lia))
    as (MX & EX & HX & HdX & HEX & Hval).
  { unfold SpecFloat.emin, prec, emax in *. lia. }
  { unfold prec, emax in *. lia. }
  exists MX, EX. fold e1 in HEX, Hval. repeat split; try assumption; try lia.
Qed.

Lemma mul_normal (M1 : positive) (e1 : Z) (M2 : positive) (e2 : Z) :
  Zdigits2 (Z.pos M1) = prec -> Zdigits2 (Z.pos M2) = prec ->
  -900 <= e1 + e2 <= 900 ->
  let P := Z.pos M1 * Z.pos M2 in
  let f := Zdigits2 P + (e1 + e2) - prec in
  exists MF EF,
    mul (S754_finite false M1 e1) (S754_finite false M2 e2) = S754_finite false MF EF
    /\ Zdigits2 (Z.pos MF) = prec
    /\ f <= EF <= f + 1
    /\ P / 2 ^ (Zdigits2 P - prec) <= Z.pos MF * 2 ^ (EF - f)
    /\ 2 * prec - 1 <= Zdigits2 P <= 2 * prec.
Proof.
  intros Hd1 Hd2 He P f.
  pose proof (Zdigits2_bounds (Z.pos M1) ltac:(lia)) as [Hl1 Hh1].
  pose proof (Zdigits2_bounds (Z.pos M2) ltac:(lia)) as [Hl2 Hh2].
  rewrite Hd1 in Hl1, Hh1. rewrite Hd2 in Hl2, Hh2.
  change (2 ^ (prec - 1)) with 4503599627370496 in *.
  change (2 ^ prec) with 9007199254740992 in *.
  assert (2 * prec - 1 <= Zdigits2 P <= 2 * prec) as HdP.
  { split.
    - apply Zdigits2_ge; [nia|]. change (2 ^ (2 * prec - 1 - 1)) with
        (4503599627370496 * 4503599627370496). nia.
    - apply Zdigits2_le; [nia|unfold prec; lia|].
      change (2 ^ (2 * prec)) with (9007199254740992 * 9007199254740992). nia. }
  unfold mul. cbn [SFmul xorb]. rewrite Pos2Z.inj_mul. fold P.
  destruct (binary_round_aux_wide prec emax prec_pos false P (e1 + e2) loc_Exact
              ltac:(unfold prec in *; lia) ltac:(nia))
    as (MF & EF & HF & HdF & HEF & Hval).
  { unfold SpecFloat.emin, prec, emax in *. lia. }
  { unfold prec, emax in *. lia. }
  exists MF, EF. fold f in HEF, Hval. repeat split; try assumption; lia.
Qed.

(** ** The fill percentage of an accepted box *)

Lemma quotient_above_quarter (MA MT : Z) :
  4503599627370496 <= MT < 9007199254740992 ->
  MT + 4 <= 2 * MA ->
  4503599627370498 <= MA * 9007199254740992 / MT.
Proof. intros HT H. apply Z.div_le_lower_bound; lia. Qed.

Lemma quotient_above_one (MA MT : Z) :
  4503599627370496 <= MT < 9007199254740992 ->
  MT + 4 <= MA ->
  9007199254740996 <= MA * 9007199254740992 / MT.
Proof. intros HT H. apply Z.div_le_lower_bound; lia. Qed.

Lemma product_above_25 (MX : Z) :
  4503599627370498 <= MX ->
  7036874417766403 <= 7036874417766400 * MX / 4503599627370496.
Proof. intros H. apply Z.div_le_lower_bound; lia. Qed.

Lemma mul_quarter_normal (MT : positive) (eT : Z) :
  Zdigits2 (Z.pos MT) = prec -> -900 <= eT <= 900 ->
  mul c0_25 (S754_finite false MT eT) = S754_finite false MT (eT - 2).
Proof.
  intros Hd He. unfold mul.
  change c0_25 with (S754_finite false 4503599627370496 (-54)).
  rewrite (SFmul_pow2 prec emax prec_pos); [f_equal; unfold prec; lia|reflexivity|exact Hd|].
  unfold SpecFloat.emin, prec, emax. lia.
Qed.

(** A number above a quarter of a positive integer below 2 ^ 51, divided
    by it and multiplied by 100, exceeds 25. *)
Lemma fill_above_25 (a t : Z) :
  0 < t < 2 ^ 51 -> 0 < a < 2 ^ prec ->
  gt (of_Z a) (mul c0_25 (of_Z t)) = true ->
  gt (mul c100 (div (of_Z a) (of_Z t))) c25 = true.
Proof.
  intros Ht Ha. change (2 ^ 51) with 2251799813685248 in Ht.
  assert (prec = 53) as Hprec by reflexivity.
  assert (0 < t < 2 ^ prec) as Ht' by (change (2 ^ prec) with 9007199254740992; lia).
  destruct (of_Z_pos_normal a Ha) as [-> HdA].
  destruct (of_Z_pos_normal t Ht') as [-> HdT].
  set (da := Zdigits2 a) in *. set (dt := Zdigits2 t) in *.
  assert (0 < da <= prec) as Hda.
  { unfold da. split; [apply Zdigits2_pos; lia|apply Zdigits2_le; [lia|unfold prec; lia|lia]]. }
  assert (0 < dt <= 51) as Hdt.
  { unfold dt. split; [apply Zdigits2_pos; lia|apply Zdigits2_le; lia]. }
  pose proof (Zdigits2_bounds a ltac:(lia)) as [Hla Hha]. fold da in Hla, Hha.
  pose proof (Zdigits2_bounds t ltac:(lia)) as [Hlt Hht]. fold dt in Hlt, Hht.
  set (ua := 2 ^ (prec - da)) in *. set (ut := 2 ^ (prec - dt)) in *.
  assert (0 < ua) as Hua by (apply Z.pow_pos_nonneg; lia).
  assert (4 <= ut) as Hut.
  { unfold ut. change 4 with (2 ^ 2). apply Z.pow_le_mono_r; unfold prec; lia. }
  set (MA := Z.to_pos (a * ua)) in *. set (MT := Z.to_pos (t * ut)) in *.
  assert (Z.pos MA = a * ua) as HMA by (apply Z2Pos.id; nia).
  assert (Z.pos MT = t * ut) as HMT by (apply Z2Pos.id; nia).
  pose proof (Zdigits2_bounds (Z.pos MA) ltac:(lia)) as [HlMA HhMA].
  pose proof (Zdigits2_bounds (Z.pos MT) ltac:(lia)) as [HlMT HhMT].
  rewrite HdA in HlMA, HhMA. rewrite HdT in HlMT, HhMT.
  change (2 ^ (prec - 1)) with 4503599627370496 in *.
  change (2 ^ prec) with 9007199254740992 in *.
  rewrite mul_quarter_normal by (try assumption; unfold prec in *; lia).
  unfold gt at 1. rewrite SFltb_finite. intros Hcmp.
  destruct (div_normal MA (da - prec) MT (dt - prec) HdA HdT ltac:(unfold prec in *; lia))
    as (MX & EX & -> & HdX & HEX & HvX & Hq).
  set (q := Z.pos MA * 2 ^ prec / Z.pos MT) in *.
  change (2 ^ prec) with 9007199254740992 in *.
  change (2 ^ (prec - 1)) with 4503599627370496 in *.
  change (2 ^ (prec + 1)) with 18014398509481984 in *.
  set (dq := Zdigits2 q) in *.
  assert (prec <= dq <= prec + 1) as Hdq.
  { unfold dq. split.
    - apply Zdigits2_ge; [lia|]. change (2 ^ (prec - 1)) with 4503599627370496. lia.
    - apply Zdigits2_le; [lia|unfold prec; lia|].
      change (2 ^ (prec + 1)) with 18014398509481984. lia. }
  pose proof (Zdigits2_bounds (Z.pos MX) ltac:(lia)) as [HlMX HhMX].
  rewrite HdX in HlMX, HhMX.
  change (2 ^ (prec - 1)) with 4503599627370496 in *.
  change (2 ^ prec) with 9007199254740992 in *.
  (* the quotient is at least 1/4 + 2^-53 *)
  assert (-53 <= EX \/ (EX = -54 /\ 4503599627370498 <= Z.pos MX)) as HX.
  { destruct (Z_le_gt_dec dt da) as [Hge|Hlt'].
    { left. unfold prec in *. lia. }
    assert (t + 1 <= 4 * a /\ (da = dt - 1 \/ (da = dt - 2 /\ Z.pos MT < Z.pos MA)))
      as [H4a Hcase].
    { destruct Hcmp as [Hc|[Hc Hm]].
      - assert (da = dt - 1) as Hd by lia. split; [|left; exact Hd].
        assert (2 ^ dt = 4 * 2 ^ (da - 1)) as Hp.
        { replace dt with (2 + (da - 1)) by lia. rewrite Z.pow_add_r by lia.
          reflexivity. }
        lia.
      - assert (da = dt - 2) as Hd by lia. split; [|right; split; [exact Hd|exact Hm]].
        assert (ua = 4 * ut) as Hu.
        { unfold ua, ut. replace (prec - da) with (2 + (prec - dt)) by lia.
          rewrite Z.pow_add_r by lia. reflexivity. }
        nia. }
    destruct Hcase as [Hd|[Hd Hm]].
    - assert (ua = 2 * ut) as Hu.
      { unfold ua, ut. replace (prec - da) with (1 + (prec - dt)) by lia.
        rewrite Z.pow_add_r by lia. reflexivity. }
      assert (Z.pos MT + 4 <= 2 * Z.pos MA) as Hgap by nia.
      pose proof (quotient_above_quarter (Z.pos MA) (Z.pos MT) ltac:(lia) Hgap) as Hq2.
      fold q in Hq2.
      destruct (Z.eq_dec dq prec) as [Hdq53|Hdq54].
      + destruct (Z.eq_dec EX (-54)) as [HEX54|HEXn]; [|left; unfold prec in *; lia].
        right. split; [exact HEX54|].
        replace (dq - prec) with 0 in HvX by lia.
        replace (EX - (dq + (da - prec - (dt - prec) - prec) - prec)) with 0 in HvX
          by (unfold prec in *; lia).
        rewrite Z.pow_0_r, Z.div_1_r, Z.mul_1_r in HvX. lia.
      + left. unfold prec in *. lia.
    - assert (ua = 4 * ut) as Hu.
      { unfold ua, ut. replace (prec - da) with (2 + (prec - dt)) by lia.
        rewrite Z.pow_add_r by lia. reflexivity. }
      assert (Z.pos MT + 4 <= Z.pos MA) as Hgap by nia.
      pose proof (quotient_above_one (Z.pos MA) (Z.pos MT) ltac:(lia) Hgap) as Hq2.
      fold q in Hq2.
      assert (dq = prec + 1) as Hdq54.
      { assert (prec + 1 <= dq); [|lia]. unfold dq. apply Zdigits2_ge; [lia|].
        change (2 ^ (prec + 1 - 1)) with 9007199254740992. lia. }
      destruct (Z.eq_dec EX (-54)) as [HEX54|HEXn]; [|left; unfold prec in *; lia].
      right. split; [exact HEX54|].
      replace (dq - prec) with 1 in HvX by lia.
      replace (EX - (dq + (da - prec - (dt - prec) - prec) - prec)) with 0 in HvX
        by (unfold prec in *; lia).
      rewrite Z.pow_0_r, Z.mul_1_r in HvX. change (2 ^ 1) with 2 in HvX.
      assert (4503599627370498 <= q / 2); [|lia].
      apply Z.div_le_lower_bound; lia. }
  (* times 100 *)
  change c100 with (S754_finite false 7036874417766400 (-46)).
  destruct (mul_normal 7036874417766400 (-46) MX EX ltac:(reflexivity) HdX
              ltac:(unfold prec in *; lia))
    as (MF & EF & -> & HdF & HEF & HvF & HdP).
  set (P := 7036874417766400 * Z.pos MX) in *. set (dP := Zdigits2 P) in *.
  unfold gt. change c25 with (S754_finite false 7036874417766400 (-48)).
  rewrite SFltb_finite.
  destruct HX as [HX|[HX HMX]].
  - left. unfold prec in *. lia.
  - destruct (Z.eq_dec EF (-48)) as [HEF48|HEFn]; [|left; unfold prec in *; lia].
    right. split; [lia|].
    assert (dP = 2 * prec - 1) as HdP' by (unfold prec in *; lia).
    replace (dP - prec) with 52 in HvF by (unfold prec in *; lia).
    replace (EF - (dP + (-46 + EX) - prec)) with 0 in HvF by (unfold prec in *; lia).
    rewrite Z.pow_0_r, Z.mul_1_r in HvF. change (2 ^ 52) with 4503599627370496 in HvF.
    pose proof (product_above_25 (Z.pos MX) HMX) as Hp. fold P in Hp. lia.
Qed.


(** ** Loops *)

Section Loops.

Context {S : Type}.

Lemma for_fuel_id (fuel : nat) (i bound step : Z) (body : Z -> S -> S) (s : S) :
  (forall j t, body j t = t) ->
  for_fuel fuel i bound step body s = s.
Proof.
  intros Hid. revert i s. induction fuel as [|fuel IH]; intros i s; cbn; [reflexivity|].
  destruct (i <? bound); [rewrite Hid; apply IH | reflexivity].
Qed.

Lemma for_loop_empty (start bound step : Z) (body : Z -> S -> S) (s : S) :
  bound <= start -> for_loop start bound step body s = s.
Proof.
  intros H. unfold for_loop. replace (Z.to_nat (bound - start)) with O by lia.
  reflexivity.
Qed.

Lemma for_loop_id (start bound step : Z) (body : Z -> S -> S) (s : S) :
  (forall j t, body j t = t) ->
  for_loop start bound step body s = s.
Proof. apply for_fuel_id. Qed.

Lemma stride_nil (start bound step : Z) :
  0 < step -> bound <= start -> stride start bound step = [].
Proof.
  intros Hs Hb. unfold stride. rewrite seqZ_nil; [reflexivity|].
  apply Z.lt_succ_r. apply Z.div_lt_upper_bound; lia.
Qed.

Lemma stride_cons (start bound step : Z) :
  0 < step -> start < bound ->
  stride start bound step = start :: stride (start + step) bound step.
Proof.
  intros Hs Hb. unfold stride.
  replace (bound - start + step - 1) with (bound - (start + step) + step - 1 + 1 * step) by lia.
  rewrite Z.div_add by lia.
  set (n := (bound - (start + step) + step - 1) / step).
  assert (0 <= n) by (apply Z.div_pos; lia).
  rewrite seqZ_cons by lia. cbn [fmap list_fmap]. f_equal; [lia|].
  replace (Z.pred (n + 1)) with n by lia.
  change (Z.succ 0) with (1 + 0). rewrite <- fmap_add_seqZ, <- list_fmap_compose.
  apply list_fmap_ext. intros _ k _. cbn. lia.
Qed.

Lemma for_fuel_foldl (fuel : nat) (i bound step : Z) (body : Z -> S -> S) (s : S) :
  0 < step -> bound - i <= Z.of_nat fuel ->
  for_fuel fuel i bound step body s
  = foldl (fun s j => body j s) s (stride i bound step).
Proof.
  intros Hs. revert i s. induction fuel as [|fuel IH]; intros i s Hf; cbn [for_fuel].
  - rewrite stride_nil by lia. reflexivity.
  - destruct (Z.ltb_spec i bound).
    + rewrite stride_cons by lia. cbn [foldl]. apply IH. lia.
    + rewrite stride_nil by lia. reflexivity.
Qed.

(** A [for] loop is the left fold of its body over the values of its
    variable. *)
Lemma for_loop_foldl (start bound step : Z) (body : Z -> S -> S) (s : S) :
  0 < step ->
  for_loop start bound step body s
  = foldl (fun s j => body j s) s (stride start bound step).
Proof. intros Hs. apply for_fuel_foldl; [exact Hs|lia]. Qed.

Lemma elem_of_stride (j start bound step : Z) :
  0 < step ->
  j ∈ stride start bound step <->
  exists k, 0 <= k /\ j = start + step * k /\ j < bound.
Proof.
  intros Hs. unfold stride. rewrite list_elem_of_fmap. setoid_rewrite elem_of_seqZ.
  split.
  - intros (k & -> & Hk). exists k. split; [lia|]. split; [reflexivity|].
    assert (k + 1 <= (bound - start + step - 1) / step) as Hk' by lia.
    pose proof (Z.mul_div_le (bound - start + step - 1) step Hs). nia.
  - intros (k & Hk & -> & Hlt). exists k. split; [reflexivity|]. split; [lia|].
    assert (k + 1 <= (bound - start + step - 1) / step); [|lia].
    apply Z.div_le_lower_bound; lia.
Qed.

Lemma stride_1 (start bound : Z) : stride start bound 1 = seqZ start (bound - start).
Proof.
  unfold stride. replace (bound - start + 1 - 1) with (bound - start) by lia.
  rewrite Z.div_1_r. replace start with (start + 0) at 2 by lia.
  rewrite <- (fmap_add_seqZ start 0).
  apply list_fmap_ext. intros _ k _. lia.
Qed.

Lemma foldl_invariant {B : Type} (P : S -> Prop) (f : S -> B -> S) (l : list B) (s : S) :
  P s -> (forall t b, b ∈ l -> P t -> P (f t b)) -> P (foldl f s l).
Proof.
  revert s. induction l as [|b l IH]; intros s Hs Hf; cbn [foldl]; [exact Hs|].
  apply IH.
  - apply Hf; [apply list_elem_of_here|exact Hs].
  - intros t c Hc. apply Hf. apply list_elem_of_further. exact Hc.
Qed.

Lemma foldl_bind {B C : Type} (f : S -> C -> S) (g : B -> list C) (l : list B) (s : S) :
  foldl f s (l ≫= g) = foldl (fun s b => foldl f s (g b)) s l.
Proof.
  revert s. induction l as [|b l IH]; intros s; [reflexivity|].
  cbn [mbind list_bind foldl]. rewrite foldl_app. apply IH.
Qed.

Lemma foldl_ext_in {B : Type} (f g : S -> B -> S) (l : list B) (s : S) :
  (forall t b, b ∈ l -> f t b = g t b) -> foldl f s l = foldl g s l.
Proof.
  revert s. induction l as [|b l IH]; intros s Hfg; cbn [foldl]; [reflexivity|].
  rewrite Hfg by apply list_elem_of_here. apply IH.
  intros t c Hc. apply Hfg. apply list_elem_of_further. exact Hc.
Qed.

End Loops.

(** ** Typed arrays *)

Section Arrays.

Context {A : Type}.

Lemma fill_prefix (h : nat -> A) (N : nat) (a0 : A) (n : nat) :
  (n <= N)%nat ->
  foldl (fun arr k => <[k := h k]> arr) (replicate N a0) (seq 0 n)
  = (h <$> seq 0 n) ++ replicate (N - n) a0.
Proof.
  induction n as [|n IH]; intros Hn.
  - cbn. rewrite Nat.sub_0_r. reflexivity.
  - rewrite seq_S, foldl_snoc, IH by lia. cbn [Nat.add].
    rewrite insert_app_r_alt by (rewrite length_fmap, length_seq; lia).
    rewrite length_fmap, length_seq, Nat.sub_diag.
    replace (N - n)%nat with (S (N - S n)) by lia.
    rewrite fmap_app. cbn. rewrite <- app_assoc. reflexivity.
Qed.

(** A loop that writes [g i] at [i / 4] for every fourth [i] below the
    length [4 * N] fills an array of length [N] from left to right. *)
Lemma fill_loop (g : Z -> A) (N : nat) (a0 : A) :
  for_loop 0 (4 * Z.of_nat N) 4 (fun i arr => set arr (i / 4) (g i)) (replicate N a0)
  = (fun k => g (4 * k)) <$> seqZ 0 (Z.of_nat N).
Proof.
  rewrite for_loop_foldl by lia. unfold stride.
  replace ((4 * Z.of_nat N - 0 + 4 - 1) / 4) with (Z.of_nat N).
  2:{ apply (Z.div_unique _ _ _ 3); lia. }
  rewrite foldl_fmap. unfold seqZ. rewrite Nat2Z.id, foldl_fmap.
  rewrite <- list_fmap_compose.
  transitivity (foldl (fun arr k => <[k := g (4 * Z.of_nat k)]> arr)
                  (replicate N a0) (seq 0 N)).
  - generalize (replicate N a0). generalize (seq 0 N).
    intros l. induction l as [|k l IH]; intros arr; cbn [foldl]; [reflexivity|].
    rewrite <- IH. f_equal. unfold set.
    replace ((0 + 4 * (Z.of_nat k + 0)) / 4) with (Z.of_nat k).
    2:{ apply (Z.div_unique _ _ _ 0); lia. }
    destruct (Z.ltb_spec (Z.of_nat k) 0); [lia|].
    rewrite Nat2Z.id. f_equal. f_equal. lia.
  - rewrite (fill_prefix (fun k => g (4 * Z.of_nat k))) by lia.
    rewrite Nat.sub_diag, app_nil_r. apply list_fmap_ext. intros _ k _. cbn.
    f_equal. lia.
Qed.

Lemma get_fmap_seqZ (g : Z -> A) (n k : Z) :
  0 <= k < n -> get (g <$> seqZ 0 n) k = Some (g k).
Proof.
  intros Hk. unfold get. destruct (Z.ltb_spec k 0); [lia|].
  rewrite list_lookup_fmap, lookup_seqZ_lt by lia. cbn. f_equal. f_equal. lia.
Qed.

Lemma get_in_range (l : list A) (k : Z) :
  0 <= k < Z.of_nat (length l) -> exists a, get l k = Some a.
Proof.
  intros Hk. unfold get. destruct (Z.ltb_spec k 0); [lia|].
  destruct (lookup_lt_is_Some_2 l (Z.to_nat k) ltac:(lia)) as [a Ha]. eauto.
Qed.

End Arrays.

(** ** The scanner *)

Section Scanner.

Import DocumentScanner.

(** *** The luminance field *)

Lemma well_formed_length (img : ImageData) :
  well_formed img ->
  Z.of_nat (length (data img)) = 4 * Z.of_nat (Z.to_nat (width img * height img))
  /\ 0 < width img * height img.
Proof. intros (Hw & Hh & Hlen & _). split; nia. Qed.

Lemma grayscale_well_formed (img : ImageData) :
  well_formed img ->
  grayscale img
  = (fun k => fround (luma (data img) (4 * k))) <$> seqZ 0 (width img * height img).
Proof.
  intros Hwf. destruct (well_formed_length img Hwf) as [Hlen Hpos].
  unfold grayscale. rewrite Hlen, fill_loop. rewrite Z2Nat.id by lia. reflexivity.
Qed.

Lemma binarize_well_formed (img : ImageData) :
  well_formed img ->
  binarize img
  = (fun k => if gt (luma (data img) (4 * k)) c128 then 255 else 0)
      <$> seqZ 0 (width img * height img).
Proof.
  intros Hwf. destruct (well_formed_length img Hwf) as [Hlen Hpos].
  unfold binarize. rewrite Hlen.
  rewrite (fill_loop (fun i => if gt (luma (data img) i) c128 then 255 else 0)).
  rewrite Z2Nat.id by lia. reflexivity.
Qed.

Lemma add_nan_r (a : number) : add a NaN = NaN.
Proof. destruct a; reflexivity. Qed.

(** The luma the source computes at byte offset [4 * (py * W + px)] is the
    luma of the pixel in column [px] of row [py]. *)
Lemma luma_pixel (img : ImageData) (px py : Z) :
  luma (data img) (4 * (py * width img + px)) = Spec.pixel_luma img px py.
Proof.
  unfold luma, Spec.pixel_luma, Spec.channel_at, channel.
  rewrite Z.add_0_r.
  destruct (get (data img) (4 * (py * width img + px))) as [r|]; [|reflexivity].
  destruct (get (data img) (4 * (py * width img + px) + 1)) as [g|].
  - destruct (get (data img) (4 * (py * width img + px) + 2)) as [b|];
      [reflexivity|apply add_nan_r].
  - cbn [fmap option_fmap option_map to_number].
    change (mul c0_587 NaN) with NaN. rewrite add_nan_r. reflexivity.
Qed.

Lemma pixel_luma_shape (img : ImageData) (px py : Z) :
  well_formed img ->
  0 <= px < width img -> 0 <= py < height img ->
  zero_or_normal_in prec (-60) (-36) (Spec.pixel_luma img px py).
Proof.
  intros (Hw & Hh & Hlen & _) Hpx Hpy. unfold Spec.pixel_luma, Spec.channel_at.
  assert (0 <= py * width img + px < width img * height img) as Hk by nia.
  destruct (get_in_range (data img) (4 * (py * width img + px) + 0) ltac:(lia)) as [r ->].
  destruct (get_in_range (data img) (4 * (py * width img + px) + 1) ltac:(lia)) as [g ->].
  destruct (get_in_range (data img) (4 * (py * width img + px) + 2) ltac:(lia)) as [b ->].
  apply luma_rgb_shape.
Qed.

Lemma stored_luminance_gray_value (img : ImageData) (px py : Z) :
  well_formed img ->
  0 <= px < width img -> 0 <= py < height img ->
  gray_value (stored_luminance img px py).
Proof.
  intros Hwf Hpx Hpy. unfold stored_luminance.
  apply (fround_gray_value (-60) (-36)); [lia|lia|].
  apply pixel_luma_shape; assumption.
Qed.

(** What the source reads from [gray] at the index of a pixel. *)
Lemma at_grayscale (img : ImageData) (px py : Z) :
  well_formed img ->
  0 <= px < width img -> 0 <= py < height img ->
  at_ (grayscale img) (py * width img + px) = stored_luminance img px py.
Proof.
  intros Hwf Hpx Hpy. rewrite grayscale_well_formed by assumption.
  unfold at_. rewrite get_fmap_seqZ by (destruct Hwf; nia).
  cbn [to_number]. unfold stored_luminance. rewrite luma_pixel. reflexivity.
Qed.

(** *** The Laplacian *)

Lemma response_terms (field : Z -> Z -> number) (px py : Z) :
  Spec.response field px py
  = add (add (add (add (add (add (add (add
      (mul (of_Z (-1)) (field (px + -1) (py + -1)))
      (mul (of_Z (-1)) (field (px + 0) (py + -1))))
      (mul (of_Z (-1)) (field (px + 1) (py + -1))))
      (mul (of_Z (-1)) (field (px + -1) (py + 0))))
      (mul (of_Z 8) (field (px + 0) (py + 0))))
      (mul (of_Z (-1)) (field (px + 1) (py + 0))))
      (mul (of_Z (-1)) (field (px + -1) (py + 1))))
      (mul (of_Z (-1)) (field (px + 0) (py + 1))))
      (mul (of_Z (-1)) (field (px + 1) (py + 1))).
Proof. reflexivity. Qed.

(** At an interior pixel, the source reads the luminance field at the
    pixel and its eight neighbours. *)
Lemma laplacian_field (img : ImageData) (px py : Z) :
  well_formed img ->
  1 <= px < width img - 1 -> 1 <= py < height img - 1 ->
  let L := stored_luminance img in
  laplacian (grayscale img) (width img) (py * width img + px)
  = laplacian9 (L (px + -1) (py + -1)) (L (px + 0) (py + -1)) (L (px + 1) (py + -1))
               (L (px + -1) (py + 0)) (L (px + 0) (py + 0)) (L (px + 1) (py + 0))
               (L (px + -1) (py + 1)) (L (px + 0) (py + 1)) (L (px + 1) (py + 1)).
Proof.
  intros Hwf Hpx Hpy L. set (w := width img). unfold laplacian, laplacian9.
  replace (py * w + px - w - 1) with ((py + -1) * w + (px + -1)) by lia.
  replace (py * w + px - w + 1) with ((py + -1) * w + (px + 1)) by lia.
  replace (py * w + px - w) with ((py + -1) * w + (px + 0)) by lia.
  replace (py * w + px - 1) with ((py + 0) * w + (px + -1)) by lia.
  replace (py * w + px + 1) with ((py + 0) * w + (px + 1)) by lia.
  replace (py * w + px + w - 1) with ((py + 1) * w + (px + -1)) by lia.
  replace (py * w + px + w + 1) with ((py + 1) * w + (px + 1)) by lia.
  replace (py * w + px + w) with ((py + 1) * w + (px + 0)) by lia.
  replace (at_ (grayscale img) (py * w + px))
    with (at_ (grayscale img) ((py + 0) * w + (px + 0))) by (f_equal; lia).
  unfold w. rewrite !at_grayscale by (try assumption; lia). reflexivity.
Qed.

(** At an interior pixel, the expression of the source is the response of
    the kernel on the luminance field. *)
Lemma laplacian_response (img : ImageData) (px py : Z) :
  well_formed img ->
  1 <= px < width img - 1 -> 1 <= py < height img - 1 ->
  laplacian (grayscale img) (width img) (py * width img + px)
  = Spec.response (stored_luminance img) px py.
Proof.
  intros Hwf Hpx Hpy. rewrite laplacian_field by assumption. cbv zeta.
  rewrite response_terms, of_Z_8.
  rewrite !mul_minus_one_gray by (apply stored_luminance_gray_value; try assumption; lia).
  rewrite <- !sub_add_neg. reflexivity.
Qed.

Lemma elem_of_interior (img : ImageData) (p : Z * Z) :
  p ∈ Spec.interior img ->
  1 <= p.1 < width img - 1 /\ 1 <= p.2 < height img - 1.
Proof.
  unfold Spec.interior. rewrite list_elem_of_bind. intros (py & Hp & Hy).
  apply list_elem_of_bind in Hp as (px & Hp & Hx).
  apply list_elem_of_singleton in Hp as ->. cbn.
  apply elem_of_seqZ in Hx, Hy. lia.
Qed.

(** The score of the source is the mean squared response of the kernel on
    the field the source holds. *)
Lemma calculateBlurScore_spec (img : ImageData) :
  well_formed img ->
  calculateBlurScore img = Spec.blur_score_over (stored_luminance img) img.
Proof.
  intros Hwf. unfold calculateBlurScore, Spec.blur_score_over. cbv zeta. f_equal.
  rewrite for_loop_foldl, stride_1 by lia.
  unfold Spec.interior. rewrite foldl_bind.
  replace (height img - 1 - 1) with (height img - 2) by lia.
  apply foldl_ext_in. intros variance py Hy.
  rewrite for_loop_foldl, stride_1 by lia. rewrite foldl_bind.
  replace (width img - 1 - 1) with (width img - 2) by lia.
  apply foldl_ext_in. intros variance' px Hx. cbn [foldl fst snd].
  apply elem_of_seqZ in Hx, Hy.
  rewrite laplacian_response by (try assumption; lia). reflexivity.
Qed.

Lemma msg_closer_distinct :
  msg_position <> msg_closer /\ msg_blurry <> msg_closer /\ msg_ready <> msg_closer.
Proof. repeat split; discriminate. Qed.

(** Below three columns or three rows the Laplacian loops have no
    iteration, and the sum of squares stays at its initial zero. *)
Lemma calculateBlurScore_small (img : ImageData) :
  width img < 3 \/ height img < 3 ->
  calculateBlurScore img = div zero (of_Z ((width img - 2) * (height img - 2))).
Proof.
  intros Hsmall. unfold calculateBlurScore. cbv zeta. f_equal.
  destruct (Z_lt_le_dec (height img) 3) as [Hh|Hh].
  - apply for_loop_empty. lia.
  - apply for_loop_id. intros j t. apply for_loop_empty. lia.
Qed.

(** C2, as the code has it.  [checkQuality] has no guard on the frame
    size: a frame narrower or lower than three pixels is not rejected, the
    call completes with a scan quality whose blur score is zero divided by
    [(W - 2) * (H - 2)], which is NaN when the width or the height is 2, and
    the frame is classified as not sharp. *)
Theorem C2_no_input_guard (img : ImageData) :
  well_formed img ->
  width img < 3 \/ height img < 3 ->
  exists q,
    checkQuality_completion img = Returns q
    /\ blurScore q = div zero (of_Z ((width img - 2) * (height img - 2)))
    /\ isSharp q = false
    /\ (width img = 2 \/ height img = 2 -> blurScore q = NaN).
Proof.
  intros (Hw & Hh & _) Hsmall. exists (checkQuality img). split.
  { unfold checkQuality_completion.
    destruct (Z.ltb_spec (width img * height img) 0) as [Hneg|_]; [nia|reflexivity]. }
  pose proof (calculateBlurScore_small img Hsmall) as Hb.
  unfold checkQuality. destruct (detectDocumentEdges img) as [corners fill].
  cbn [blurScore isSharp]. rewrite Hb. repeat split.
  - apply div_zero_not_sharp.
  - intros H2. replace ((width img - 2) * (height img - 2)) with 0 by lia.
    reflexivity.
Qed.

Lemma C2_no_input_guard_witness :
  exists q,
    checkQuality_completion (Examples.uniform 2 2 x80 x80 x80) = Returns q
    /\ blurScore q = div zero (of_Z ((2 - 2) * (2 - 2)))
    /\ isSharp q = false
    /\ (2 = 2 \/ 2 = 2 -> blurScore q = NaN).
Proof.
  apply (C2_no_input_guard (Examples.uniform 2 2 x80 x80 x80)).
  - unfold well_formed. cbn. lia.
  - left. reflexivity.
Defined.

(** C2, as stated, fails: the 2 x 2 frame of one grey level is a
    well-formed frame below the size limit, and the call completes with a
    NaN blur score instead of an error. *)
Lemma C2_input_guard_counterexample :
  let img := Examples.uniform 2 2 x80 x80 x80 in
  well_formed img /\ width img < 3 /\
  checkQuality_completion img
  = Returns {| isSharp := false; blurScore := NaN; hasDocumentEdges := false;
               documentCorners := None; qualityMessage := msg_position;
               fillPercentage := zero |}
  /\ forall reason, checkQuality_completion img <> Throws reason.
Proof.
  cbv zeta. split; [|split; [|split]].
  - unfold well_formed. cbn. lia.
  - reflexivity.
  - vm_compute. reflexivity.
  - intros reason. vm_compute. discriminate.
Qed.


(** C6.  No frame gets the "move closer" message: that rule is tried only
    when the fill percentage exceeds 40, and then it is not below 40. *)
Theorem C6_move_closer_unreachable (img : ImageData) :
  qualityMessage (checkQuality img) <> msg_closer.
Proof.
  unfold checkQuality. destruct (detectDocumentEdges img) as [corners fill].
  cbn [qualityMessage]. destruct msg_closer_distinct as (Hp & Hb & Hr).
  destruct (is_some corners && gt fill c40) eqn:Hedges; cbn [negb]; [|exact Hp].
  apply andb_true_iff in Hedges as [_ Hfill].
  rewrite (gt_not_lt fill c40 Hfill).
  destruct (gt (calculateBlurScore img) c100); cbn [negb]; assumption.
Qed.

(** C3.  For a frame of at least 3 x 3 pixels, the blur score is the sum,
    over the interior pixels row by row, of the squared response of the
    8-neighbour Laplacian kernel (centre weight +8, the eight surrounding
    cells weight -1), divided by (W - 2) * (H - 2), and the frame is sharp
    exactly when the score exceeds 100.  The field under the kernel is not
    the luma 0.299 R + 0.587 G + 0.114 B itself but that luma rounded to
    single precision: the source stores it in a [Float32Array].  Every
    other operation rounds to binary64, and the terms of the kernel are
    added row by row. *)
Theorem C3_blur_score (img : ImageData) :
  well_formed img ->
  3 <= width img -> 3 <= height img ->
  (forall px py, 0 <= px < width img -> 0 <= py < height img ->
     at_ (grayscale img) (py * width img + px) = fround (Spec.pixel_luma img px py))
  /\ calculateBlurScore img
     = Spec.blur_score_over (fun px py => fround (Spec.pixel_luma img px py)) img
  /\ blurScore (checkQuality img) = calculateBlurScore img
  /\ isSharp (checkQuality img) = gt (calculateBlurScore img) c100.
Proof.
  intros Hwf _ _. split; [|split].
  - intros px py Hpx Hpy. apply at_grayscale; assumption.
  - apply calculateBlurScore_spec, Hwf.
  - unfold checkQuality. destruct (detectDocumentEdges img) as [corners fill].
    cbn [blurScore isSharp]. split; reflexivity.
Qed.

Lemma C3_blur_score_witness :
  let img := Examples.threshold_frame in
  (forall px py, 0 <= px < width img -> 0 <= py < height img ->
     at_ (grayscale img) (py * width img + px) = fround (Spec.pixel_luma img px py))
  /\ calculateBlurScore img
     = Spec.blur_score_over (fun px py => fround (Spec.pixel_luma img px py)) img
  /\ blurScore (checkQuality img) = calculateBlurScore img
  /\ isSharp (checkQuality img) = gt (calculateBlurScore img) c100.
Proof.
  apply (C3_blur_score Examples.threshold_frame).
  - unfold well_formed. cbn. lia.
  - cbn. lia.
  - cbn. lia.
Defined.

(** C3, as stated, fails: the claim puts the luma itself under the kernel.
    On the 3 x 3 frame whose top-left pixel is rgb(0, 0, 220) and whose
    other pixels are rgb(10, 10, 230), the response at the one interior
    pixel is exactly 10 on the luma, so that the formula of the claim
    gives the score 100, in binary64 as in exact arithmetic, and the frame
    is not sharp.  The source rounds the luma to single precision first,
    scores 7036877102121216 * 2^-46 (a little above 100.0000381) and
    classifies the frame as sharp. *)
Lemma C3_blur_score_counterexample :
  let img := Examples.threshold_frame in
  well_formed img /\ 3 <= width img /\ 3 <= height img
  /\ Spec.blur_score img = c100
  /\ Spec.sharp img = false
  /\ QArith_base.Qeq (Exact.blur_score img) (QArith_base.inject_Z 100)
  /\ Exact.sharp img = false
  /\ calculateBlurScore img = S754_finite false 7036877102121216 (-46)
  /\ calculateBlurScore img <> Spec.blur_score img
  /\ gt (calculateBlurScore img) c100 = true
  /\ isSharp (checkQuality img) = true
  /\ isSharp (checkQuality img) <> Spec.sharp img
  /\ isSharp (checkQuality img) <> Exact.sharp img.
Proof.
  cbv zeta.
  assert (calculateBlurScore Examples.threshold_frame
          = S754_finite false 7036877102121216 (-46)) as Hc by (vm_compute; reflexivity).
  assert (Spec.blur_score Examples.threshold_frame = c100) as Hs by (vm_compute; reflexivity).
  assert (Spec.sharp Examples.threshold_frame = false) as Hn by (vm_compute; reflexivity).
  assert (Exact.sharp Examples.threshold_frame = false) as He by (vm_compute; reflexivity).
  assert (isSharp (checkQuality Examples.threshold_frame) = true) as Hq
    by (vm_compute; reflexivity).
  split; [unfold well_formed; cbn; lia|].
  split; [cbn; lia|]. split; [cbn; lia|].
  split; [exact Hs|]. split; [exact Hn|].
  split; [vm_compute; reflexivity|]. split; [exact He|].
  split; [exact Hc|].
  split; [rewrite Hc, Hs; discriminate|].
  split; [rewrite Hc; vm_compute; reflexivity|].
  split; [exact Hq|].
  split; [rewrite Hq, Hn; discriminate|rewrite Hq, He; discriminate].
Qed.

(** *** Uniform frames *)

Lemma stored_luminance_uniform (img : ImageData) (r g b : byte) (px py : Z) :
  (forall px py, 0 <= px < width img -> 0 <= py < height img ->
     Spec.channel_at img px py 0 = Some r
     /\ Spec.channel_at img px py 1 = Some g
     /\ Spec.channel_at img px py 2 = Some b) ->
  0 <= px < width img -> 0 <= py < height img ->
  stored_luminance img px py = fround (Spec.luma_of r g b).
Proof.
  intros Hu Hpx Hpy. unfold stored_luminance, Spec.pixel_luma.
  destruct (Hu px py Hpx Hpy) as (-> & -> & ->). reflexivity.
Qed.

Lemma fround_luma_gray_value (r g b : byte) : gray_value (fround (Spec.luma_of r g b)).
Proof. apply (fround_gray_value (-60) (-36)); [lia|lia|apply luma_rgb_shape]. Qed.

(** C9.  A frame of one colour, at least 3 x 3 pixels large, has blur
    score 0 and is not sharp. *)
Theorem C9_uniform_frame (img : ImageData) :
  well_formed img ->
  3 <= width img -> 3 <= height img ->
  uniformly_coloured img ->
  calculateBlurScore img = zero
  /\ blurScore (checkQuality img) = zero
  /\ isSharp (checkQuality img) = false.
Proof.
  intros Hwf Hw Hh (r & g & b & Hu).
  assert (calculateBlurScore img = zero) as Hb.
  { unfold calculateBlurScore. cbv zeta.
    match goal with |- div ?v _ = _ => assert (v = zero) as -> end.
    - rewrite for_loop_foldl, stride_1 by lia.
      apply (foldl_invariant (fun v => v = zero)); [reflexivity|].
      intros v py Hy ->. rewrite for_loop_foldl, stride_1 by lia.
      apply (foldl_invariant (fun v => v = zero)); [reflexivity|].
      intros v px Hx ->. apply elem_of_seqZ in Hx, Hy.
      rewrite laplacian_field by (try assumption; lia). cbv zeta.
      rewrite !(stored_luminance_uniform img r g b) by (try assumption; lia).
      rewrite laplacian_uniform by apply fround_luma_gray_value. reflexivity.
    - apply div_zero_pos. destruct Hwf as (_ & _ & _ & Hlt).
      change (2 ^ prec) with (2 ^ 53). nia. }
  split; [exact Hb|]. unfold checkQuality.
  destruct (detectDocumentEdges img) as [corners fill].
  cbn [blurScore isSharp]. rewrite Hb. split; reflexivity.
Qed.

Lemma C9_uniform_frame_witness :
  let img := Examples.uniform 3 3 x80 x80 x80 in
  calculateBlurScore img = zero
  /\ blurScore (checkQuality img) = zero
  /\ isSharp (checkQuality img) = false.
Proof.
  apply (C9_uniform_frame (Examples.uniform 3 3 x80 x80 x80)).
  - unfold well_formed. cbn. lia.
  - cbn. lia.
  - cbn. lia.
  - exists x80, x80, x80. intros px py Hpx Hpy. cbn in Hpx, Hpy.
    assert (px = 0 \/ px = 1 \/ px = 2) as Hx by lia.
    assert (py = 0 \/ py = 1 \/ py = 2) as Hy by lia.
    destruct Hx as [->|[->| ->]], Hy as [->|[->| ->]]; repeat split; reflexivity.
Defined.

(** *** The boundary detector *)

Lemma stride_every_4th (n : Z) : stride 0 n 4 = Spec.every_4th n.
Proof.
  unfold stride, Spec.every_4th. replace (n - 0 + 4 - 1) with (n + 3) by lia.
  apply list_fmap_ext. intros _ k _. lia.
Qed.

Lemma elem_of_every_4th (j n : Z) : j ∈ Spec.every_4th n -> 0 <= j < n.
Proof.
  rewrite <- stride_every_4th, elem_of_stride by lia. intros (k & Hk & -> & Hlt). lia.
Qed.

(** A pixel is foreground in [binary] exactly when its luma is at most
    128. *)
Lemma binary_foreground (img : ImageData) (px py : Z) :
  well_formed img ->
  0 <= px < width img -> 0 <= py < height img ->
  get (binarize img) (py * width img + px)
  = Some (if Spec.foreground img px py then 0 else 255).
Proof.
  intros Hwf Hpx Hpy. rewrite binarize_well_formed by assumption.
  rewrite get_fmap_seqZ by (destruct Hwf; nia). rewrite luma_pixel.
  unfold Spec.foreground. rewrite gt_negb_le; [|apply (zero_or_normal_not_nan (-60) (-36)), pixel_luma_shape; assumption|discriminate].
  destruct (le (Spec.pixel_luma img px py) c128); reflexivity.
Qed.

Lemma scan_pixel_sample (img : ImageData) (px py : Z) (s : Scan) :
  well_formed img ->
  0 <= px < width img -> 0 <= py < height img ->
  scan_pixel (binarize img) (width img) py px s
  = foldl extend s
      (if Spec.foreground img px py then [{| x := px; y := py |}] else []).
Proof.
  intros Hwf Hpx Hpy. unfold scan_pixel.
  rewrite binary_foreground by assumption.
  destruct (Spec.foreground img px py); [|reflexivity].
  cbn [foldl]. unfold extend. destruct s as [[tx ty] [bx by_] n].
  cbn [topLeft bottomRight edgeCount x y].
  destruct (Z.ltb_spec px tx); cbn [x y]; destruct (Z.ltb_spec py ty);
    destruct (Z.ltb_spec bx px); cbn [x y]; destruct (Z.ltb_spec by_ py);
    f_equal; f_equal; lia.
Qed.

(** The scan loop folds the foreground samples into the scan state. *)
Lemma scan_samples (img : ImageData) :
  well_formed img ->
  scan (binarize img) (width img) (height img)
  = foldl extend
      {| topLeft := {| x := width img; y := height img |};
         bottomRight := {| x := 0; y := 0 |};
         edgeCount := 0 |}
      (Spec.samples img).
Proof.
  intros Hwf. unfold scan, Spec.samples.
  rewrite for_loop_foldl, stride_every_4th by lia. rewrite foldl_bind.
  apply foldl_ext_in. intros s py Hy.
  rewrite for_loop_foldl, stride_every_4th by lia. rewrite foldl_bind.
  apply foldl_ext_in. intros t px Hx.
  apply elem_of_every_4th in Hx, Hy. apply scan_pixel_sample; assumption.
Qed.

Lemma foldr_min_init (a v : Z) (l : list Z) :
  foldr Z.min (Z.min v a) l = Z.min v (foldr Z.min a l).
Proof. induction l as [|u l IH]; cbn [foldr]; [reflexivity|]. rewrite IH. lia. Qed.

Lemma foldr_max_init (a v : Z) (l : list Z) :
  foldr Z.max (Z.max v a) l = Z.max v (foldr Z.max a l).
Proof. induction l as [|u l IH]; cbn [foldr]; [reflexivity|]. rewrite IH. lia. Qed.

Lemma foldl_extend (pts : list Point) (s : Scan) :
  foldl extend s pts
  = {| topLeft := {| x := foldr Z.min (x (topLeft s)) (x <$> pts);
                     y := foldr Z.min (y (topLeft s)) (y <$> pts) |};
       bottomRight := {| x := foldr Z.max (x (bottomRight s)) (x <$> pts);
                         y := foldr Z.max (y (bottomRight s)) (y <$> pts) |};
       edgeCount := edgeCount s + Z.of_nat (length pts) |}.
Proof.
  revert s. induction pts as [|p pts IH]; intros s.
  - destruct s as [[tx ty] [bx by_] n].
    cbn [foldl fmap list_fmap foldr length topLeft bottomRight edgeCount x y].
    f_equal. change (Z.of_nat 0) with 0. lia.
  - cbn [foldl]. rewrite IH. cbn [extend topLeft bottomRight edgeCount x y].
    rewrite !foldr_min_init, !foldr_max_init. cbn [fmap list_fmap foldr length].
    f_equal. lia.
Qed.

Lemma elem_of_samples (img : ImageData) (p : Point) :
  p ∈ Spec.samples img -> 0 <= x p < width img /\ 0 <= y p < height img.
Proof.
  unfold Spec.samples. rewrite list_elem_of_bind. intros (py & Hp & Hy).
  apply list_elem_of_bind in Hp as (px & Hp & Hx).
  apply elem_of_every_4th in Hx, Hy.
  destruct (Spec.foreground img px py).
  - apply list_elem_of_singleton in Hp as ->. cbn. lia.
  - apply elem_of_nil in Hp as [].
Qed.

Lemma detect_unaccepted_fill (img : ImageData) :
  well_formed img ->
  mul (div (of_Z 0) (of_Z (width img * height img))) c100 = zero.
Proof.
  intros (Hw & Hh & _ & Hlt). change (of_Z 0) with zero.
  rewrite div_zero_pos; [reflexivity|]. change (2 ^ prec) with (2 ^ 53). nia.
Qed.

(** The refinement of C4. *)
Lemma detectDocumentEdges_spec (img : ImageData) :
  well_formed img -> detectDocumentEdges img = Spec.boundary img.
Proof.
  intros Hwf. unfold detectDocumentEdges, Spec.boundary. cbv zeta.
  rewrite scan_samples by assumption.
  pose proof (elem_of_samples img) as Hin.
  destruct (Spec.samples img) as [|p pts].
  - cbn [foldl topLeft bottomRight edgeCount Spec.bounding_box].
    rewrite andb_false_r. rewrite detect_unaccepted_fill by assumption. reflexivity.
  - destruct (Hin p ltac:(apply list_elem_of_here)) as [Hx Hy].
    rewrite foldl_extend. cbn [topLeft bottomRight edgeCount x y Spec.bounding_box].
    cbn [fmap list_fmap foldr].
    rewrite <- !foldr_min_init, <- !foldr_max_init.
    rewrite (Z.min_l (x p)), (Z.min_l (y p)), (Z.max_l (x p)), (Z.max_l (y p)) by lia.
    unfold Spec.box_area. cbn [x y]. rewrite Z.add_0_l.
    rewrite (mul_comm c0_25). 
    match goal with |- context [gt ?a ?b && ?c] => destruct (gt a b && c) end.
    + rewrite (mul_comm c100). reflexivity.
    + rewrite detect_unaccepted_fill by assumption. reflexivity.
Qed.

(** C4.  In a frame the canvas hands out, a pixel is foreground in the
    binary mask exactly when its luma is at most 128; the detector returns
    what the specification describes: the bounding box of the foreground
    samples on every 4th pixel of both axes, accepted exactly when its area
    exceeds 25% of the frame area and there are more than 100 samples, with
    its four corners in the order top-left, top-right, bottom-right,
    bottom-left and the fill percentage 100 * (area / frame area), and no
    boundary and fill percentage 0 otherwise. *)
Theorem C4_document_boundary (img : ImageData) :
  well_formed img ->
  (forall px py, 0 <= px < width img -> 0 <= py < height img ->
     (get (binarize img) (py * width img + px) = Some 0
      <-> le (Spec.pixel_luma img px py) c128 = true))
  /\ detectDocumentEdges img = Spec.boundary img
  /\ (forall corners, (detectDocumentEdges img).1 = Some corners -> length corners = 4%nat).
Proof.
  intros Hwf. split; [|split].
  - intros px py Hpx Hpy. rewrite binary_foreground by assumption.
    unfold Spec.foreground. destruct (le (Spec.pixel_luma img px py) c128);
      split; congruence.
  - apply detectDocumentEdges_spec, Hwf.
  - intros corners. rewrite detectDocumentEdges_spec by assumption.
    unfold Spec.boundary. cbv zeta.
    destruct (Spec.bounding_box (Spec.samples img)) as [[tl br]|]; [|discriminate].
    match goal with |- context [gt ?a ?b && ?c] => destruct (gt a b && c) end;
      [|discriminate].
    cbn [fst]. intros [= <-]. reflexivity.
Qed.

Lemma C4_document_boundary_witness :
  let img := Examples.uniform 3 3 x80 x80 x80 in
  (forall px py, 0 <= px < width img -> 0 <= py < height img ->
     (get (binarize img) (py * width img + px) = Some 0
      <-> le (Spec.pixel_luma img px py) c128 = true))
  /\ detectDocumentEdges img = Spec.boundary img
  /\ (forall corners, (detectDocumentEdges img).1 = Some corners -> length corners = 4%nat).
Proof.
  apply (C4_document_boundary (Examples.uniform 3 3 x80 x80 x80)).
  unfold well_formed. cbn. lia.
Defined.

(** *** The fill percentage *)

Lemma foldr_min_bounds (lo a : Z) (l : list Z) :
  lo <= a -> Forall (fun v => lo <= v) l -> lo <= foldr Z.min a l <= a.
Proof.
  intros Ha Hl. induction Hl as [|v l Hv Hl IH]; cbn [foldr]; lia.
Qed.

Lemma foldr_max_bounds (hi a : Z) (l : list Z) :
  a <= hi -> Forall (fun v => v <= hi) l -> a <= foldr Z.max a l <= hi.
Proof.
  intros Ha Hl. induction Hl as [|v l Hv Hl IH]; cbn [foldr]; lia.
Qed.

(** The bounding box of the samples lies in the frame. *)
Lemma bounding_box_area (img : ImageData) (tl br : Point) :
  well_formed img ->
  Spec.bounding_box (Spec.samples img) = Some (tl, br) ->
  0 <= Spec.box_area tl br < width img * height img.
Proof.
  intros (Hw & Hh & _) Hbox. pose proof (elem_of_samples img) as Hin.
  destruct (Spec.samples img) as [|p ps]; [discriminate|].
  cbn [Spec.bounding_box] in Hbox. injection Hbox as <- <-.
  destruct (Hin p ltac:(apply list_elem_of_here)) as [Hx Hy].
  assert (Forall (fun v => 0 <= v) (x <$> ps) /\ Forall (fun v => v <= width img - 1) (x <$> ps)
          /\ Forall (fun v => 0 <= v) (y <$> ps) /\ Forall (fun v => v <= height img - 1) (y <$> ps))
    as (Hx0 & Hx1 & Hy0 & Hy1).
  { repeat split; apply Forall_fmap, Forall_forall; intros q Hq;
      destruct (Hin q ltac:(apply list_elem_of_further; exact Hq)); cbn; lia. }
  pose proof (foldr_min_bounds 0 (x p) _ ltac:(lia) Hx0).
  pose proof (foldr_min_bounds 0 (y p) _ ltac:(lia) Hy0).
  pose proof (foldr_max_bounds (width img - 1) (x p) _ ltac:(lia) Hx1).
  pose proof (foldr_max_bounds (height img - 1) (y p) _ ltac:(lia) Hy1).
  unfold Spec.box_area. cbn [x y]. nia.
Qed.

Lemma fillPercentage_checkQuality (img : ImageData) :
  fillPercentage (checkQuality img) = (detectDocumentEdges img).2.
Proof.
  unfold checkQuality. destruct (detectDocumentEdges img) as [corners fill]. reflexivity.
Qed.

(** C10.  The fill percentage of a scan quality is 0 or exceeds 25. *)
Theorem C10_fill_percentage_gap (img : ImageData) :
  well_formed img ->
  fillPercentage (checkQuality img) = zero
  \/ gt (fillPercentage (checkQuality img)) c25 = true.
Proof.
  intros Hwf. rewrite fillPercentage_checkQuality, detectDocumentEdges_spec by assumption.
  unfold Spec.boundary. cbv zeta.
  destruct (Spec.bounding_box (Spec.samples img)) as [[tl br]|] eqn:Hbox;
    [|left; reflexivity].
  pose proof (bounding_box_area img tl br Hwf Hbox) as Harea.
  destruct Hwf as (Hw & Hh & _ & Hlt).
  match goal with |- context [gt ?a ?b && ?c] => destruct (gt a b && c) eqn:Hacc end;
    [|left; reflexivity].
  right. cbn [snd]. apply andb_true_iff in Hacc as [Hgt _].
  assert (0 < width img * height img < 2 ^ 51) as Ht by (change (2 ^ 51) with 2251799813685248; nia).
  destruct (Z.eq_dec (Spec.box_area tl br) 0) as [H0|Hne].
  - exfalso. rewrite H0 in Hgt.
    destruct (of_Z_pos_normal (width img * height img)) as [HT HdT].
    { change (2 ^ prec) with 9007199254740992. change (2 ^ 51) with 2251799813685248 in Ht. lia. }
    rewrite HT, mul_quarter_normal in Hgt; [discriminate Hgt|exact HdT|].
    pose proof (Zdigits2_nonneg (width img * height img)).
    assert (Zdigits2 (width img * height img) <= 51) by (apply Zdigits2_le; lia).
    unfold prec. lia.
  - apply fill_above_25; [exact Ht| |exact Hgt].
    change (2 ^ prec) with 9007199254740992. change (2 ^ 51) with 2251799813685248 in Ht. lia.
Qed.

Lemma C10_fill_percentage_gap_witness :
  let img := Examples.uniform 3 3 x80 x80 x80 in
  fillPercentage (checkQuality img) = zero
  \/ gt (fillPercentage (checkQuality img)) c25 = true.
Proof.
  apply (C10_fill_percentage_gap (Examples.uniform 3 3 x80 x80 x80)).
  unfold well_formed. cbn. lia.
Defined.

(** *** A frame with an accepted boundary *)

(** The scan quality of the document example: a blur score of 160000, a
    box of area 800 in a frame of 1005 pixels. *)
Lemma document_scan_quality :
  checkQuality (Examples.checker 201 5) = Examples.document_quality.
Proof. vm_compute. reflexivity. Qed.

Lemma document_fill_percentage :
  (detectDocumentEdges (Examples.checker 201 5)).2
  = S754_finite false 5601492073843901 (-46)
  /\ gt (S754_finite false 5601492073843901 (-46)) c25 = true
  /\ gt (S754_finite false 5601492073843901 (-46)) c40 = true.
Proof.
  rewrite <- fillPercentage_checkQuality, document_scan_quality.
  repeat split.
Qed.

End Scanner.


(** ** The capture camera *)

Section Camera.

Import DocumentCaptureCamera.

Lemma truthy_canCapture (st : State) (q : ScanQuality) :
  scanQuality st = Some q ->
  truthy (canCapture st) = isSharp q && hasDocumentEdges q.
Proof.
  intros Hq. unfold canCapture. rewrite Hq. cbn.
  destruct (isSharp q), (hasDocumentEdges q); reflexivity.
Qed.

Lemma capture_permitted_spec (st : State) :
  capture_permitted st
  = negb (truthy_str (capturedImage st)) && truthy (canCapture st).
Proof.
  unfold capture_permitted, render_controls.
  destruct (truthy_str (capturedImage st)); cbn; [reflexivity|].
  destruct (truthy (canCapture st)); reflexivity.
Qed.

Lemma captureImage_truthy (v : Video) :
  truthy_str (Some (Scanner.captureImage v)) = true.
Proof. unfold Scanner.captureImage. destruct (frame v); reflexivity. Qed.

Lemma step_consistent (v : Video) (st : State) (ev : Event) :
  consistent st -> consistent (step v st ev).1.
Proof.
  unfold consistent, session, step. destruct st as [q c s i]; cbn.
  destruct s; intros [Hc Hi]; cbn in Hc, Hi; subst.
  - destruct ev as [|[]]; cbn; auto.
    + destruct (Scanner.checkQuality v); cbn; auto.
    + unfold on_click; cbn.
      match goal with |- context [truthy ?c] => destruct (truthy c) end; cbn; auto.
      split; [exact (captureImage_truthy v)|reflexivity].
  - destruct ev as [|[]]; cbn; auto;
      unfold on_click, render_controls, webcam_video, handleConfirm; cbn;
      rewrite ?Hc; cbn; auto.
    destruct c; cbn; auto.
Qed.

Lemma reachable_consistent (st : State) : reachable st -> consistent st.
Proof.
  induction 1 as [|v st ev _ IH]; [split; reflexivity|].
  now apply step_consistent.
Qed.

Lemma reachable_run (st : State) (evs : list (Video * Event)) :
  reachable st -> reachable (run st evs).1.
Proof.
  revert st. induction evs as [|[v ev] evs IH]; intros st Hst; [exact Hst|].
  cbn [run]. specialize (IH (step v st ev).1 (reachable_step v st ev Hst)).
  destruct (step v st ev) as [st1 out1]. cbn [fst] in IH.
  destruct (run st1 evs) as [st2 out2]. exact IH.
Qed.

(** A tick of the interval in the scanning state publishes the scan
    quality of the current frame, if there is one, and changes nothing
    else. *)
Lemma step_tick_scanning (v : Video) (st : State) :
  isScanning st = true -> capturedImage st = None -> interval st = Some 500 ->
  step v st Tick
  = ({| scanQuality := match Scanner.checkQuality v with
                       | Some q => Some q
                       | None => scanQuality st
                       end;
        capturedImage := None; isScanning := true; interval := Some 500 |}, []).
Proof.
  destruct st as [q c s i]; cbn. intros -> -> ->.
  unfold step, on_tick, webcam_video. cbn.
  destruct (Scanner.checkQuality v); reflexivity.
Qed.

Lemma run_ticks_scanning (vs : list Video) (v : Video) (img : ImageData) (st : State) :
  isScanning st = true -> capturedImage st = None -> interval st = Some 500 ->
  frame v = Some img ->
  run st ((fun v => (v, Tick)) <$> vs ++ [v])
  = ({| scanQuality := Some (DocumentScanner.checkQuality img); capturedImage := None;
        isScanning := true; interval := Some 500 |}, []).
Proof.
  intros Hs Hc Hi Hv. revert st Hs Hc Hi. induction vs as [|v0 vs IH]; intros st Hs Hc Hi.
  - cbn [app fmap list_fmap run]. rewrite (step_tick_scanning v st Hs Hc Hi).
    unfold Scanner.checkQuality. rewrite Hv. reflexivity.
  - cbn [app fmap list_fmap run]. rewrite (step_tick_scanning v0 st Hs Hc Hi).
    change (list_fmap _ _ (fun v1 => (v1, Tick)) (vs ++ [v]))
      with ((fun v1 => (v1, Tick)) <$> vs ++ [v]).
    rewrite IH by reflexivity. reflexivity.
Qed.

(** The handler itself has no gate: called with a video element at hand,
    it captures whatever the scan quality is.  The gate is the disabled
    flag of the button. *)
Lemma handleCapture_ungated (v : Video) (st : State) :
  capturedImage st = None ->
  handleCapture v st
  = ({| scanQuality := scanQuality st;
        capturedImage := Some (Scanner.captureImage v);
        isScanning := false; interval := interval st |},
     [CaptureImage (Scanner.captureImage v)]).
Proof. intros Hc. unfold handleCapture, webcam_video. rewrite Hc. reflexivity. Qed.

(** C1.  While the camera shows the live feed and [q] is the scan quality
    of the last evaluation cycle, the capture control is enabled if and
    only if [q] is sharp and has document edges; when exactly one of the
    two holds, it is disabled. *)
Theorem C1_capture_gating (st : State) (q : ScanQuality) :
  scanQuality st = Some q ->
  capturedImage st = None ->
  capture_permitted st = isSharp q && hasDocumentEdges q
  /\ (isSharp q = negb (hasDocumentEdges q) -> capture_permitted st = false).
Proof.
  intros Hq Hc. rewrite capture_permitted_spec, Hc, (truthy_canCapture st q Hq).
  cbn. split; [reflexivity|].
  intros ->. destruct (hasDocumentEdges q); reflexivity.
Qed.

Lemma C1_capture_gating_witness :
  let q := {| isSharp := true; blurScore := c128; hasDocumentEdges := false;
              documentCorners := None;
              qualityMessage := DocumentScanner.msg_position;
              fillPercentage := zero |} in
  let st := {| scanQuality := Some q; capturedImage := None;
               isScanning := true; interval := Some 500 |} in
  capture_permitted st = isSharp q && hasDocumentEdges q
  /\ (isSharp q = negb (hasDocumentEdges q) -> capture_permitted st = false).
Proof.
  intros q st. apply (C1_capture_gating st q); reflexivity.
Defined.

(** C7.  In the scanning state (every state the component reaches is
    consistent, see [reachable_consistent]), a click on the capture control while
    capture is not permitted changes nothing and produces no still; while
    capture is permitted it grabs one still from the video element, the
    session becomes captured, and the 500 ms interval is cleared. *)
Theorem C7_capture_transition (v : Video) (st : State) :
  consistent st ->
  session st = Scanning ->
  (capture_permitted st = false -> step v st (Click Capture) = (st, []))
  /\ (capture_permitted st = true ->
      exists st',
        step v st (Click Capture)
        = (st', [CaptureImage (Scanner.captureImage v); ClearInterval])
        /\ session st' = Captured
        /\ capturedImage st' = Some (Scanner.captureImage v)
        /\ interval st' = None).
Proof.
  intros Hc Hs.
  unfold consistent in Hc. rewrite Hs in Hc. destruct Hc as [Hc Hi].
  unfold session in Hs. destruct st as [q c s i]; cbn in *.
  destruct s; [clear Hs|discriminate Hs]. subst c i.
  unfold capture_permitted, step, on_click; cbn.
  match goal with |- context [truthy ?c] => destruct (truthy c) end; cbn.
  - split; [discriminate|]. intros _. eexists. split; [reflexivity|].
    cbn. auto.
  - split; [reflexivity|discriminate].
Qed.

Lemma C7_capture_transition_witness :
  (capture_permitted init = false ->
   step Examples.blank_video init (Click Capture) = (init, []))
  /\ (capture_permitted init = true ->
      exists st',
        step Examples.blank_video init (Click Capture)
        = (st', [CaptureImage (Scanner.captureImage Examples.blank_video);
                 ClearInterval])
        /\ session st' = Captured
        /\ capturedImage st' = Some (Scanner.captureImage Examples.blank_video)
        /\ interval st' = None).
Proof.
  apply (C7_capture_transition Examples.blank_video init);
    [split; reflexivity | reflexivity].
Defined.

(** C8.  In the captured state, a click on retake discards the still and
    returns to the scanning state with the interval set again; from then
    on every tick on a video that has a frame publishes the scan quality
    of that frame. *)
Theorem C8_retake_round_trip (v : Video) (st : State) :
  consistent st ->
  session st = Captured ->
  exists st',
    step v st (Click Retake) = (st', [SetInterval 500])
    /\ session st' = Scanning
    /\ capturedImage st' = None
    /\ interval st' = Some 500
    /\ forall (vs : list Video) (v' : Video) (img : ImageData),
         frame v' = Some img ->
         scanQuality (run st' ((fun v => (v, Tick)) <$> vs ++ [v'])).1
         = Some (DocumentScanner.checkQuality img).
Proof.
  intros Hc Hs.
  unfold consistent in Hc. rewrite Hs in Hc. destruct Hc as [Hc Hi].
  unfold session in Hs. destruct st as [q c s i]; cbn in *.
  destruct s; [discriminate Hs|clear Hs]. subst i.
  unfold step, on_click, render_controls; cbn. rewrite Hc; cbn.
  eexists. split; [reflexivity|]. cbn. repeat split.
  intros vs v' img Hv. rewrite (run_ticks_scanning vs v' img) by (reflexivity || exact Hv).
  reflexivity.
Qed.

Lemma C8_retake_round_trip_witness :
  let st := {| scanQuality := None;
               capturedImage := Some (Scanner.captureImage Examples.blank_video);
               isScanning := false; interval := None |} in
  exists st',
    step Examples.blank_video st (Click Retake) = (st', [SetInterval 500])
    /\ session st' = Scanning
    /\ capturedImage st' = None
    /\ interval st' = Some 500
    /\ forall (vs : list Video) (v' : Video) (img : ImageData),
         frame v' = Some img ->
         scanQuality (run st' ((fun v => (v, Tick)) <$> vs ++ [v'])).1
         = Some (DocumentScanner.checkQuality img).
Proof.
  intros st. apply (C8_retake_round_trip Examples.blank_video st);
    [split; reflexivity | reflexivity].
Defined.

(** A tick on a sharp, well-framed document enables the capture control,
    and a click on it then leads to the captured state: both branches of
    the gate are reached. *)
Lemma capture_permitted_reachable :
  let st := (step Examples.document_video init Tick).1 in
  reachable st /\ session st = Scanning /\ capture_permitted st = true
  /\ session (step Examples.document_video st (Click Capture)).1 = Captured.
Proof.
  cbv zeta. split; [apply reachable_step, reachable_init|].
  rewrite step_tick_scanning by reflexivity.
  unfold Scanner.checkQuality. cbn [Examples.document_video frame fmap option_fmap option_map].
  rewrite document_scan_quality. repeat split.
Qed.

End Camera.


(** * Further properties of the scanner *)

Section ScannerMore.

Import DocumentScanner.

(** ** The alpha channel *)

Lemma drop_alpha_lookup (k : nat) (c : nat) (d : list byte) :
  (c < 3)%nat ->
  drop_alpha d !! (3 * k + c)%nat = d !! (4 * k + c)%nat.
Proof.
  intros Hc. revert d. induction k as [|k IH]; intros d.
  - destruct d as [|r [|g [|b [|a d']]]]; try reflexivity.
    destruct c as [|[|[|c]]]; try reflexivity; lia.
  - destruct d as [|r [|g [|b [|a d']]]].
    + reflexivity.
    + cbn [drop_alpha]. rewrite !lookup_ge_None_2 by (cbn; lia). reflexivity.
    + cbn [drop_alpha]. rewrite !lookup_ge_None_2 by (cbn; lia). reflexivity.
    + cbn [drop_alpha]. rewrite !lookup_ge_None_2 by (cbn; lia). reflexivity.
    + cbn [drop_alpha].
      replace (3 * S k + c)%nat with (S (S (S (3 * k + c)))) by lia.
      replace (4 * S k + c)%nat with (S (S (S (S (4 * k + c))))) by lia.
      cbn [lookup list_lookup]. apply IH.
Qed.

Lemma drop_alpha_get (d d' : list byte) (k c : Z) :
  drop_alpha d = drop_alpha d' -> 0 <= k -> 0 <= c < 3 ->
  get d (4 * k + c) = get d' (4 * k + c).
Proof.
  intros Heq Hk Hc. unfold get.
  destruct (Z.ltb_spec (4 * k + c) 0); [lia|].
  replace (Z.to_nat (4 * k + c)) with (4 * Z.to_nat k + Z.to_nat c)%nat by lia.
  rewrite <- !drop_alpha_lookup by lia. rewrite Heq. reflexivity.
Qed.

Lemma drop_alpha_luma (d d' : list byte) (i : Z) :
  drop_alpha d = drop_alpha d' ->
  i ∈ stride 0 (Z.of_nat (length d)) 4 ->
  luma d i = luma d' i.
Proof.
  intros Heq Hi. apply elem_of_stride in Hi as (k & Hk & -> & _); [|lia].
  unfold luma, channel.
  replace (0 + 4 * k) with (4 * k + 0) by lia.
  rewrite <- !Z.add_assoc. change (0 + 1) with 1. change (0 + 2) with 2.
  rewrite (drop_alpha_get d d' k 0), (drop_alpha_get d d' k 1),
    (drop_alpha_get d d' k 2) by (try assumption; lia).
  reflexivity.
Qed.

Lemma drop_alpha_grayscale (a b : ImageData) :
  width a = width b -> height a = height b ->
  length (data a) = length (data b) ->
  drop_alpha (data a) = drop_alpha (data b) ->
  grayscale a = grayscale b /\ binarize a = binarize b.
Proof.
  intros Hw Hh Hlen Heq. unfold grayscale, binarize.
  rewrite !for_loop_foldl by lia. rewrite <- Hw, <- Hh, <- Hlen. split.
  - apply foldl_ext_in. intros gray i Hi.
    rewrite (drop_alpha_luma _ _ i Heq Hi). reflexivity.
  - apply foldl_ext_in. intros binary i Hi. cbv zeta.
    rewrite (drop_alpha_luma _ _ i Heq Hi). reflexivity.
Qed.

(** X1.  [checkQuality] reads the red, green and blue channels only: two
    frames of the same size that differ in their alpha channel at most
    get the same scan quality. *)
Theorem X1_alpha_ignored (a b : ImageData) :
  width a = width b -> height a = height b ->
  length (data a) = length (data b) ->
  drop_alpha (data a) = drop_alpha (data b) ->
  checkQuality a = checkQuality b.
Proof.
  intros Hw Hh Hlen Heq.
  destruct (drop_alpha_grayscale a b Hw Hh Hlen Heq) as [Hg Hb].
  unfold checkQuality, calculateBlurScore, detectDocumentEdges.
  rewrite Hg, Hb, Hw, Hh. reflexivity.
Qed.

Lemma X1_alpha_ignored_witness :
  checkQuality {| data := [x10; x20; x30; xff; x40; x50; x60; xff]; width := 2; height := 1 |}
  = checkQuality {| data := [x10; x20; x30; x00; x40; x50; x60; x7f]; width := 2; height := 1 |}.
Proof.
  apply X1_alpha_ignored; reflexivity.
Defined.

(** ** Frames without a boundary *)

Lemma checkQuality_no_boundary (img : ImageData) :
  detectDocumentEdges img = (None, zero) ->
  documentCorners (checkQuality img) = None
  /\ fillPercentage (checkQuality img) = zero
  /\ hasDocumentEdges (checkQuality img) = false
  /\ qualityMessage (checkQuality img) = msg_position.
Proof.
  intros H. unfold checkQuality. rewrite H. cbn. auto.
Qed.

Lemma length_bind_le {A B : Type} (f : A -> list B) (l : list A) (n : nat) :
  (forall a, a ∈ l -> (length (f a) <= n)%nat) ->
  (length (l ≫= f) <= length l * n)%nat.
Proof.
  induction l as [|a l IH]; intros Hf; [cbn; lia|].
  cbn [mbind list_bind length]. rewrite length_app.
  specialize (IH ltac:(intros b Hb; apply Hf; right; exact Hb)).
  specialize (Hf a ltac:(left)). cbn [list_bind] in *. lia.
Qed.

Lemma length_every_4th (n : Z) :
  0 <= n -> Z.of_nat (length (Spec.every_4th n)) = (n + 3) / 4.
Proof.
  intros Hn. unfold Spec.every_4th. rewrite length_fmap, length_seqZ.
  apply Z2Nat.id. apply Z.div_pos; lia.
Qed.

Lemma length_samples (img : ImageData) :
  well_formed img ->
  Z.of_nat (length (Spec.samples img)) <= grid_size (width img) (height img).
Proof.
  intros (Hw & Hh & _). unfold Spec.samples, grid_size.
  rewrite <- (length_every_4th (width img)), <- (length_every_4th (height img)) by lia.
  rewrite Z.mul_comm, <- Nat2Z.inj_mul. apply Nat2Z.inj_le.
  apply length_bind_le. intros py _.
  etransitivity; [apply (length_bind_le _ _ 1%nat)|lia].
  intros px _. destruct (Spec.foreground img px py); cbn; lia.
Qed.

(** X2.  The scan needs more than 100 foreground samples: a frame that has no
    more than 100 sample points, such as any frame of up to 40 x 40 pixels,
    never has a boundary; its fill percentage is 0 and the guidance is the
    "position document" text, whatever the frame shows. *)
Theorem X2_small_frame_no_boundary (img : ImageData) :
  well_formed img ->
  grid_size (width img) (height img) <= 100 ->
  detectDocumentEdges img = (None, zero)
  /\ documentCorners (checkQuality img) = None
  /\ fillPercentage (checkQuality img) = zero
  /\ hasDocumentEdges (checkQuality img) = false
  /\ qualityMessage (checkQuality img) = msg_position.
Proof.
  intros Hwf Hgrid.
  assert (detectDocumentEdges img = (None, zero)) as H.
  { rewrite detectDocumentEdges_spec by assumption. unfold Spec.boundary. cbv zeta.
    pose proof (length_samples img Hwf) as Hlen.
    destruct (Spec.bounding_box (Spec.samples img)) as [[tl br]|]; [|reflexivity].
    destruct (Z.ltb_spec 100 (Z.of_nat (length (Spec.samples img)))); [lia|].
    rewrite andb_false_r. reflexivity. }
  split; [exact H|]. apply checkQuality_no_boundary, H.
Qed.

Lemma X2_small_frame_no_boundary_witness :
  let img := Examples.checker 8 8 in
  detectDocumentEdges img = (None, zero)
  /\ documentCorners (checkQuality img) = None
  /\ fillPercentage (checkQuality img) = zero
  /\ hasDocumentEdges (checkQuality img) = false
  /\ qualityMessage (checkQuality img) = msg_position.
Proof.
  apply (X2_small_frame_no_boundary (Examples.checker 8 8)).
  - unfold well_formed. repeat split; vm_compute; congruence.
  - vm_compute. congruence.
Defined.

Lemma bind_nil_all {A B : Type} (f : A -> list B) (l : list A) :
  (forall a, a ∈ l -> f a = []) -> l ≫= f = [].
Proof.
  induction l as [|a l IH]; intros Hf; [reflexivity|].
  cbn [mbind list_bind]. rewrite (Hf a) by left.
  apply IH. intros b Hb. apply Hf. right. exact Hb.
Qed.

Lemma bright_not_foreground (img : ImageData) (px py : Z) :
  well_formed img ->
  0 <= px < width img -> 0 <= py < height img ->
  gt (luma (data img) (4 * (py * width img + px))) c128 = true ->
  Spec.foreground img px py = false.
Proof.
  intros Hwf Hx Hy. rewrite luma_pixel. unfold Spec.foreground.
  pose proof (pixel_luma_shape img px py Hwf Hx Hy) as Hs.
  rewrite gt_negb_le; [|exact (zero_or_normal_not_nan _ _ _ Hs)|discriminate].
  destruct (le (Spec.pixel_luma img px py) c128); [discriminate|reflexivity].
Qed.

(** A quarter of the frame area is below the frame area. *)
Lemma area_above_quarter (t : Z) :
  0 < t < 2 ^ 51 -> gt (of_Z t) (mul (of_Z t) c0_25) = true.
Proof.
  intros Ht. change (2 ^ 51) with 2251799813685248 in Ht.
  assert (0 < t < 2 ^ prec) as Ht' by (change (2 ^ prec) with 9007199254740992; lia).
  destruct (of_Z_pos_normal t Ht') as [-> Hd].
  assert (0 < Zdigits2 t <= prec) as Hdt.
  { split; [apply Zdigits2_pos; lia|].
    apply Zdigits2_le; [lia|unfold prec; lia|lia]. }
  rewrite mul_comm, mul_quarter_normal by (try assumption; unfold prec in *; lia).
  unfold gt. apply SFltb_finite. left. lia.
Qed.

(** X3.  A frame all of whose pixels are bright (luma above 128) has no
    foreground sample.  The scan ends in its initial state, with the box
    turned inside out from (W, H) to (0, 0); the area of that box is the
    whole frame and passes the area test, and it is the count of samples
    that rejects it: no boundary, fill percentage 0. *)
Theorem X3_bright_frame (img : ImageData) :
  well_formed img ->
  (forall px py, 0 <= px < width img -> 0 <= py < height img ->
     gt (luma (data img) (4 * (py * width img + px))) c128 = true) ->
  let s := scan (binarize img) (width img) (height img) in
  let area := (x (bottomRight s) - x (topLeft s)) * (y (bottomRight s) - y (topLeft s)) in
  edgeCount s = 0
  /\ area = width img * height img
  /\ gt (of_Z area) (mul (of_Z (width img * height img)) c0_25) = true
  /\ detectDocumentEdges img = (None, zero)
  /\ qualityMessage (checkQuality img) = msg_position.
Proof.
  intros Hwf Hbright.
  assert (Spec.samples img = []) as Hnil.
  { unfold Spec.samples. apply bind_nil_all. intros py Hy.
    apply bind_nil_all. intros px Hx.
    apply elem_of_every_4th in Hx, Hy.
    rewrite bright_not_foreground; auto. }
  cbv zeta. rewrite scan_samples, Hnil by assumption. cbn.
  destruct Hwf as (Hw & Hh & Hlen & Hbound).
  assert (0 < width img * height img < 2 ^ 51) as Ht by lia.
  assert (detectDocumentEdges img = (None, zero)) as H.
  { rewrite detectDocumentEdges_spec by (repeat split; assumption).
    unfold Spec.boundary. rewrite Hnil. reflexivity. }
  split; [reflexivity|]. split; [lia|]. split.
  - replace ((0 - width img) * (0 - height img)) with (width img * height img) by lia.
    apply area_above_quarter, Ht.
  - split; [exact H|]. apply checkQuality_no_boundary, H.
Qed.

Lemma X3_bright_frame_witness :
  let img := Examples.uniform 3 3 xff xff xff in
  let s := scan (binarize img) (width img) (height img) in
  let area := (x (bottomRight s) - x (topLeft s)) * (y (bottomRight s) - y (topLeft s)) in
  edgeCount s = 0
  /\ area = width img * height img
  /\ gt (of_Z area) (mul (of_Z (width img * height img)) c0_25) = true
  /\ detectDocumentEdges img = (None, zero)
  /\ qualityMessage (checkQuality img) = msg_position.
Proof.
  apply (X3_bright_frame (Examples.uniform 3 3 xff xff xff)).
  - unfold well_formed. cbn. lia.
  - intros px py Hx Hy. cbn in Hx, Hy.
    assert (px = 0 \/ px = 1 \/ px = 2) as Hpx by lia.
    assert (py = 0 \/ py = 1 \/ py = 2) as Hpy by lia.
    destruct Hpx as [->|[->| ->]], Hpy as [->|[->| ->]]; vm_compute; reflexivity.
Defined.

(** ** The corners of an accepted box *)

Lemma foldr_select (P : Z -> Prop) (op : Z -> Z -> Z) (a : Z) (l : list Z) :
  (forall u v, op u v = u \/ op u v = v) ->
  P a -> Forall P l -> P (foldr op a l).
Proof.
  intros Hop Ha Hl. induction Hl as [|v l Hv _ IH]; [exact Ha|].
  cbn [foldr]. destruct (Hop v (foldr op a l)) as [-> | ->]; assumption.
Qed.

Lemma min_select (u v : Z) : Z.min u v = u \/ Z.min u v = v.
Proof. lia. Qed.

Lemma max_select (u v : Z) : Z.max u v = u \/ Z.max u v = v.
Proof. lia. Qed.

Lemma elem_of_every_4th_mod (j n : Z) : j ∈ Spec.every_4th n -> j mod 4 = 0.
Proof.
  unfold Spec.every_4th. rewrite list_elem_of_fmap. intros (k & -> & _).
  rewrite Z.mul_comm. apply Z.mod_mul. lia.
Qed.

Lemma elem_of_samples_grid (img : ImageData) (p : Point) :
  p ∈ Spec.samples img ->
  (0 <= x p < width img /\ x p mod 4 = 0) /\ (0 <= y p < height img /\ y p mod 4 = 0).
Proof.
  intros Hp. pose proof (elem_of_samples img p Hp) as [Hx Hy].
  unfold Spec.samples in Hp. apply list_elem_of_bind in Hp as (py & Hp & Hpy).
  apply list_elem_of_bind in Hp as (px & Hp & Hpx).
  apply elem_of_every_4th_mod in Hpx, Hpy.
  destruct (Spec.foreground img px py).
  - apply list_elem_of_singleton in Hp as ->. cbn in *. auto.
  - apply elem_of_nil in Hp as [].
Qed.

Lemma documentCorners_checkQuality (img : ImageData) :
  documentCorners (checkQuality img) = (detectDocumentEdges img).1.
Proof.
  unfold checkQuality. destruct (detectDocumentEdges img) as [corners fill]. reflexivity.
Qed.

Lemma zero_not_above_quarter (t : Z) :
  0 < t < 2 ^ 51 -> gt (of_Z 0) (mul c0_25 (of_Z t)) = false.
Proof.
  intros Ht. change (2 ^ 51) with 2251799813685248 in Ht.
  assert (0 < t < 2 ^ prec) as Ht' by (change (2 ^ prec) with 9007199254740992; lia).
  destruct (of_Z_pos_normal t Ht') as [-> Hd].
  assert (0 < Zdigits2 t <= prec) as Hdt.
  { split; [apply Zdigits2_pos; lia|].
    apply Zdigits2_le; [lia|unfold prec; lia|lia]. }
  rewrite mul_quarter_normal by (try assumption; unfold prec in *; lia).
  reflexivity.
Qed.

(** X4.  The corners of a found boundary are the corners of a proper
    rectangle inside the frame, from the top-left corner clockwise; the
    coordinates are those of sampled pixels, multiples of 4, and the box
    has at least 4 pixels between its sides in both directions. *)
Theorem X4_corner_geometry (img : ImageData) (corners : list Point) :
  well_formed img ->
  documentCorners (checkQuality img) = Some corners ->
  exists tl br,
    corners = [tl; {| x := x br; y := y tl |}; br; {| x := x tl; y := y br |}]
    /\ 0 <= x tl /\ x tl + 4 <= x br /\ x br < width img
    /\ 0 <= y tl /\ y tl + 4 <= y br /\ y br < height img
    /\ x tl mod 4 = 0 /\ x br mod 4 = 0 /\ y tl mod 4 = 0 /\ y br mod 4 = 0.
Proof.
  intros Hwf. rewrite documentCorners_checkQuality, detectDocumentEdges_spec by assumption.
  unfold Spec.boundary. cbv zeta.
  pose proof (elem_of_samples_grid img) as Hin.
  destruct (Spec.samples img) as [|p ps] eqn:Hs; [discriminate|].
  cbn [Spec.bounding_box].
  set (tl := {| x := foldr Z.min (x p) (x <$> ps); y := foldr Z.min (y p) (y <$> ps) |}).
  set (br := {| x := foldr Z.max (x p) (x <$> ps); y := foldr Z.max (y p) (y <$> ps) |}).
  destruct (gt (of_Z (Spec.box_area tl br)) (mul c0_25 (of_Z (width img * height img))))
    eqn:Harea; [|discriminate].
  destruct (100 <? Z.of_nat (length (p :: ps))); [|discriminate].
  cbn [andb fst]. intros [= <-]. exists tl, br. split; [reflexivity|].
  destruct (Hin p ltac:(left)) as [Hpx Hpy].
  assert (Forall (fun v => 0 <= v < width img /\ v mod 4 = 0) (x <$> ps)
          /\ Forall (fun v => 0 <= v < height img /\ v mod 4 = 0) (y <$> ps))
    as [Hxs Hys].
  { split; apply Forall_fmap, Forall_forall; intros q Hq;
      destruct (Hin q ltac:(right; exact Hq)); assumption. }
  pose proof (foldr_select _ Z.min (x p) _ min_select Hpx Hxs) as Hx1.
  pose proof (foldr_select _ Z.max (x p) _ max_select Hpx Hxs) as Hx2.
  pose proof (foldr_select _ Z.min (y p) _ min_select Hpy Hys) as Hy1.
  pose proof (foldr_select _ Z.max (y p) _ max_select Hpy Hys) as Hy2.
  assert (x tl <= x p <= x br /\ y tl <= y p <= y br) as [Hxo Hyo].
  { unfold tl, br. cbn [x y].
    pose proof (foldr_min_bounds 0 (x p) (x <$> ps) ltac:(lia)
                  ltac:(eapply Forall_impl; [exact Hxs|cbn; lia])).
    pose proof (foldr_min_bounds 0 (y p) (y <$> ps) ltac:(lia)
                  ltac:(eapply Forall_impl; [exact Hys|cbn; lia])).
    pose proof (foldr_max_bounds (width img) (x p) (x <$> ps) ltac:(lia)
                  ltac:(eapply Forall_impl; [exact Hxs|cbn; lia])).
    pose proof (foldr_max_bounds (height img) (y p) (y <$> ps) ltac:(lia)
                  ltac:(eapply Forall_impl; [exact Hys|cbn; lia])).
    lia. }
  assert (Spec.box_area tl br <> 0) as Hne.
  { intros H0. rewrite H0, zero_not_above_quarter in Harea; [discriminate|].
    destruct Hwf as (? & ? & ? & ?). lia. }
  unfold Spec.box_area in Hne.
  change (foldr Z.min (x p) (x <$> ps)) with (x tl) in Hx1.
  change (foldr Z.max (x p) (x <$> ps)) with (x br) in Hx2.
  change (foldr Z.min (y p) (y <$> ps)) with (y tl) in Hy1.
  change (foldr Z.max (y p) (y <$> ps)) with (y br) in Hy2.
  assert (x tl <> x br /\ y tl <> y br) as [Hxne Hyne] by nia.
  destruct Hx1 as [Hx1 Hx1m], Hx2 as [Hx2 Hx2m], Hy1 as [Hy1 Hy1m], Hy2 as [Hy2 Hy2m].
  assert (forall u v, u mod 4 = 0 -> v mod 4 = 0 -> u <= v -> u <> v -> u + 4 <= v) as Hstep.
  { intros u v Hu Hv Hle Hneq.
    pose proof (Z.div_mod u 4 ltac:(lia)). pose proof (Z.div_mod v 4 ltac:(lia)). lia. }
  repeat split; try assumption; try lia.
  - apply Hstep; try assumption; lia.
  - apply Hstep; try assumption; lia.
Qed.

Lemma X4_corner_geometry_witness :
  exists tl br,
    [{| x := 0; y := 0 |}; {| x := 200; y := 0 |}; {| x := 200; y := 4 |}; {| x := 0; y := 4 |}]
    = [tl; {| x := x br; y := y tl |}; br; {| x := x tl; y := y br |}]
    /\ 0 <= x tl /\ x tl + 4 <= x br /\ x br < width (Examples.checker 201 5)
    /\ 0 <= y tl /\ y tl + 4 <= y br /\ y br < height (Examples.checker 201 5)
    /\ x tl mod 4 = 0 /\ x br mod 4 = 0 /\ y tl mod 4 = 0 /\ y br mod 4 = 0.
Proof.
  apply (X4_corner_geometry (Examples.checker 201 5)).
  - unfold well_formed. repeat split; vm_compute; congruence.
  - rewrite document_scan_quality. reflexivity.
Defined.

(** ** The guidance and the gate *)

(** X5.  The guidance text tells what the gate decides: it is the "ready"
    text exactly when the frame is sharp and has document edges, the
    "blurry" text exactly when it has document edges and is not sharp, and
    the "position document" text exactly when it has no document edges. *)
Theorem X5_guidance_matches_gate (img : ImageData) :
  let q := checkQuality img in
  (qualityMessage q = msg_ready <-> isSharp q && hasDocumentEdges q = true)
  /\ (qualityMessage q = msg_blurry <-> hasDocumentEdges q = true /\ isSharp q = false)
  /\ (qualityMessage q = msg_position <-> hasDocumentEdges q = false).
Proof.
  cbv zeta. unfold checkQuality. destruct (detectDocumentEdges img) as [corners fill].
  cbn [qualityMessage isSharp hasDocumentEdges].
  destruct (is_some corners); cbn [andb negb].
  - destruct (gt fill c40) eqn:Hgt; cbn [negb].
    + rewrite (gt_not_lt _ _ Hgt).
      destruct (gt (calculateBlurScore img) c100); cbn;
        repeat split; try discriminate; try reflexivity; intros H;
        try discriminate; try (destruct H; discriminate).
    + destruct (gt (calculateBlurScore img) c100); cbn;
        repeat split; try discriminate; try reflexivity; intros H;
        try discriminate; try (destruct H; discriminate).
  - destruct (gt (calculateBlurScore img) c100); cbn;
      repeat split; try discriminate; try reflexivity; intros H;
      try discriminate; try (destruct H; discriminate).
Qed.

End ScannerMore.


(** ** The sign of a rounded number *)

Section Sign.

Variables prec emax : Z.

(** Rounding a mantissa that is not negative gives a zero, a number or an
    infinity of the given sign, and never NaN. *)
Lemma binary_round_aux_sign (sx : bool) (mx ex : Z) (lx : location) :
  0 <= mx ->
  binary_round_aux prec emax sx mx ex lx = S754_zero sx
  \/ binary_round_aux prec emax sx mx ex lx = S754_infinity sx
  \/ exists m e, binary_round_aux prec emax sx mx ex lx = S754_finite sx m e.
Proof.
  intros Hmx. unfold binary_round_aux.
  destruct (shr_fexp_spec prec emax mx ex lx Hmx) as (r1 & -> & Hr1 & _).
  set (e1 := Z.max ex (SpecFloat.fexp prec emax (Zdigits2 mx + ex))) in *.
  assert (0 < 2 ^ (e1 - ex)) by (apply Z.pow_pos_nonneg; unfold e1; lia).
  assert (0 <= shr_m r1) as H1 by (rewrite Hr1; apply Z.div_pos; lia).
  pose proof (round_nearest_even_bounds (shr_m r1) (loc_of_shr_record r1)) as Hb.
  set (m2 := round_nearest_even (shr_m r1) (loc_of_shr_record r1)) in *.
  destruct (shr_fexp_spec prec emax m2 e1 loc_Exact ltac:(lia)) as (r2 & -> & Hr2 & _).
  set (e2 := Z.max e1 (SpecFloat.fexp prec emax (Zdigits2 m2 + e1))) in *.
  assert (0 < 2 ^ (e2 - e1)) by (apply Z.pow_pos_nonneg; unfold e2; lia).
  assert (0 <= shr_m r2) as H2 by (rewrite Hr2; apply Z.div_pos; lia).
  destruct (shr_m r2) as [|m|m]; [left; reflexivity| |lia].
  right. destruct (e2 <=? emax - prec); [right; eauto|left; reflexivity].
Qed.

Lemma binary_round_sign (sx : bool) (mx : positive) (ex : Z) :
  binary_round prec emax sx mx ex = S754_zero sx
  \/ binary_round prec emax sx mx ex = S754_infinity sx
  \/ exists m e, binary_round prec emax sx mx ex = S754_finite sx m e.
Proof.
  unfold binary_round.
  destruct (shl_align mx ex _) as [mz ez].
  apply binary_round_aux_sign. lia.
Qed.

End Sign.

Lemma nonnegative_round (x : number) :
  x = S754_zero false \/ x = S754_infinity false
  \/ (exists m e, x = S754_finite false m e) ->
  nonnegative x = true.
Proof. intros [->|[->|(m & e & ->)]]; reflexivity. Qed.

(** The sum of two numbers that are not negative is not negative. *)
Lemma add_nonnegative (a b : number) :
  nonnegative a = true -> nonnegative b = true -> nonnegative (add a b) = true.
Proof.
  destruct a as [[]|[]| |[] ma ea], b as [[]|[]| |[] mb eb]; try discriminate;
    intros _ _; try reflexivity.
  unfold add. rewrite SFadd_finite. cbn [cond_Zopp].
  match goal with |- context [binary_normalize _ _ ?z _ _] =>
    assert (0 < z) as Hz end.
  { assert (0 < 2 ^ (ea - Z.min ea eb)) by (apply Z.pow_pos_nonneg; lia).
    assert (0 < 2 ^ (eb - Z.min ea eb)) by (apply Z.pow_pos_nonneg; lia). nia. }
  match goal with |- context [binary_normalize _ _ ?z _ _] => destruct z as [|p|p] end;
    try lia.
  cbn [binary_normalize]. apply nonnegative_round, (binary_round_sign prec emax).
Qed.

(** A square is not negative, unless it is NaN. *)
Lemma square_nonnegative (a : number) : a <> NaN -> nonnegative (mul a a) = true.
Proof.
  unfold NaN. destruct a as [[]|[]| |s m e]; try congruence; intros _; try reflexivity.
  unfold mul. cbn [SFmul]. rewrite xorb_nilpotent.
  apply nonnegative_round, (binary_round_aux_sign prec emax). lia.
Qed.

(** A number that is not negative, divided by a positive number. *)
Lemma div_nonnegative (a : number) (m : positive) (e : Z) :
  nonnegative a = true -> nonnegative (div a (S754_finite false m e)) = true.
Proof.
  destruct a as [[]|[]| |[] ma ea]; try discriminate; intros _; try reflexivity.
  unfold div. cbn [SFdiv xorb].
  destruct (SFdiv_core_binary prec emax (Z.pos ma) ea (Z.pos m) e) as [[mz ez] lz] eqn:Hcore.
  apply nonnegative_round, (binary_round_aux_sign prec emax).
  unfold SFdiv_core_binary in Hcore.
  match type of Hcore with context [Z.div_eucl ?u ?v] =>
    assert (0 <= u) as Hu; [|pose proof (Z.div_pos u v Hu ltac:(lia)) as Hq;
      unfold Z.div in Hq; destruct (Z.div_eucl u v) as [q r]] end.
  - match goal with |- 0 <= match ?s with _ => _ end => destruct s end; try lia.
    apply Z.shiftl_nonneg. lia.
  - injection Hcore as <- _ _. exact Hq.
Qed.

(** A number that is not negative is not below zero in the order of the
    source, and it is not NaN. *)
Lemma nonnegative_le (a : number) : nonnegative a = true -> le zero a = true /\ a <> NaN.
Proof. destruct a as [[]|[]| |[] m e]; try discriminate; intros _; split; easy. Qed.

(** ** Exact arithmetic on gray values *)

Lemma multiple_of_not_nan (e B : Z) (x : number) :
  -1022 <= e <= 971 -> B <= 2 ^ prec -> multiple_of e B x -> x <> NaN.
Proof.
  intros He HB [[s ->]|(a & Ha & Hlt & ->)]; [discriminate|].
  rewrite scaled_small by lia. discriminate.
Qed.

Lemma neg_multiple (e B : Z) (x : number) :
  -1022 <= e <= 971 -> B <= 2 ^ prec ->
  multiple_of e B x -> multiple_of e B (neg x).
Proof.
  intros He HB [[s ->]|(a & Ha & Hlt & ->)].
  - left. exists (negb s). reflexivity.
  - right. exists (- a). rewrite neg_scaled by lia. repeat split; lia.
Qed.

Lemma add_multiple (e B1 B2 : Z) (x y : number) :
  -1022 <= e <= 971 -> 0 <= B1 -> 0 <= B2 -> B1 + B2 <= 2 ^ prec ->
  multiple_of e B1 x -> multiple_of e B2 y -> multiple_of e (B1 + B2) (add x y).
Proof.
  intros He H1 H2 HB [[s ->]|(a & Ha & Hlta & ->)] [[t ->]|(b & Hb & Hltb & ->)].
  - left. destruct s, t; eexists; reflexivity.
  - right. exists b. repeat split; [assumption|lia|].
    rewrite scaled_small by lia. reflexivity.
  - right. exists a. repeat split; [assumption|lia|].
    rewrite scaled_small by lia. reflexivity.
  - rewrite add_scaled by lia.
    destruct (Z.eq_dec (a + b) 0) as [->|Hne].
    + left. exists false. apply scaled_zero.
    + right. exists (a + b). repeat split; [assumption|lia].
Qed.

Lemma sub_multiple (e B1 B2 : Z) (x y : number) :
  -1022 <= e <= 971 -> 0 <= B1 -> 0 <= B2 -> B1 + B2 <= 2 ^ prec ->
  multiple_of e B1 x -> multiple_of e B2 y -> multiple_of e (B1 + B2) (sub x y).
Proof.
  intros He H1 H2 HB Hx Hy. rewrite sub_add_neg.
  apply add_multiple; try assumption. apply neg_multiple; [assumption|lia|assumption].
Qed.

Lemma mul8_multiple (e B : Z) (x : number) :
  -1000 <= e <= 900 -> 8 * B <= 2 ^ prec ->
  multiple_of e B x -> multiple_of e (8 * B) (mul c8 x).
Proof.
  intros He HB [[s ->]|(a & Ha & Hlt & ->)].
  - left. exists s. reflexivity.
  - right. exists (a * 8).
    rewrite c8_pow2, (mul_pow2_scaled false 3 a e) by (change (2 ^ 3) with 8; lia).
    repeat split; lia.
Qed.

(** The Laplacian of nine such values is computed without rounding. *)
Lemma laplacian9_multiple (e B : Z) (a b c d m f g h i : number) :
  -1000 <= e <= 900 -> 0 <= B -> 16 * B <= 2 ^ prec ->
  multiple_of e B a -> multiple_of e B b -> multiple_of e B c ->
  multiple_of e B d -> multiple_of e B m -> multiple_of e B f ->
  multiple_of e B g -> multiple_of e B h -> multiple_of e B i ->
  multiple_of e (16 * B) (laplacian9 a b c d m f g h i).
Proof.
  intros He HB0 HB Ha Hb Hc Hd Hm Hf Hg Hh Hi. unfold laplacian9.
  replace (16 * B) with (B + B + B + B + 8 * B + B + B + B + B) by lia.
  repeat (apply sub_multiple; [lia|lia|lia|lia| |assumption]).
  apply add_multiple; [lia|lia|lia|lia| |apply mul8_multiple; [lia|lia|assumption]].
  repeat (apply sub_multiple; [lia|lia|lia|lia| |assumption]).
  apply neg_multiple; [lia|lia|assumption].
Qed.

Section BlurScore.

Import DocumentScanner.

(** The gray values are integer multiples of [2 ^ -31] below [2 ^ 18]. *)
Lemma stored_luminance_multiple (img : ImageData) (px py : Z) :
  well_formed img ->
  0 <= px < width img -> 0 <= py < height img ->
  multiple_of (-31) (2 ^ 49) (stored_luminance img px py).
Proof.
  intros Hwf Hpx Hpy. unfold stored_luminance.
  destruct (pixel_luma_shape img px py Hwf Hpx Hpy) as [->|Hn].
  - left. exists false. reflexivity.
  - destruct (fround_normal (-60) (-36) _ ltac:(lia) ltac:(lia) Hn)
      as (M & E & -> & HM & HE).
    right. exists (Z.pos M * 2 ^ (E + 31)).
    assert (0 < 2 ^ (E + 31) <= 2 ^ 25) as Hp.
    { split; [apply Z.pow_pos_nonneg; lia|apply Z.pow_le_mono_r; lia]. }
    change (2 ^ 24) with 16777216 in HM. change (2 ^ 25) with 33554432 in Hp.
    change (2 ^ 49) with 562949953421312.
    split; [nia|]. split; [nia|].
    unfold scaled. replace (-31) with (E - (E + 31)) by lia.
    rewrite (binary_normalize_scale prec emax prec_pos); [reflexivity|lia| |].
    + change (2 ^ prec) with 9007199254740992. lia.
    + unfold SpecFloat.emin, prec, emax. lia.
Qed.

Lemma response_not_nan (img : ImageData) (px py : Z) :
  well_formed img ->
  1 <= px < width img - 1 -> 1 <= py < height img - 1 ->
  Spec.response (stored_luminance img) px py <> NaN.
Proof.
  intros Hwf Hpx Hpy.
  rewrite <- laplacian_response, laplacian_field by assumption. cbv zeta.
  apply (multiple_of_not_nan (-31) (16 * 2 ^ 49)); [lia|reflexivity|].
  apply laplacian9_multiple; [lia|lia|reflexivity|..];
    apply stored_luminance_multiple; (assumption || lia).
Qed.

Lemma blurScore_checkQuality (img : ImageData) :
  blurScore (checkQuality img) = calculateBlurScore img
  /\ isSharp (checkQuality img) = gt (calculateBlurScore img) c100.
Proof.
  unfold checkQuality. destruct (detectDocumentEdges img) as [corners fill].
  split; reflexivity.
Qed.

(** X6.  On a frame of at least 3 x 3 pixels the blur score is never NaN and
    never negative, so that the degenerate score NaN is confined to frames
    below that size; and the frame is sharp exactly when its score is not
    at most 100. *)
Theorem X6_blur_score_nonnegative (img : ImageData) :
  well_formed img ->
  3 <= width img -> 3 <= height img ->
  let q := checkQuality img in
  nonnegative (blurScore q) = true
  /\ blurScore q <> NaN
  /\ le zero (blurScore q) = true
  /\ isSharp q = negb (le (blurScore q) c100).
Proof.
  intros Hwf Hw Hh. cbv zeta.
  destruct (blurScore_checkQuality img) as [-> ->].
  assert (nonnegative (calculateBlurScore img) = true) as Hn.
  { rewrite calculateBlurScore_spec by assumption. unfold Spec.blur_score_over.
    assert (0 < (width img - 2) * (height img - 2) < 2 ^ prec) as HN.
    { destruct Hwf as (_ & _ & _ & Hb). change (2 ^ prec) with (2 ^ 53). nia. }
    destruct (of_Z_pos_normal _ HN) as [-> _].
    apply div_nonnegative. apply foldl_invariant; [reflexivity|].
    intros acc p Hp Hacc. apply elem_of_interior in Hp as [Hpx Hpy].
    apply add_nonnegative; [exact Hacc|].
    apply square_nonnegative, response_not_nan; assumption. }
  destruct (nonnegative_le _ Hn) as [Hle Hnan].
  repeat split; try assumption.
  apply gt_negb_le; [assumption|discriminate].
Qed.

Lemma X6_blur_score_nonnegative_witness :
  let q := checkQuality (Examples.checker 3 3) in
  nonnegative (blurScore q) = true
  /\ blurScore q <> NaN
  /\ le zero (blurScore q) = true
  /\ isSharp q = negb (le (blurScore q) c100).
Proof.
  apply (X6_blur_score_nonnegative (Examples.checker 3 3)).
  - unfold well_formed. cbn. lia.
  - cbn. lia.
  - cbn. lia.
Defined.

End BlurScore.


(** ** The fill percentage is at most 100 *)

Lemma SFleb_finite (M1 : positive) (e1 : Z) (M2 : positive) (e2 : Z) :
  SFleb (S754_finite false M1 e1) (S754_finite false M2 e2) = true
  <-> e1 < e2 \/ (e1 = e2 /\ Z.pos M1 <= Z.pos M2).
Proof.
  unfold SFleb. cbn [SFcompare]. destruct (Z.compare_spec e1 e2) as [->|Hlt|Hgt].
  - change (Pos.compare_cont Eq M1 M2) with (Pos.compare M1 M2).
    destruct (Pos.compare_spec M1 M2) as [->|Hm|Hm]; split; intros H;
      try discriminate; try reflexivity; try lia.
  - split; [intros _; lia|reflexivity].
  - split; [discriminate|lia].
Qed.

(** Rounding a mantissa of at least [prec] bits, in the normal range: the
    result lies between the truncated mantissa and its successor. *)
Lemma binary_round_aux_between (prec emax : Z) (sx : bool) (mx ex : Z) (lx : location) :
  0 < prec ->
  prec <= Zdigits2 mx -> 0 < mx ->
  let e1 := Zdigits2 mx + ex - prec in
  SpecFloat.emin prec emax <= e1 -> e1 + 1 <= emax - prec ->
  exists M E,
    binary_round_aux prec emax sx mx ex lx = S754_finite sx M E
    /\ Zdigits2 (Z.pos M) = prec
    /\ e1 <= E <= e1 + 1
    /\ mx / 2 ^ (Zdigits2 mx - prec) <= Z.pos M * 2 ^ (E - e1)
       <= mx / 2 ^ (Zdigits2 mx - prec) + 1.
Proof.
  intros Hprec Hd Hmx e1 Hlo Hhi.
  assert (SpecFloat.fexp prec emax (Zdigits2 mx + ex) = e1) as Hf
    by (unfold SpecFloat.fexp, e1; lia).
  destruct (binary_round_aux_spec prec emax Hprec sx mx ex lx Hmx) as (m2 & Hb & Hle & _ & ->).
  { rewrite Hf. unfold e1. lia. }
  rewrite Hf in *. replace (e1 - ex) with (Zdigits2 mx - prec) in Hb by (unfold e1; lia).
  assert (Zdigits2 (mx / 2 ^ (Zdigits2 mx - prec)) = prec) as Hdq.
  { rewrite Zdigits2_div_pow2 by lia. lia. }
  assert (0 < mx / 2 ^ (Zdigits2 mx - prec)) as Hq.
  { destruct (mx / 2 ^ (Zdigits2 mx - prec)) as [|q|q] eqn:Hq; cbn in Hdq; try lia.
    pose proof (Z.div_pos mx (2 ^ (Zdigits2 mx - prec)) ltac:(lia)
                  ltac:(apply Z.pow_pos_nonneg; lia)). lia. }
  pose proof (Zdigits2_bounds _ Hq) as [Hlq _]. rewrite Hdq in Hlq.
  destruct (round_result_normal prec emax Hprec sx m2 e1 ltac:(lia) Hhi)
    as (M & E & -> & HdM & HE & HM).
  exists M, E. split; [reflexivity|]. split; [exact HdM|]. split; [exact HE|].
  rewrite HM. lia.
Qed.

Lemma div_between (MA : positive) (eA : Z) (MT : positive) (eT : Z) :
  Zdigits2 (Z.pos MA) = prec -> Zdigits2 (Z.pos MT) = prec ->
  -900 <= eA - eT <= 900 ->
  let q := Z.pos MA * 2 ^ prec / Z.pos MT in
  let e1 := Zdigits2 q + (eA - eT - prec) - prec in
  exists MX EX,
    div (S754_finite false MA eA) (S754_finite false MT eT) = S754_finite false MX EX
    /\ Zdigits2 (Z.pos MX) = prec
    /\ e1 <= EX <= e1 + 1
    /\ q / 2 ^ (Zdigits2 q - prec) <= Z.pos MX * 2 ^ (EX - e1)
       <= q / 2 ^ (Zdigits2 q - prec) + 1
    /\ prec <= Zdigits2 q <= prec + 1.
Proof.
  intros HdA HdT He q e1.
  pose proof (Zdigits2_bounds (Z.pos MA) ltac:(lia)) as [HlA HhA].
  pose proof (Zdigits2_bounds (Z.pos MT) ltac:(lia)) as [HlT HhT].
  rewrite HdA in HlA, HhA. rewrite HdT in HlT, HhT.
  change (2 ^ (prec - 1)) with 4503599627370496 in *.
  change (2 ^ prec) with 9007199254740992 in *.
  assert (4503599627370496 <= q < 18014398509481984) as Hq.
  { unfold q. split.
    - apply Z.div_le_lower_bound; lia.
    - apply Z.div_lt_upper_bound; lia. }
  assert (prec <= Zdigits2 q) as Hdq1.
  { apply Zdigits2_ge; [lia|]. change (2 ^ (prec - 1)) with 4503599627370496. lia. }
  assert (Zdigits2 q <= prec + 1) as Hdq2.
  { apply Zdigits2_le; [lia|unfold prec; lia|].
    change (2 ^ (prec + 1)) with 18014398509481984. lia. }
  unfold div, SFdiv, SFdiv_core_binary. rewrite HdA, HdT.
  assert (Z.min (SpecFloat.fexp prec emax (prec + eA - (prec + eT))) (eA - eT)
          = eA - eT - prec) as ->
    by (unfold SpecFloat.fexp, SpecFloat.emin, prec, emax; lia).
  replace (eA - eT - (eA - eT - prec)) with prec by lia.
  change (match prec with 0 => Z.pos MA | Z.pos _ => Z.pos MA ≪ prec | Z.neg _ => 0 end)
    with (Z.shiftl (Z.pos MA) prec).
  rewrite Z.shiftl_mul_pow2 by (unfold prec; lia).
  change (IntDef.Z.div_eucl (Z.pos MA * 2 ^ prec) (Z.pos MT))
    with (Z.div_eucl (Z.pos MA * 2 ^ prec) (Z.pos MT)).
  assert ((Z.div_eucl (Z.pos MA * 2 ^ prec) (Z.pos MT)).1 = q) as Hdiv by reflexivity.
  destruct (Z.div_eucl (Z.pos MA * 2 ^ prec) (Z.pos MT)) as [q' r'].
  cbn [fst] in Hdiv. rewrite Hdiv.
  cbn [xorb].
  destruct (binary_round_aux_between prec emax false q (eA - eT - prec)
              (new_location (Z.pos MT) r') prec_pos Hdq1 ltac:(lia))
    as (MX & EX & HX & HdX & HEX & Hval).
  { unfold SpecFloat.emin, prec, emax in *. lia. }
  { unfold prec, emax in *. lia. }
  exists MX, EX. fold e1 in HEX, Hval. repeat split; try assumption; try lia.
Qed.

Lemma mul_between (M1 : positive) (e1 : Z) (M2 : positive) (e2 : Z) :
  Zdigits2 (Z.pos M1) = prec -> Zdigits2 (Z.pos M2) = prec ->
  -900 <= e1 + e2 <= 900 ->
  let P := Z.pos M1 * Z.pos M2 in
  let f := Zdigits2 P + (e1 + e2) - prec in
  exists MF EF,
    mul (S754_finite false M1 e1) (S754_finite false M2 e2) = S754_finite false MF EF
    /\ Zdigits2 (Z.pos MF) = prec
    /\ f <= EF <= f + 1
    /\ P / 2 ^ (Zdigits2 P - prec) <= Z.pos MF * 2 ^ (EF - f)
       <= P / 2 ^ (Zdigits2 P - prec) + 1
    /\ 2 * prec - 1 <= Zdigits2 P <= 2 * prec.
Proof.
  intros Hd1 Hd2 He P f.
  pose proof (Zdigits2_bounds (Z.pos M1) ltac:(lia)) as [Hl1 Hh1].
  pose proof (Zdigits2_bounds (Z.pos M2) ltac:(lia)) as [Hl2 Hh2].
  rewrite Hd1 in Hl1, Hh1. rewrite Hd2 in Hl2, Hh2.
  change (2 ^ (prec - 1)) with 4503599627370496 in *.
  change (2 ^ prec) with 9007199254740992 in *.
  assert (2 * prec - 1 <= Zdigits2 P <= 2 * prec) as HdP.
  { split.
    - apply Zdigits2_ge; [nia|]. change (2 ^ (2 * prec - 1 - 1)) with
        (4503599627370496 * 4503599627370496). nia.
    - apply Zdigits2_le; [nia|unfold prec; lia|].
      change (2 ^ (2 * prec)) with (9007199254740992 * 9007199254740992). nia. }
  unfold mul. cbn [SFmul xorb]. rewrite Pos2Z.inj_mul. fold P.
  destruct (binary_round_aux_between prec emax false P (e1 + e2) loc_Exact prec_pos
              ltac:(unfold prec in *; lia) ltac:(nia))
    as (MF & EF & HF & HdF & HEF & Hval).
  { unfold SpecFloat.emin, prec, emax in *. lia. }
  { unfold prec, emax in *. lia. }
  exists MF, EF. fold f in HEF, Hval. repeat split; try assumption; lia.
Qed.

(** The quotient of two positive integers below [2 ^ 51], the smaller by
    the larger, is a normal number below 1. *)
Lemma quotient_below_one (a t : Z) :
  0 < a < t -> t < 2 ^ 51 ->
  exists MX EX,
    div (of_Z a) (of_Z t) = S754_finite false MX EX
    /\ Zdigits2 (Z.pos MX) = prec /\ -200 <= EX <= -53.
Proof.
  intros Ha Ht. change (2 ^ 51) with 2251799813685248 in Ht.
  assert (prec = 53) as Hprec by reflexivity.
  assert (0 < a < 2 ^ prec) as Ha' by (change (2 ^ prec) with 9007199254740992; lia).
  assert (0 < t < 2 ^ prec) as Ht' by (change (2 ^ prec) with 9007199254740992; lia).
  destruct (of_Z_pos_normal a Ha') as [-> HdA].
  destruct (of_Z_pos_normal t Ht') as [-> HdT].
  set (da := Zdigits2 a) in *. set (dt := Zdigits2 t) in *.
  assert (0 < dt <= 51) as Hdt.
  { unfold dt. split; [apply Zdigits2_pos; lia|apply Zdigits2_le; lia]. }
  pose proof (Zdigits2_bounds a ltac:(lia)) as [Hla Hha]. fold da in Hla, Hha.
  pose proof (Zdigits2_bounds t ltac:(lia)) as [Hlt Hht]. fold dt in Hlt, Hht.
  assert (0 < da <= dt) as Hda.
  { unfold da. split; [apply Zdigits2_pos; lia|apply Zdigits2_le; lia]. }
  set (ua := 2 ^ (prec - da)) in *. set (ut := 2 ^ (prec - dt)) in *.
  assert (0 < ua) as Hua by (apply Z.pow_pos_nonneg; lia).
  assert (4 <= ut) as Hut.
  { unfold ut. change 4 with (2 ^ 2). apply Z.pow_le_mono_r; lia. }
  set (MA := Z.to_pos (a * ua)) in *. set (MT := Z.to_pos (t * ut)) in *.
  assert (Z.pos MA = a * ua) as HMA by (apply Z2Pos.id; nia).
  assert (Z.pos MT = t * ut) as HMT by (apply Z2Pos.id; nia).
  pose proof (Zdigits2_bounds (Z.pos MA) ltac:(lia)) as [HlMA HhMA].
  pose proof (Zdigits2_bounds (Z.pos MT) ltac:(lia)) as [HlMT HhMT].
  rewrite HdA in HlMA, HhMA. rewrite HdT in HlMT, HhMT.
  change (2 ^ (prec - 1)) with 4503599627370496 in *.
  change (2 ^ prec) with 9007199254740992 in *.
  destruct (div_between MA (da - prec) MT (dt - prec) HdA HdT ltac:(lia))
    as (MX & EX & -> & HdX & HEX & HvX & Hdq).
  set (q := Z.pos MA * 2 ^ prec / Z.pos MT) in *.
  change (2 ^ prec) with 9007199254740992 in *.
  set (dq := Zdigits2 q) in *.
  pose proof (Zdigits2_bounds (Z.pos MX) ltac:(lia)) as [HlMX HhMX].
  rewrite HdX in HlMX, HhMX.
  change (2 ^ (prec - 1)) with 4503599627370496 in *.
  change (2 ^ prec) with 9007199254740992 in *.
  exists MX, EX. split; [reflexivity|]. split; [exact HdX|]. split; [lia|].
  (* the exponent of the quotient is at most -53 *)
  destruct (Z_lt_le_dec (dq + (da - dt)) prec) as [Hsmall|Hbig]; [lia|].
  (* a quotient of 54 bits in the same binade is impossible *)
  assert (dq + (da - dt) = prec) as Hcase.
  { destruct (Z.eq_dec (dq + (da - dt)) prec) as [|Hne]; [assumption|].
    assert (dq = prec + 1 /\ da = dt) as [Hq Hd] by lia.
    assert (ua = ut) as Hu by (unfold ua, ut; rewrite Hd; reflexivity).
    assert (q < 9007199254740992).
    { apply Z.div_lt_upper_bound; [lia|]. nia. }
    assert (dq <= prec); [|lia].
    apply Zdigits2_le; [|lia|].
    + apply Z.div_pos; lia.
    + change (2 ^ prec) with 9007199254740992. lia. }
  (* the remaining cases: the rounded mantissa stays below 2 ^ 53 *)
  assert (EX - (dq + (da - prec - (dt - prec) - prec) - prec) = 0); [|lia].
  assert (Z.pos MX * 2 ^ (EX - (dq + (da - prec - (dt - prec) - prec) - prec))
          < 9007199254740992) as Hlt53.
  { assert (dq = prec /\ da = dt \/ dq = prec + 1 /\ da = dt - 1)
      as [[Hq Hd]|[Hq Hd]] by lia.
    - (* same binade: MA <= MT - ut *)
      assert (ua = ut) as Hu by (unfold ua, ut; rewrite Hd; reflexivity).
      assert (q < 9007199254740992 - 3).
      { apply Z.div_lt_upper_bound; [lia|]. nia. }
      replace (dq - prec) with 0 in HvX by lia.
      rewrite Z.pow_0_r, Z.div_1_r in HvX. lia.
    - (* the binade below: MA <= 2 MT - 2 ut *)
      assert (ua = 2 * ut) as Hu.
      { unfold ua, ut. replace (prec - da) with (1 + (prec - dt)) by lia.
        rewrite Z.pow_add_r by lia. reflexivity. }
      assert (q < 18014398509481984 - 4).
      { apply Z.div_lt_upper_bound; [lia|]. nia. }
      replace (dq - prec) with 1 in HvX by lia.
      change (2 ^ 1) with 2 in HvX.
      assert (q / 2 <= 9007199254740992 - 2).
      { apply Z.div_le_upper_bound; lia. }
      lia. }
  destruct (Z.eq_dec (EX - (dq + (da - prec - (dt - prec) - prec) - prec)) 0) as [|Hne];
    [assumption|].
  assert (EX - (dq + (da - prec - (dt - prec) - prec) - prec) = 1) as H1 by lia.
  rewrite H1 in Hlt53. change (2 ^ 1) with 2 in Hlt53. lia.
Qed.

(** A hundred times a normal number below 1 is at most 100. *)
Lemma hundredfold_at_most_100 (MX : positive) (EX : Z) :
  Zdigits2 (Z.pos MX) = prec -> -200 <= EX <= -53 ->
  le (mul c100 (S754_finite false MX EX)) c100 = true.
Proof.
  intros HdX HEX. assert (prec = 53) as Hprec by reflexivity.
  change c100 with (S754_finite false 7036874417766400 (-46)).
  destruct (mul_between 7036874417766400 (-46) MX EX ltac:(reflexivity) HdX ltac:(lia))
    as (MF & EF & -> & HdF & HEF & HvF & HdP).
  set (P := Z.pos 7036874417766400 * Z.pos MX) in *.
  set (dP := Zdigits2 P) in *.
  pose proof (Zdigits2_bounds (Z.pos MX) ltac:(lia)) as [HlMX HhMX].
  pose proof (Zdigits2_bounds (Z.pos MF) ltac:(lia)) as [HlMF HhMF].
  rewrite HdX in HlMX, HhMX. rewrite HdF in HlMF, HhMF.
  change (2 ^ (prec - 1)) with 4503599627370496 in *.
  change (2 ^ prec) with 9007199254740992 in *.
  unfold le. apply SFleb_finite.
  destruct (Z_lt_le_dec EF (-46)) as [|Hge]; [left; assumption|right].
  destruct (Z_lt_le_dec (dP + (-46 + EX) - prec) (-46)) as [Hf|Hf].
  - (* the product was rounded up to a power of two *)
    assert (EF = -46 /\ EF - (dP + (-46 + EX) - prec) = 1) as [HE H1] by lia.
    split; [exact HE|]. rewrite H1 in HvF. change (2 ^ 1) with 2 in HvF.
    assert (P / 2 ^ (dP - prec) < 9007199254740992).
    { assert (0 < P) by (unfold P; lia).
      assert (Zdigits2 (P / 2 ^ (dP - prec)) = prec) as Hd.
      { unfold dP. rewrite Zdigits2_div_pow2 by (fold dP; lia). fold dP. lia. }
      assert (0 < P / 2 ^ (dP - prec)).
      { pose proof (Z.div_pos P (2 ^ (dP - prec)) ltac:(lia)
                      ltac:(apply Z.pow_pos_nonneg; lia)).
        destruct (P / 2 ^ (dP - prec)) as [|u|u] eqn:Hu; cbn in Hd; lia. }
      pose proof (Zdigits2_bounds _ H0) as [_ Hh]. rewrite Hd in Hh.
      change (2 ^ prec) with 9007199254740992 in Hh. exact Hh. }
    lia.
  - (* EX = -53 and a product of 106 bits *)
    assert (EX = -53 /\ dP = 106) as [HE HP] by lia.
    replace (dP + (-46 + EX) - prec) with (-46) in HvF, HEF by lia.
    replace (dP - prec) with 53 in HvF by lia.
    change (2 ^ 53) with 9007199254740992 in HvF.
    assert (P / 9007199254740992 < 7036874417766400).
    { apply Z.div_lt_upper_bound; [lia|]. unfold P. nia. }
    destruct (Z.eq_dec EF (-46)) as [->|Hne].
    + split; [reflexivity|]. rewrite Z.pow_0_r in HvF. lia.
    + assert (EF - -46 = 1) as H1 by lia. rewrite H1 in HvF.
      change (2 ^ 1) with 2 in HvF. lia.
Qed.

(** The box area over the frame area, times 100. *)
Lemma fill_at_most_100 (a t : Z) :
  0 < a < t -> t < 2 ^ 51 ->
  le (mul c100 (div (of_Z a) (of_Z t))) c100 = true.
Proof.
  intros Ha Ht. destruct (quotient_below_one a t Ha Ht) as (MX & EX & -> & Hd & HE).
  apply hundredfold_at_most_100; assumption.
Qed.

Section FillPercentage.

Import DocumentScanner.

(** X7.  The fill percentage never exceeds 100: with C10 it is 0, or above 25
    and at most 100. *)
Theorem X7_fill_percentage_at_most_100 (img : ImageData) :
  well_formed img ->
  le (fillPercentage (checkQuality img)) c100 = true.
Proof.
  intros Hwf. rewrite fillPercentage_checkQuality, detectDocumentEdges_spec by assumption.
  unfold Spec.boundary. cbv zeta.
  destruct (Spec.bounding_box (Spec.samples img)) as [[tl br]|] eqn:Hbox; [|reflexivity].
  pose proof (bounding_box_area img tl br Hwf Hbox) as Harea.
  destruct Hwf as (Hw & Hh & Hlen & Hbound).
  assert (0 < width img * height img < 2 ^ 51) as Ht by lia.
  destruct (gt (of_Z (Spec.box_area tl br)) (mul c0_25 (of_Z (width img * height img))))
    eqn:Hgt; [|reflexivity].
  destruct (100 <? Z.of_nat (length (Spec.samples img))); [|reflexivity].
  cbn [andb snd].
  assert (Spec.box_area tl br <> 0) as Hne.
  { intros H0. rewrite H0, zero_not_above_quarter in Hgt; [discriminate|exact Ht]. }
  apply fill_at_most_100; lia.
Qed.

Lemma X7_fill_percentage_at_most_100_witness :
  le (fillPercentage Examples.document_quality) c100 = true.
Proof.
  rewrite <- document_scan_quality.
  apply (X7_fill_percentage_at_most_100 (Examples.checker 201 5)).
  unfold well_formed. repeat split; vm_compute; congruence.
Defined.

End FillPercentage.


(** * Further properties of the capture camera *)

Section CameraMore.

Import DocumentCaptureCamera CameraView.

Local Arguments Scanner.checkQuality : simpl never.
Local Arguments Scanner.captureImage : simpl never.

(** ** The states the component reaches *)

(** The handler of an event, before the effect of the render it
    causes. *)
Lemma step_handler (v : Video) (st : State) (ev : Event) :
  let h := match ev with
           | Tick => on_tick v st
           | Click c => on_click v c st
           end in
  step v st ev = ((run_effect v st h.1).1, h.2 ++ (run_effect v st h.1).2).
Proof.
  cbv zeta. unfold step.
  destruct (match ev with Tick => _ | Click c => _ end) as [st' out].
  cbn [fst snd]. destruct (run_effect v st st') as [st'' out']. reflexivity.
Qed.

Lemma run_effect_hooks (v : Video) (old st : State) :
  scanQuality (run_effect v old st).1 = scanQuality st
  /\ capturedImage (run_effect v old st).1 = capturedImage st
  /\ isScanning (run_effect v old st).1 = isScanning st.
Proof.
  unfold run_effect. destruct (Bool.eqb _ _); [auto|].
  destruct (_ || _); cbn; auto.
Qed.

Lemma handler_scanQuality (v : Video) (st : State) (ev : Event) :
  let h := match ev with
           | Tick => on_tick v st
           | Click c => on_click v c st
           end in
  scanQuality h.1 = scanQuality st
  \/ exists img, scanQuality h.1 = Some (DocumentScanner.checkQuality img).
Proof.
  cbv zeta. destruct ev as [|c].
  - unfold on_tick. destruct (interval st); [|left; reflexivity].
    destruct (webcam_video st v) as [video|]; [|left; reflexivity].
    unfold Scanner.checkQuality. destruct (frame video) as [img|]; cbn.
    + right. exists img. reflexivity.
    + left. reflexivity.
  - left. unfold on_click. destruct (find_control c (render_controls st)) as [b|];
      [|reflexivity].
    destruct (disabled b); [reflexivity|].
    destruct c; try reflexivity.
    + unfold handleCapture. destruct (webcam_video st v); reflexivity.
    + unfold handleConfirm. destruct (truthy_str (capturedImage st)); [|reflexivity].
      destruct (capturedImage st); reflexivity.
Qed.

Lemma step_scanned (v : Video) (st : State) (ev : Event) :
  scanned st -> scanned (step v st ev).1.
Proof.
  intros Hst q. rewrite step_handler. cbn [fst].
  destruct (run_effect_hooks v st
              (match ev with Tick => on_tick v st | Click c => on_click v c st end).1)
    as (-> & _ & _).
  destruct (handler_scanQuality v st ev) as [-> | [img ->]].
  - apply Hst.
  - intros [= <-]. exists img. reflexivity.
Qed.

Lemma reachable_scanned (st : State) : reachable st -> scanned st.
Proof.
  induction 1 as [|v st ev _ IH]; [intros q; discriminate|].
  now apply step_scanned.
Qed.

(** X8.  In every state the component reaches, the 500 ms interval is set
    exactly while it scans, and then there is no captured image; while it
    does not scan there is a captured image, not empty, and no interval;
    and the scan quality it shows, if any, is that of a frame. *)
Theorem X8_camera_invariant (st : State) :
  reachable st ->
  (isScanning st = true -> capturedImage st = None /\ interval st = Some 500)
  /\ (isScanning st = false ->
      truthy_str (capturedImage st) = true /\ interval st = None)
  /\ (forall q, scanQuality st = Some q ->
        exists img, q = DocumentScanner.checkQuality img).
Proof.
  intros Hr. pose proof (reachable_consistent st Hr) as Hc.
  unfold consistent, session in Hc. split; [|split].
  - intros Hs. rewrite Hs in Hc. exact Hc.
  - intros Hs. rewrite Hs in Hc. exact Hc.
  - apply reachable_scanned, Hr.
Qed.

Lemma X8_camera_invariant_witness :
  let st := (step Examples.blank_video init Tick).1 in
  (isScanning st = true -> capturedImage st = None /\ interval st = Some 500)
  /\ (isScanning st = false ->
      truthy_str (capturedImage st) = true /\ interval st = None)
  /\ (forall q, scanQuality st = Some q ->
        exists img, q = DocumentScanner.checkQuality img).
Proof.
  apply (X8_camera_invariant (step Examples.blank_video init Tick).1).
  apply reachable_step, reachable_init.
Defined.

(** ** Capture and retake *)

(** X9.  Capture followed by retake restores the state the capture started
    from, whatever the video shows meanwhile: one still is grabbed, the
    interval is cleared and set again, and the scan quality of before the
    capture is still there, so that the capture control is enabled again at
    once, before any new frame is evaluated. *)
Theorem X9_capture_retake_restores (v v' : Video) (st : State) :
  consistent st ->
  session st = Scanning ->
  capture_permitted st = true ->
  run st [(v, Click Capture); (v', Click Retake)]
  = (st, [CaptureImage (Scanner.captureImage v); ClearInterval; SetInterval 500]).
Proof.
  intros Hc Hs Hp.
  unfold consistent in Hc. rewrite Hs in Hc. destruct Hc as [Hc Hi].
  unfold session in Hs. destruct st as [q c s i]; cbn in *.
  destruct s; [clear Hs|discriminate Hs]. subst c i.
  unfold capture_permitted in Hp. cbn in Hp.
  unfold step, on_click; cbn.
  destruct (truthy _); [|discriminate Hp]. cbn.
  unfold render_controls. cbn [capturedImage]. rewrite captureImage_truthy. cbn.
  reflexivity.
Qed.

Lemma X9_capture_retake_restores_witness :
  let st := {| scanQuality := Some Examples.document_quality; capturedImage := None;
               isScanning := true; interval := Some 500 |} in
  run st [(Examples.document_video, Click Capture); (Examples.blank_video, Click Retake)]
  = (st, [CaptureImage (Scanner.captureImage Examples.document_video);
          ClearInterval; SetInterval 500]).
Proof.
  intros st. apply (X9_capture_retake_restores _ _ st);
    [split; reflexivity|reflexivity|reflexivity].
Defined.

(** ** The still handed to the caller *)

Lemma still_trace_app (last : option string) (a b : list Effect) :
  still_trace last (a ++ b) = still_trace last a ≫= fun last' => still_trace last' b.
Proof.
  revert last. induction a as [|e a IH]; intros last; [reflexivity|].
  destruct e; cbn [app still_trace]; try apply IH.
  destruct last as [s'|]; [|reflexivity].
  destruct (String.eqb _ s'); [apply IH|reflexivity].
Qed.

Lemma step_still (v : Video) (st : State) (ev : Event) (last : option string) :
  (truthy_str (capturedImage st) = true -> capturedImage st = last) ->
  exists last',
    still_trace last (step v st ev).2 = Some last'
    /\ (truthy_str (capturedImage (step v st ev).1) = true ->
        capturedImage (step v st ev).1 = last').
Proof.
  intros HJ. rewrite step_handler. cbn [fst snd].
  set (h := match ev with Tick => on_tick v st | Click c => on_click v c st end).
  destruct (run_effect_hooks v st h.1) as (_ & -> & _).
  assert (still_trace last (h.2 ++ (run_effect v st h.1).2) = still_trace last h.2) as ->.
  { rewrite still_trace_app. destruct (still_trace last h.2) as [l|]; [|reflexivity].
    cbn. unfold run_effect. destruct (Bool.eqb _ _); [reflexivity|].
    destruct (interval st); destruct (_ || _); reflexivity. }
  unfold h. clear h. destruct ev as [|c].
  - exists last. unfold on_tick. destruct (interval st); [|auto].
    destruct (webcam_video st v); [|auto].
    destruct (Scanner.checkQuality _); auto.
  - unfold on_click. destruct (find_control c (render_controls st)) as [b|];
      [|exists last; auto].
    destruct (disabled b); [exists last; auto|].
    destruct c.
    + exists last. auto.
    + unfold handleCapture. destruct (webcam_video st v); [|exists last; auto].
      eexists. split; reflexivity.
    + exists last. split; [reflexivity|]. discriminate.
    + unfold handleConfirm. destruct (truthy_str (capturedImage st)) eqn:Ht.
      * specialize (HJ eq_refl).
        destruct (capturedImage st) as [s|] eqn:Hcap; [|discriminate Ht].
        exists last. subst last. cbn. rewrite String.eqb_refl, Hcap. auto.
      * exists last. cbn. split; [reflexivity|].
        intros H. rewrite Ht in H. discriminate H.
Qed.

Lemma run_still (evs : list (Video * Event)) (st : State) (last : option string) :
  (truthy_str (capturedImage st) = true -> capturedImage st = last) ->
  exists last', still_trace last (run st evs).2 = Some last'.
Proof.
  revert st last. induction evs as [|[v ev] evs IH]; intros st last HJ.
  - exists last. reflexivity.
  - cbn [run]. destruct (step_still v st ev last HJ) as (l1 & H1 & HJ1).
    destruct (step v st ev) as [st1 out1]. cbn [fst snd] in *.
    destruct (IH st1 l1 HJ1) as (l2 & H2).
    destruct (run st1 evs) as [st2 out2]. cbn [snd] in *.
    exists l2. rewrite still_trace_app, H1. exact H2.
Qed.

(** X10.  Whatever happens from the first render on, an image handed to the
    caller is the still that was captured last: never one that a retake
    discarded, and never anything the scanner did not capture. *)
Theorem X10_confirmed_still_is_captured (evs : list (Video * Event)) :
  still_trace None (run init evs).2 <> None.
Proof.
  destruct (run_still evs init None ltac:(discriminate)) as [last ->]. discriminate.
Qed.

(** ** The interval *)

Lemma timer_trace_app (live : bool) (a b : list Effect) :
  timer_trace live (a ++ b) = timer_trace live a ≫= fun l => timer_trace l b.
Proof.
  revert live. induction a as [|e a IH]; intros live; [reflexivity|].
  destruct e; cbn [app timer_trace]; try apply IH; destruct live; try reflexivity; apply IH.
Qed.

Lemma step_timer (v : Video) (st : State) (ev : Event) :
  consistent st ->
  timer_trace (is_some (interval st)) (step v st ev).2
  = Some (is_some (interval (step v st ev).1)).
Proof.
  unfold consistent, session, step. destruct st as [q c s i]; cbn.
  destruct s; intros [Hc Hi]; cbn in Hc, Hi; subst.
  - destruct ev as [|[]]; cbn; auto.
    + destruct (Scanner.checkQuality v); reflexivity.
    + unfold on_click; cbn.
      match goal with |- context [truthy ?c] => destruct (truthy c) end; reflexivity.
  - destruct ev as [|[]]; cbn; auto;
      unfold on_click, render_controls, webcam_video, handleConfirm; cbn;
      rewrite ?Hc; cbn; auto.
    destruct c; reflexivity.
Qed.

(** X11.  At most one interval is live at any time: along the effects of any
    sequence of events an interval is set only while none is live and
    cleared only while one is; and when the component is unmounted
    afterwards, no interval is left behind. *)
Theorem X11_one_interval (st : State) (evs : list (Video * Event)) :
  consistent st ->
  timer_trace (is_some (interval st)) (run st evs).2
  = Some (is_some (interval (run st evs).1))
  /\ timer_trace (is_some (interval st)) ((run st evs).2 ++ unmount (run st evs).1)
     = Some false.
Proof.
  intros Hc.
  assert (timer_trace (is_some (interval st)) (run st evs).2
          = Some (is_some (interval (run st evs).1))) as H.
  { revert st Hc. induction evs as [|[v ev] evs IH]; intros st Hc; [reflexivity|].
    cbn [run]. pose proof (step_timer v st ev Hc) as H1.
    pose proof (step_consistent v st ev Hc) as Hc1.
    destruct (step v st ev) as [st1 out1]. cbn [fst snd] in *.
    specialize (IH st1 Hc1). destruct (run st1 evs) as [st2 out2]. cbn [fst snd] in *.
    rewrite timer_trace_app, H1. exact IH. }
  split; [exact H|]. rewrite timer_trace_app, H. cbn.
  unfold unmount. destruct (interval (run st evs).1); reflexivity.
Qed.

Lemma X11_one_interval_witness :
  let evs := [(Examples.blank_video, Tick); (Examples.blank_video, Click Cancel)] in
  timer_trace (is_some (interval init)) (run init evs).2
  = Some (is_some (interval (run init evs).1))
  /\ timer_trace (is_some (interval init)) ((run init evs).2 ++ unmount (run init evs).1)
     = Some false.
Proof.
  apply (X11_one_interval init). split; reflexivity.
Defined.

(** ** The status indicator and the overlay *)

Lemma guidance_cases (img : ImageData) :
  let q := DocumentScanner.checkQuality img in
  (isSharp q && hasDocumentEdges q = true /\ qualityMessage q = DocumentScanner.msg_ready)
  \/ (isSharp q && hasDocumentEdges q = false
      /\ (qualityMessage q = DocumentScanner.msg_position
          \/ qualityMessage q = DocumentScanner.msg_blurry)).
Proof.
  cbv zeta. unfold DocumentScanner.checkQuality.
  destruct (DocumentScanner.detectDocumentEdges img) as [corners fill].
  cbn [qualityMessage isSharp hasDocumentEdges].
  destruct (is_some corners); cbn [andb negb].
  - destruct (gt fill c40) eqn:Hgt; cbn [negb].
    + rewrite (gt_not_lt _ _ Hgt).
      destruct (gt (DocumentScanner.calculateBlurScore img) c100); cbn; auto.
    + rewrite andb_false_r. auto.
  - rewrite andb_false_r. auto.
Qed.

(** X12.  Over the live feed of a state the component reaches, the status
    indicator is green exactly when the capture control is enabled, and
    exactly when its text is the "ready" text; the text is the
    "initializing" text exactly as long as no scan quality was published;
    it is never the "move closer" text; and the overlay polygon, when one
    is drawn, has the colour of the indicator. *)
Theorem X12_status_indicator (st : State) :
  reachable st ->
  capturedImage st = None ->
  exists s,
    status st = Some s
    /\ (background s = Green <-> capture_permitted st = true)
    /\ (background s = Green <-> text s = DocumentScanner.msg_ready)
    /\ (text s = msg_initializing <-> scanQuality st = None)
    /\ text s <> DocumentScanner.msg_closer
    /\ (forall p, overlay st = Some p -> stroke p = background s).
Proof.
  intros Hr Hc. pose proof (reachable_scanned st Hr) as Hq.
  unfold status, overlay. rewrite Hc. cbn [truthy_str negb].
  eexists. split; [reflexivity|]. cbn [background text].
  rewrite capture_permitted_spec, Hc. cbn [truthy_str negb andb].
  unfold colour, status_text.
  destruct (scanQuality st) as [q|] eqn:Hsq.
  - destruct (Hq q Hsq) as [img Himg].
    pose proof (guidance_cases img) as Hg. cbv zeta in Hg. rewrite <- Himg in Hg.
    clear Himg img. rewrite (truthy_canCapture st q Hsq).
    assert (forall c p,
              match documentCorners q with
              | Some corners => Some {| points := polygon_points corners; stroke := c |}
              | None => None
              end = Some p -> stroke p = c) as Hov.
    { intros c p. destruct (documentCorners q); [|discriminate].
      intros [= <-]. reflexivity. }
    destruct Hg as [[Hg Hm]|[Hg [Hm|Hm]]]; rewrite Hg, Hm; cbn;
      (repeat split; [..|apply Hov]); try discriminate; try reflexivity;
      intros H; discriminate H.
  - unfold canCapture. rewrite Hsq. cbn.
    repeat split; try discriminate; try reflexivity; intros H; discriminate H.
Qed.

Lemma X12_status_indicator_witness :
  exists s,
    status init = Some s
    /\ (background s = Green <-> capture_permitted init = true)
    /\ (background s = Green <-> text s = DocumentScanner.msg_ready)
    /\ (text s = msg_initializing <-> scanQuality init = None)
    /\ text s <> DocumentScanner.msg_closer
    /\ (forall p, overlay init = Some p -> stroke p = background s).
Proof.
  apply (X12_status_indicator init); [apply reachable_init|reflexivity].
Defined.

End CameraMore.


(** * Properties of the upload portal *)

Section Portal.

Import DocumentUploadPortal PortalNotions.

Variable token : string.

(** ** The states the portal reaches *)

Lemma listed_spec (value : string) :
  existsb (String.eqb value) DOCUMENT_TYPES = true -> value ∈ DOCUMENT_TYPES.
Proof.
  intros H. apply existsb_exists in H as (ty & Hin & Heq).
  apply String.eqb_eq in Heq as ->. apply list_elem_of_In. exact Hin.
Qed.

Lemma listed_truthy (ty : string) : ty ∈ DOCUMENT_TYPES -> truthy ty = true.
Proof.
  unfold DOCUMENT_TYPES. intros H.
  repeat (apply elem_of_cons in H as [->|H]; [reflexivity|]).
  apply elem_of_nil in H as [].
Qed.

Lemma filter_Forall {A : Type} (P : A -> Prop) (f : A -> bool) (l : list A) :
  Forall P l -> Forall P (List.filter f l).
Proof.
  induction 1 as [|a l Ha _ IH]; [constructor|].
  cbn. destruct (f a); [constructor; assumption|assumption].
Qed.

Lemma filter_elem_of {A : Type} (f : A -> bool) (l : list A) (a : A) :
  a ∈ List.filter f l -> a ∈ l.
Proof.
  induction l as [|b l IH]; cbn; [auto|].
  destruct (f b); [|intros H; right; auto].
  intros [->|H]%elem_of_cons; [left|right; auto].
Qed.

Lemma filter_NoDup {A B : Type} (g : A -> B) (f : A -> bool) (l : list A) :
  NoDup (g <$> l) -> NoDup (g <$> List.filter f l).
Proof.
  induction l as [|a l IH]; cbn; [auto|].
  intros [Hn Hd]%NoDup_cons. destruct (f a); [|auto].
  cbn. apply NoDup_cons. split; [|auto].
  intros Hin. apply Hn. apply list_elem_of_fmap in Hin as (b & -> & Hb).
  apply list_elem_of_fmap. exists b. split; [reflexivity|].
  eapply filter_elem_of, Hb.
Qed.

Lemma well_kept_init : well_kept init.
Proof.
  split; cbn; try constructor; try discriminate; auto.
Qed.

Lemma add_document_kept (ty imageData uuid : string) (p : Portal) :
  ty ∈ DOCUMENT_TYPES -> well_kept p -> well_kept (add_document ty imageData uuid p).
Proof.
  intros Hty [H1 H2 H3 H4 H5 H6 H7 H8 H9]. split; cbn; try discriminate; auto.
  - apply Forall_app. split; [assumption|]. apply Forall_singleton. exact Hty.
  - rewrite length_app. cbn. apply Forall_app. split.
    + eapply Forall_impl; [exact H7|]. cbn. lia.
    + apply Forall_singleton. cbn. lia.
  - rewrite fmap_app. apply NoDup_app. split; [assumption|]. split.
    + intros a Ha [->|[]%elem_of_nil]%elem_of_cons.
      apply list_elem_of_fmap in Ha as (d & Hd & Hin).
      rewrite Forall_forall in H7. specialize (H7 d Hin). cbn in Hd. lia.
    + cbn. apply NoDup_singleton.
  - intros docs Hs. destruct (H9 docs Hs) as (Ha & Hb & Hc & Hd).
    repeat split; try assumption.
    rewrite length_app. cbn. eapply Forall_impl; [exact Hc|]. cbn. lia.
Qed.

Lemma upload_document_length (env : Env) (k : nat) (doc : CapturedDocument)
    (store : list (option string)) :
  length (upload_document token env k doc store).1.1 = length store.
Proof.
  unfold upload_document. destruct (fetch env k) as [r|e]; [|reflexivity].
  destruct (ok r); [|reflexivity]. cbn [negb].
  destruct (blob r) as [b|e]; [|reflexivity].
  destruct (blob_size b =? 0); [reflexivity|].
  destruct (upload env k) as [[m|]|e]; try reflexivity.
  cbn. apply length_insert.
Qed.

Lemma upload_documents_length (env : Env) (docs : list CapturedDocument) (k : nat)
    (store : list (option string)) :
  length (upload_documents token env k docs store).1.1 = length store.
Proof.
  revert k store. induction docs as [|doc docs IH]; intros k store; [reflexivity|].
  cbn [upload_documents].
  pose proof (upload_document_length env k doc store) as H1.
  destruct (upload_document token env k doc store) as [[s1 a1] [e|]]; [exact H1|].
  specialize (IH (S k) s1).
  destruct (upload_documents token env (S k) docs s1) as [[s2 a2] r2].
  cbn in *. lia.
Qed.

Lemma submit_documents_length (env : Env) (docs : list CapturedDocument)
    (store : list (option string)) :
  length (submit_documents token env docs store).1 = length store.
Proof.
  unfold submit_documents.
  pose proof (upload_documents_length env docs 0 store) as H.
  destruct (upload_documents token env 0 docs store) as [[s a] [e|]]; [exact H|].
  destruct (update env) as [[m|]|e]; exact H.
Qed.

Lemma portal_step_kept (p : Portal) (ev : Event) :
  well_kept p -> well_kept (step token p ev).1.
Proof.
  intros Hp. pose proof Hp as [H1 H2 H3 H4 H5 H6 H7 H8 H9].
  destruct ev as [value| |file|k| |img uuid| |k result uuid|env]; cbn [step].
  - destruct (negb (camera_shown p)) eqn:Hcam; [|exact Hp].
    destruct (existsb _ _) eqn:Hl; [|exact Hp]. cbn.
    apply listed_spec in Hl.
    split; cbn; auto.
    intros _. apply listed_truthy, Hl.
  - destruct (negb (camera_shown p)); [|exact Hp].
    destruct (truthy (selectedType p)) eqn:Ht; [|exact Hp]. cbn.
    split; cbn; auto; try discriminate.
  - destruct (negb (camera_shown p)); [|exact Hp].
    destruct (truthy (selectedType p)) eqn:Ht; [|exact Hp]. cbn.
    unfold handleFileUpload. destruct file as [f|]; [|exact Hp].
    rewrite Ht. cbn. destruct (max_file_size <? size f); [exact Hp|]. cbn.
    split; cbn; auto.
    apply Forall_app. split; [assumption|]. apply Forall_singleton.
    destruct H3 as [H3|H3]; [rewrite H3 in Ht; discriminate|exact H3].
  - destruct (negb (camera_shown p)); [|exact Hp].
    destruct (documents p !! k) as [doc|]; [|exact Hp]. cbn.
    split; cbn; auto.
    + apply filter_Forall, H4.
    + apply filter_Forall, H7.
    + apply filter_NoDup, H8.
  - destruct (negb (camera_shown p)); [|exact Hp].
    destruct (negb (isUploading p)) eqn:Hu; [|exact Hp]. cbn.
    destruct (documents p) as [|d ds] eqn:Hd; [exact Hp|].
    unfold handleSubmit. rewrite Hd. cbn.
    split; cbn; try rewrite Hd; auto.
    intros docs [= <-]. repeat split; auto; try discriminate.
  - destruct (camera_shown p) eqn:Hcam; [|exact Hp].
    unfold handleCameraCapture. unfold camera_shown in Hcam.
    destruct (mode p); try discriminate. rewrite Hcam. cbn.
    apply add_document_kept; [|exact Hp].
    destruct H3 as [H3|H3]; [rewrite H3 in Hcam; discriminate|exact H3].
  - destruct (camera_shown p); [|exact Hp]. cbn.
    split; cbn; auto; try discriminate.
  - unfold reader_onload. destruct (readers p !! k) as [ty|] eqn:Hk; [|exact Hp].
    assert (ty ∈ DOCUMENT_TYPES) as Hty.
    { rewrite Forall_forall in H5. apply H5. eapply list_elem_of_lookup_2, Hk. }
    pose proof (add_document_kept ty result uuid p Hty Hp) as [G1 G2 G3 G4 G5 G6 G7 G8 G9].
    cbn [fst]. split; cbn; auto.
    cbn in G5. apply Forall_delete, H5.
  - unfold submit_settled. destruct (submitting p) as [docs|] eqn:Hs; [|exact Hp].
    pose proof (submit_documents_length env docs (uploadedUrl p)) as Hlen.
    destruct (submit_documents token env docs (uploadedUrl p)) as [store acts].
    cbn in Hlen. cbn [fst]. split; cbn; auto.
    all: try discriminate.
    rewrite Hlen. exact H7.
Qed.

Lemma portal_reachable_kept (p : Portal) : reachable token p -> well_kept p.
Proof.
  induction 1 as [|p ev _ IH]; [apply well_kept_init|].
  apply portal_step_kept, IH.
Qed.

Lemma portal_run_reachable (p : Portal) (evs : list Event) :
  reachable token p -> reachable token (run token p evs).1.
Proof.
  revert p. induction evs as [|ev evs IH]; intros p Hp; [exact Hp|].
  cbn [run]. specialize (IH (step token p ev).1 (reachable_step token p ev Hp)).
  destruct (step token p ev) as [p1 out1]. cbn [fst] in IH.
  destruct (run token p1 evs) as [p2 out2]. exact IH.
Qed.

(** X13.  In every state the portal reaches: the mode is never ['upload']; the
    camera is shown exactly in the mode ['camera'], and then a type is
    selected; every document carries one of the document types of the
    select list, in particular a type that is not empty; and [isUploading]
    is set exactly while a submission runs, over documents that were not
    none. *)
Theorem X13_portal_invariant (p : Portal) :
  reachable token p ->
  mode p <> ModeUpload
  /\ (camera_shown p = true <-> mode p = ModeCamera)
  /\ Forall (fun d => type d ∈ DOCUMENT_TYPES /\ truthy (type d) = true) (documents p)
  /\ (isUploading p = true <-> exists docs, submitting p = Some docs /\ docs <> []).
Proof.
  intros Hr. destruct (portal_reachable_kept p Hr) as [H1 H2 H3 H4 H5 H6 H7 H8 H9].
  split; [exact H1|]. split; [|split].
  - unfold camera_shown. destruct (mode p); split; try discriminate; auto.
  - eapply Forall_impl; [exact H4|]. cbn. intros d Hd. split; [exact Hd|].
    apply listed_truthy, Hd.
  - rewrite H6. destruct (submitting p) as [docs|] eqn:Hs; cbn.
    + split; [intros _|reflexivity]. exists docs. split; [reflexivity|].
      apply (H9 docs eq_refl).
    + split; [discriminate|]. intros (docs & Hd & _). discriminate.
Qed.

End Portal.

Lemma X13_portal_invariant_witness :
  let p := (DocumentUploadPortal.run "t" DocumentUploadPortal.init
              [DocumentUploadPortal.SelectType "Passport";
               DocumentUploadPortal.ClickUseCamera;
               DocumentUploadPortal.CameraCapture "data:image/jpeg;base64,AAAA" "u1";
               DocumentUploadPortal.ClickSubmit]).1 in
  DocumentUploadPortal.mode p <> DocumentUploadPortal.ModeUpload
  /\ (DocumentUploadPortal.camera_shown p = true
      <-> DocumentUploadPortal.mode p = DocumentUploadPortal.ModeCamera)
  /\ Forall (fun d => DocumentUploadPortal.type d ∈ DocumentUploadPortal.DOCUMENT_TYPES
                      /\ DocumentUploadPortal.truthy (DocumentUploadPortal.type d) = true)
       (DocumentUploadPortal.documents p)
  /\ (DocumentUploadPortal.isUploading p = true
      <-> exists docs, DocumentUploadPortal.submitting p = Some docs /\ docs <> []).
Proof.
  apply (X13_portal_invariant "t").
  apply portal_run_reachable, DocumentUploadPortal.reachable_init.
Defined.

(** ** A submission *)

Section Submission.

Import DocumentUploadPortal PortalNotions.

Variable token : string.
Variable env : Env.

(** The actions and the outcome of the loop body do not depend on the
    store. *)
Lemma upload_document_attempt (k : nat) (doc : CapturedDocument) (store : list (option string)) :
  (upload_document token env k doc store).1.2 = attempt token env k doc
  /\ (upload_document token env k doc store).2 = thrown token env k doc.
Proof.
  unfold attempt, thrown, upload_document.
  destruct (fetch env k) as [r|e]; [|auto].
  destruct (ok r); [|auto]. cbn [negb].
  destruct (blob r) as [b|e]; [|auto].
  destruct (blob_size b =? 0); [auto|].
  destruct (upload env k) as [[m|]|e]; auto.
Qed.

Lemma upload_document_ok (k : nat) (doc : CapturedDocument) (store : list (option string)) :
  document_ok env k = true ->
  upload_document token env k doc store
  = (<[obj doc := Some (filePath token (now env k) (type doc))]> store,
     requests token env k doc, None).
Proof.
  unfold document_ok, upload_document, requests, fetched_blob.
  destruct (fetch env k) as [r|e]; [|discriminate].
  destruct (ok r); [|discriminate]. cbn [negb andb].
  destruct (blob r) as [b|e]; [|discriminate].
  destruct (blob_size b =? 0); [discriminate|]. cbn [negb andb].
  destruct (upload env k) as [[m|]|e]; try discriminate. reflexivity.
Qed.

(** A document that does not go through: the store is as before, the
    image was fetched, at most the upload was tried after that, and
    something is thrown. *)
Lemma upload_document_failed (k : nat) (doc : CapturedDocument) (store : list (option string)) :
  document_ok env k = false ->
  exists e,
    upload_document token env k doc store = (store, attempt token env k doc, Some e)
    /\ thrown token env k doc = Some e
    /\ (attempt token env k doc = [Fetch (imageData doc)]
        \/ exists path b ct,
             attempt token env k doc
             = [Fetch (imageData doc); StorageUpload "applicant-documents" path b ct false]).
Proof.
  unfold document_ok, attempt, thrown, upload_document.
  destruct (fetch env k) as [r|e]; [|eauto].
  destruct (ok r); [|eauto]. cbn [negb andb].
  destruct (blob r) as [b|e]; [|eauto].
  destruct (blob_size b =? 0); [eauto|]. cbn [negb andb].
  destruct (upload env k) as [[m|]|e]; try discriminate; intros _; eauto 10.
Qed.

Lemma upload_documents_ok (docs : list CapturedDocument) (k : nat) (store : list (option string)) :
  forallb (document_ok env) (seq k (length docs)) = true ->
  upload_documents token env k docs store
  = (stored token env k docs store, all_requests token env k docs, None).
Proof.
  revert k store. induction docs as [|doc docs IH]; intros k store Hok; [reflexivity|].
  cbn [length seq forallb] in Hok. apply andb_true_iff in Hok as [H1 H2].
  cbn [upload_documents]. rewrite (upload_document_ok k doc store H1).
  rewrite (IH (S k) _ H2). reflexivity.
Qed.

(** The loop stops at the first document that does not go through. *)
Lemma upload_documents_failed (docs : list CapturedDocument) (j : nat) (doc : CapturedDocument)
    (k : nat) (store : list (option string)) :
  docs !! j = Some doc ->
  forallb (document_ok env) (seq k j) = true ->
  document_ok env (k + j) = false ->
  exists e,
    thrown token env (k + j) doc = Some e
    /\ upload_documents token env k docs store
       = (stored token env k (take j docs) store,
          all_requests token env k (take j docs) ++ attempt token env (k + j) doc,
          Some e).
Proof.
  revert j k store. induction docs as [|d docs IH]; intros j k store Hj Hok Hbad;
    [discriminate|].
  destruct j as [|j].
  - injection Hj as ->. rewrite Nat.add_0_r in *.
    destruct (upload_document_failed k doc store Hbad) as (e & He & Ht & _).
    exists e. split; [exact Ht|]. cbn [upload_documents take stored all_requests app].
    rewrite He. reflexivity.
  - cbn [seq forallb] in Hok. apply andb_true_iff in Hok as [H1 H2].
    cbn in Hj. replace (k + S j)%nat with (S k + j)%nat in * by lia.
    destruct (IH j (S k) (<[obj d := Some (filePath token (now env k) (type d))]> store)
                Hj H2 Hbad) as (e & Ht & He).
    exists e. split; [exact Ht|].
    cbn [upload_documents take stored all_requests].
    rewrite (upload_document_ok k d store H1), He, app_assoc. reflexivity.
Qed.

(** The first document that does not go through, if there is one. *)
Lemma first_failure (n k : nat) :
  forallb (document_ok env) (seq k n) = false ->
  exists j, (j < n)%nat
    /\ forallb (document_ok env) (seq k j) = true
    /\ document_ok env (k + j) = false.
Proof.
  revert k. induction n as [|n IH]; intros k H; [discriminate|].
  cbn [seq forallb] in H. destruct (document_ok env k) eqn:Hk.
  - cbn in H. destruct (IH (S k) H) as (j & Hj & H1 & H2).
    exists (S j). split; [lia|]. split.
    + cbn [seq forallb]. rewrite Hk. exact H1.
    + replace (k + S j)%nat with (S k + j)%nat by lia. exact H2.
  - exists 0%nat. split; [lia|]. split; [reflexivity|].
    rewrite Nat.add_0_r. exact Hk.
Qed.

(** The store after the documents that went through: each of them has
    its path, and nothing else changed. *)
Lemma stored_other (docs : list CapturedDocument) (k : nat) (store : list (option string)) (a : nat) :
  a ∉ obj <$> docs -> stored token env k docs store !! a = store !! a.
Proof.
  revert k store. induction docs as [|d docs IH]; intros k store Ha; [reflexivity|].
  cbn [stored]. cbn in Ha. apply not_elem_of_cons in Ha as [Hne Ha].
  rewrite (IH _ _ Ha). apply list_lookup_insert_ne. congruence.
Qed.

Lemma length_stored (docs : list CapturedDocument) (k : nat) (store : list (option string)) :
  length (stored token env k docs store) = length store.
Proof.
  revert k store. induction docs as [|d docs IH]; intros k store; [reflexivity|].
  cbn [stored]. rewrite IH. apply length_insert.
Qed.

Lemma documents_uploaded_stored (docs : list CapturedDocument) (k : nat)
    (store : list (option string)) :
  NoDup (obj <$> docs) ->
  Forall (fun d => (obj d < length store)%nat) docs ->
  documents_uploaded env k docs (stored token env k docs store) = entries token env k docs.
Proof.
  revert k store. induction docs as [|d docs IH]; intros k store Hnd Hal; [reflexivity|].
  cbn in Hnd. apply NoDup_cons in Hnd as [Hd Hnd].
  apply Forall_cons in Hal as [Hd1 Hal].
  cbn [documents_uploaded entries stored]. f_equal.
  - unfold entry. f_equal.
    rewrite (stored_other docs (S k) _ (obj d) Hd).
    rewrite list_lookup_insert_eq by exact Hd1. reflexivity.
  - apply IH; [exact Hnd|].
    rewrite length_insert. exact Hal.
Qed.

Lemma all_requests_fetch_upload (docs : list CapturedDocument) (k : nat) :
  Forall (fun a => is_fetch a || is_upload a = true) (all_requests token env k docs).
Proof.
  revert k. induction docs as [|d docs IH]; intros k; [constructor|].
  cbn [all_requests]. apply Forall_app. split; [|apply IH].
  unfold requests. destruct (fetched_blob env k); repeat constructor.
Qed.

Lemma attempt_fetch_upload (k : nat) (doc : CapturedDocument) :
  Forall (fun a => is_fetch a || is_upload a = true) (attempt token env k doc).
Proof.
  unfold attempt, upload_document.
  destruct (fetch env k) as [r|e]; [|repeat constructor].
  destruct (ok r); [|repeat constructor]. cbn [negb].
  destruct (blob r) as [b|e]; [|repeat constructor].
  destruct (blob_size b =? 0); [repeat constructor|].
  destruct (upload env k) as [[m|]|e]; repeat constructor.
Qed.

(** What a submission does, in its two outcomes. *)
Lemma submit_documents_cases (docs : list CapturedDocument) (store : list (option string)) :
  NoDup (obj <$> docs) ->
  Forall (fun d => (obj d < length store)%nat) docs ->
  (documents_ok env (length docs) && update_ok env = true
   /\ submit_documents token env docs store
      = (stored token env 0 docs store,
         all_requests token env 0 docs
         ++ [TokenUpdate token (entries token env 0 docs) (iso env (length docs));
             success; OnComplete]))
  \/ (documents_ok env (length docs) && update_ok env = false
      /\ exists reqs e,
           (submit_documents token env docs store).2 = reqs ++ [upload_failed e]
           /\ Forall (fun a => is_fetch a || is_upload a || is_update a = true) reqs).
Proof.
  intros Hnd Hal. unfold submit_documents, documents_ok.
  destruct (forallb (document_ok env) (seq 0 (length docs))) eqn:Hok.
  - rewrite (upload_documents_ok docs 0 store Hok).
    rewrite (documents_uploaded_stored docs 0 store Hnd Hal).
    unfold update_ok. destruct (update env) as [[m|]|e].
    + right. split; [reflexivity|]. eexists _, _. rewrite app_assoc.
      split; [reflexivity|]. apply Forall_app. split.
      * eapply Forall_impl; [apply all_requests_fetch_upload|].
        cbn. intros a ->. reflexivity.
      * repeat constructor.
    + left. split; reflexivity.
    + right. split; [reflexivity|]. eexists _, _. rewrite app_assoc.
      split; [reflexivity|]. apply Forall_app. split.
      * eapply Forall_impl; [apply all_requests_fetch_upload|].
        cbn. intros a ->. reflexivity.
      * repeat constructor.
  - right. split; [reflexivity|].
    destruct (first_failure _ _ Hok) as (j & Hj & H1 & H2).
    destruct (lookup_lt_is_Some_2 docs j Hj) as [doc Hdoc].
    destruct (upload_documents_failed docs j doc 0 store Hdoc H1 H2) as (e & _ & ->).
    eexists _, e. split; [reflexivity|]. apply Forall_app. split.
    + eapply Forall_impl; [apply all_requests_fetch_upload|].
      cbn. intros a ->. reflexivity.
    + eapply Forall_impl; [apply attempt_fetch_upload|].
      cbn. intros a ->. reflexivity.
Qed.

Lemma filter_toast_requests (reqs : list Action) (a : Action) :
  Forall (fun a => is_fetch a || is_upload a || is_update a = true) reqs ->
  List.filter is_toast (reqs ++ [a]) = List.filter is_toast [a]
  /\ ~ In OnComplete reqs.
Proof.
  induction 1 as [|r reqs Hr _ [IH1 IH2]]; [split; [reflexivity|intros []]|].
  split.
  - cbn [app List.filter]. destruct r; try discriminate Hr; exact IH1.
  - intros [->|Hin]; [discriminate Hr|exact (IH2 Hin)].
Qed.

(** X19.  The caller is told that the submission is complete exactly when every
    document went through and the update of the token succeeded.  Then the
    documents were fetched and uploaded one after the other, in their
    order, each to the path of its token, type and time, the token was
    updated with the type and the path of each document, and the success
    toast was shown; every document object then carries its path.  In
    both outcomes exactly one toast is shown, the destructive
    "Upload Failed" one when the submission is not complete. *)
Theorem X19_submission_outcome (docs : list CapturedDocument) (store : list (option string)) :
  NoDup (obj <$> docs) ->
  Forall (fun d => (obj d < length store)%nat) docs ->
  let acts := (submit_documents token env docs store).2 in
  (In OnComplete acts <-> documents_ok env (length docs) && update_ok env = true)
  /\ (documents_ok env (length docs) && update_ok env = true ->
      submit_documents token env docs store
      = (stored token env 0 docs store,
         all_requests token env 0 docs
         ++ [TokenUpdate token (entries token env 0 docs) (iso env (length docs));
             success; OnComplete]))
  /\ (exists toast, List.filter is_toast acts = [toast]
       /\ (toast = success \/ exists e, toast = upload_failed e)
       /\ (toast = success <-> In OnComplete acts)).
Proof.
  intros Hnd Hal. cbv zeta.
  destruct (submit_documents_cases docs store Hnd Hal)
    as [[Hok Heq]|[Hok (reqs & e & Heq & Hreqs)]]; rewrite Hok.
  - rewrite Heq. cbn [snd].
    assert (Forall (fun a => is_fetch a || is_upload a || is_update a = true)
              (all_requests token env 0 docs
               ++ [TokenUpdate token (entries token env 0 docs) (iso env (length docs))]))
      as Hf.
    { apply Forall_app. split; [|repeat constructor].
      eapply Forall_impl; [apply all_requests_fetch_upload|]. cbn. intros a ->. reflexivity. }
    assert (In OnComplete
              (all_requests token env 0 docs
               ++ [TokenUpdate token (entries token env 0 docs) (iso env (length docs));
                   success; OnComplete])) as Hin.
    { apply in_or_app. right. cbn. auto. }
    split; [split; auto|]. split; [reflexivity|].
    exists success. split.
    + change [TokenUpdate token (entries token env 0 docs) (iso env (length docs));
              success; OnComplete]
        with ([TokenUpdate token (entries token env 0 docs) (iso env (length docs))]
              ++ [success] ++ [OnComplete]).
      rewrite !app_assoc, List.filter_app.
      rewrite (proj1 (filter_toast_requests _ success Hf)). reflexivity.
    + split; [left; reflexivity|]. split; auto.
  - rewrite Heq.
    destruct (filter_toast_requests reqs (upload_failed e) Hreqs) as [Hft Hnc].
    assert (~ In OnComplete (reqs ++ [upload_failed e])) as Hn.
    { intros [H|[H|[]]]%in_app_or; [exact (Hnc H)|discriminate H]. }
    split; [split; [intros H; destruct (Hn H)|discriminate]|].
    split; [discriminate|].
    exists (upload_failed e). split; [exact Hft|]. split; [right; eauto|].
    split; [discriminate|intros H; destruct (Hn H)].
Qed.

(** X20.  When the [j]-th document is the first that does not go through, the
    submission stops there: the documents before it were fetched and
    uploaded and keep their paths, without any roll-back; the image of the
    [j]-th was fetched and at most its upload tried; no later document is
    touched, the token is not updated, the caller is not told, and the
    "Upload Failed" toast carries the message of what was thrown. *)
Theorem X20_submission_stops_at_failure (docs : list CapturedDocument) (j : nat)
    (doc : CapturedDocument) (store : list (option string)) :
  docs !! j = Some doc ->
  documents_ok env j = true ->
  document_ok env j = false ->
  exists e,
    thrown token env j doc = Some e
    /\ submit_documents token env docs store
       = (stored token env 0 (take j docs) store,
          all_requests token env 0 (take j docs) ++ attempt token env j doc
          ++ [upload_failed e])
    /\ (attempt token env j doc = [Fetch (imageData doc)]
        \/ exists path b ct,
             attempt token env j doc
             = [Fetch (imageData doc); StorageUpload "applicant-documents" path b ct false]).
Proof.
  intros Hdoc Hok Hbad.
  destruct (upload_documents_failed docs j doc 0 store Hdoc Hok Hbad) as (e & Ht & He).
  destruct (upload_document_failed j doc store Hbad) as (e' & _ & Ht' & Hat).
  exists e. split; [exact Ht|]. split; [|exact Hat].
  unfold submit_documents. rewrite He, <- app_assoc. reflexivity.
Qed.

End Submission.

Lemma X19_submission_outcome_witness :
  let docs := [PortalExamples.passport; PortalExamples.address] in
  let acts := (DocumentUploadPortal.submit_documents "t" PortalExamples.fine docs
                 [None; None]).2 in
  (In DocumentUploadPortal.OnComplete acts
   <-> PortalNotions.documents_ok PortalExamples.fine (length docs)
       && PortalNotions.update_ok PortalExamples.fine = true)
  /\ (PortalNotions.documents_ok PortalExamples.fine (length docs)
      && PortalNotions.update_ok PortalExamples.fine = true ->
      DocumentUploadPortal.submit_documents "t" PortalExamples.fine docs [None; None]
      = (PortalNotions.stored "t" PortalExamples.fine 0 docs [None; None],
         PortalNotions.all_requests "t" PortalExamples.fine 0 docs
         ++ [DocumentUploadPortal.TokenUpdate "t"
               (PortalNotions.entries "t" PortalExamples.fine 0 docs)
               (DocumentUploadPortal.iso PortalExamples.fine (length docs));
             PortalNotions.success; DocumentUploadPortal.OnComplete]))
  /\ (exists toast, List.filter PortalNotions.is_toast acts = [toast]
       /\ (toast = PortalNotions.success \/ exists e, toast = PortalNotions.upload_failed e)
       /\ (toast = PortalNotions.success <-> In DocumentUploadPortal.OnComplete acts)).
Proof.
  apply (X19_submission_outcome "t" PortalExamples.fine
           [PortalExamples.passport; PortalExamples.address] [None; None]).
  - cbn. apply NoDup_cons_2; [|apply NoDup_singleton].
    intros [= ]%list_elem_of_singleton.
  - repeat constructor; cbn; lia.
Defined.

Lemma X20_submission_stops_at_failure_witness :
  let docs := [PortalExamples.passport; PortalExamples.address] in
  exists e,
    PortalNotions.thrown "t" PortalExamples.refused 1 PortalExamples.address = Some e
    /\ DocumentUploadPortal.submit_documents "t" PortalExamples.refused docs [None; None]
       = (PortalNotions.stored "t" PortalExamples.refused 0 (take 1 docs) [None; None],
          PortalNotions.all_requests "t" PortalExamples.refused 0 (take 1 docs)
          ++ PortalNotions.attempt "t" PortalExamples.refused 1 PortalExamples.address
          ++ [PortalNotions.upload_failed e])
    /\ (PortalNotions.attempt "t" PortalExamples.refused 1 PortalExamples.address
        = [DocumentUploadPortal.Fetch (DocumentUploadPortal.imageData PortalExamples.address)]
        \/ exists path b ct,
             PortalNotions.attempt "t" PortalExamples.refused 1 PortalExamples.address
             = [DocumentUploadPortal.Fetch
                  (DocumentUploadPortal.imageData PortalExamples.address);
                DocumentUploadPortal.StorageUpload "applicant-documents" path b ct false]).
Proof.
  apply (X20_submission_stops_at_failure "t" PortalExamples.refused
           [PortalExamples.passport; PortalExamples.address] 1 PortalExamples.address
           [None; None]); reflexivity.
Defined.

(** ** The handlers of the portal *)

Section PortalEvents.

Import DocumentUploadPortal PortalNotions.

Variable token : string.

Lemma submit_documents_no_guard_toast (env : Env) (docs : list CapturedDocument)
    (store : list (option string)) :
  Forall (fun a => a <> no_documents) (submit_documents token env docs store).2.
Proof.
  assert (forall l, Forall (fun a => is_fetch a || is_upload a = true) l ->
                    Forall (fun a => a <> no_documents) l) as Hfu.
  { intros l Hl. eapply Forall_impl; [exact Hl|]. cbn. intros a Ha ->. discriminate Ha. }
  unfold submit_documents.
  destruct (forallb (document_ok env) (seq 0 (length docs))) eqn:Hok.
  - rewrite (upload_documents_ok token env docs 0 store Hok).
    destruct (update env) as [[m|]|e]; cbn [snd];
      (apply Forall_app; split; [apply Hfu, all_requests_fetch_upload|]);
      repeat constructor; discriminate.
  - destruct (first_failure env _ _ Hok) as (j & Hj & H1 & H2).
    destruct (lookup_lt_is_Some_2 docs j Hj) as [doc Hdoc].
    destruct (upload_documents_failed token env docs j doc 0 store Hdoc H1 H2) as (e & _ & ->).
    cbn [snd]. repeat (apply Forall_app; split).
    + apply Hfu, all_requests_fetch_upload.
    + apply Hfu, attempt_fetch_upload.
    + repeat constructor. discriminate.
Qed.

(** X14.  The guard of [handleSubmit] against an empty list is dead code: the
    submit button is rendered with the card of the documents only, so that
    no event, in any state, brings up the "No Documents" toast. *)
Theorem X14_no_documents_toast_unreachable (p : Portal) (ev : Event) :
  ~ In no_documents (step token p ev).2.
Proof.
  assert (forall l, Forall (fun a => a <> no_documents) l -> ~ In no_documents l) as Hin.
  { intros l Hl H. rewrite Forall_forall in Hl.
    apply (Hl no_documents); [apply list_elem_of_In; exact H|reflexivity]. }
  apply Hin.
  destruct ev as [value| |file|k| |img uuid| |k result uuid|env]; cbn [step].
  - destruct (_ && _); constructor.
  - destruct (_ && _); constructor.
  - destruct (_ && _); [|constructor]. unfold handleFileUpload.
    destruct file as [f|]; [|constructor].
    destruct (negb _); [constructor|].
    destruct (_ <? _); repeat constructor; discriminate.
  - destruct (negb _); [|constructor]. destruct (_ !! _); constructor.
  - destruct (_ && _); [|constructor].
    destruct (documents p) as [|d ds] eqn:Hd; [constructor|].
    unfold handleSubmit. rewrite Hd. constructor.
  - destruct (camera_shown p); [|constructor]. unfold handleCameraCapture.
    destruct (negb _); repeat constructor; discriminate.
  - destruct (camera_shown p); constructor.
  - unfold reader_onload. destruct (_ !! _); repeat constructor; discriminate.
  - unfold submit_settled. destruct (submitting p) as [docs|]; [|constructor].
    pose proof (submit_documents_no_guard_toast env docs (uploadedUrl p)) as H.
    destruct (submit_documents token env docs (uploadedUrl p)) as [store acts]. exact H.
Qed.

(** ** Deleting a document *)

Lemma filter_id_delete (docs : list CapturedDocument) (k : nat) (doc : CapturedDocument) :
  NoDup (id <$> docs) ->
  docs !! k = Some doc ->
  List.filter (fun d => negb (String.eqb (id d) (id doc))) docs = delete k docs.
Proof.
  revert k. induction docs as [|d docs IH]; intros k Hnd Hk; [discriminate|].
  cbn in Hnd. apply NoDup_cons in Hnd as [Hd Hnd]. destruct k as [|k].
  - injection Hk as ->. cbn. rewrite String.eqb_refl. cbn.
    clear IH Hnd. induction docs as [|d docs IH]; [reflexivity|].
    cbn in Hd. apply not_elem_of_cons in Hd as [Hne Hd]. cbn.
    destruct (String.eqb_spec (id d) (id doc)) as [Heq|_]; [congruence|].
    cbn. f_equal. apply IH, Hd.
  - cbn in Hk. cbn.
    destruct (String.eqb_spec (id d) (id doc)) as [Heq|_].
    + exfalso. apply Hd. rewrite Heq. apply list_elem_of_fmap.
      exists doc. split; [reflexivity|]. eapply list_elem_of_lookup_2, Hk.
    + cbn. f_equal. apply IH; assumption.
Qed.

(** X15.  The delete button of a document removes the documents that have its
    identifier, and keeps the others in their order; nothing else changes.
    When the identifiers of the documents are distinct, that is the
    document of the button alone. *)
Theorem X15_delete_document (p : Portal) (k : nat) (doc : CapturedDocument) :
  camera_shown p = false ->
  documents p !! k = Some doc ->
  let p' := (step token p (ClickDelete k)).1 in
  documents p' = List.filter (fun d => negb (String.eqb (id d) (id doc))) (documents p)
  /\ Forall (fun d => id d <> id doc) (documents p')
  /\ (NoDup (id <$> documents p) -> documents p' = delete k (documents p))
  /\ (mode p', selectedType p', isUploading p', submitting p')
     = (mode p, selectedType p, isUploading p, submitting p)
  /\ (step token p (ClickDelete k)).2 = [].
Proof.
  intros Hcam Hk. cbv zeta. cbn [step]. rewrite Hcam, Hk. cbn.
  split; [reflexivity|]. split; [|split; [|split; reflexivity]].
  - apply Forall_forall. intros d Hd. apply list_elem_of_In, filter_In in Hd as [_ Hd].
    destruct (String.eqb_spec (id d) (id doc)); [discriminate|assumption].
  - intros Hnd. apply filter_id_delete; assumption.
Qed.

End PortalEvents.

Lemma X15_delete_document_witness :
  let p := {| DocumentUploadPortal.mode := DocumentUploadPortal.ModeSelect;
              DocumentUploadPortal.selectedType := "";
              DocumentUploadPortal.documents := [PortalExamples.passport; PortalExamples.address];
              DocumentUploadPortal.isUploading := false;
              DocumentUploadPortal.uploadedUrl := [None; None];
              DocumentUploadPortal.readers := [];
              DocumentUploadPortal.submitting := None |} in
  let p' := (DocumentUploadPortal.step "t" p (DocumentUploadPortal.ClickDelete 0)).1 in
  DocumentUploadPortal.documents p'
  = List.filter (fun d => negb (String.eqb (DocumentUploadPortal.id d)
                                  (DocumentUploadPortal.id PortalExamples.passport)))
      (DocumentUploadPortal.documents p)
  /\ Forall (fun d => DocumentUploadPortal.id d
                      <> DocumentUploadPortal.id PortalExamples.passport)
       (DocumentUploadPortal.documents p')
  /\ (NoDup (DocumentUploadPortal.id <$> DocumentUploadPortal.documents p) ->
      DocumentUploadPortal.documents p' = delete 0%nat (DocumentUploadPortal.documents p))
  /\ (DocumentUploadPortal.mode p', DocumentUploadPortal.selectedType p',
      DocumentUploadPortal.isUploading p', DocumentUploadPortal.submitting p')
     = (DocumentUploadPortal.mode p, DocumentUploadPortal.selectedType p,
        DocumentUploadPortal.isUploading p, DocumentUploadPortal.submitting p)
  /\ (DocumentUploadPortal.step "t" p (DocumentUploadPortal.ClickDelete 0)).2 = [].
Proof.
  intros p. apply (X15_delete_document "t" p 0 PortalExamples.passport); reflexivity.
Defined.

(** ** Files *)

Section PortalFiles.

Import DocumentUploadPortal PortalNotions.

Variable token : string.

(** X16.  The size limit of a chosen file: a file of more than 10485760 bytes
    is refused with the "File Too Large" toast and nothing else happens,
    so that it never becomes a document; a file of up to 10485760 bytes is
    read, and the state hooks stay as they are until it is loaded. *)
Theorem X16_file_size_limit (p : Portal) (f : File) :
  camera_shown p = false ->
  truthy (selectedType p) = true ->
  (10485760 < size f ->
   step token p (ChooseFile (Some f))
   = (p, [Toast "File Too Large" "Maximum file size is 10MB." Destructive]))
  /\ (size f <= 10485760 ->
      (step token p (ChooseFile (Some f))).2 = [ReadAsDataURL f]
      /\ readers (step token p (ChooseFile (Some f))).1 = readers p ++ [selectedType p]
      /\ documents (step token p (ChooseFile (Some f))).1 = documents p
      /\ mode (step token p (ChooseFile (Some f))).1 = mode p
      /\ selectedType (step token p (ChooseFile (Some f))).1 = selectedType p).
Proof.
  intros Hcam Ht. cbn [step]. rewrite Hcam, Ht. cbn [negb andb].
  unfold handleFileUpload. rewrite Ht. cbn [negb].
  change max_file_size with 10485760.
  destruct (Z.ltb_spec 10485760 (size f)); split; intros Hs; try lia; cbn; auto.
Qed.

(** X17.  The document of a file gets the type that was selected when the file
    was chosen, not the one selected when it is loaded: with a type
    selected, choose a file, select another type, and let the file load;
    the new document, the last of the list, has the first type and the
    loaded data, and the selection is cleared. *)
Theorem X17_file_type_at_choice (p : Portal) (f : File) (value result uuid : string) :
  camera_shown p = false ->
  truthy (selectedType p) = true ->
  size f <= 10485760 ->
  value ∈ DOCUMENT_TYPES ->
  let evs := [ChooseFile (Some f); SelectType value;
              ReaderLoad (length (readers p)) result uuid] in
  documents (run token p evs).1
  = documents p ++ [{| obj := length (uploadedUrl p); id := uuid;
                       type := selectedType p; imageData := result |}]
  /\ selectedType (run token p evs).1 = ""%string
  /\ mode (run token p evs).1 = ModeSelect
  /\ readers (run token p evs).1 = readers p
  /\ (run token p evs).2
     = [ReadAsDataURL f;
        Toast "Document Added" (selectedType p ++ " has been added successfully.") Default].
Proof.
  intros Hcam Ht Hs Hv. cbv zeta. cbn [run step].
  rewrite Hcam, Ht. cbn [negb andb]. unfold handleFileUpload. rewrite Ht. cbn [negb].
  change max_file_size with 10485760.
  destruct (Z.ltb_spec 10485760 (size f)); [lia|].
  assert (existsb (String.eqb value) DOCUMENT_TYPES = true) as Hex.
  { apply existsb_exists. exists value. split; [apply list_elem_of_In, Hv|].
    apply String.eqb_refl. }
  unfold camera_shown in *. cbn [mode selectedType]. rewrite Hex.
  assert (negb match mode p with ModeCamera => truthy (selectedType p) | _ => false end = true)
    as Hc by (rewrite Hcam; reflexivity).
  rewrite Ht in Hc. rewrite Ht. destruct (mode p) eqn:Hm; try discriminate Hc;
    cbn; unfold reader_onload; cbn;
    rewrite lookup_app_r, Nat.sub_diag by lia; cbn;
    rewrite delete_middle by reflexivity; rewrite app_nil_r; auto.
Qed.

End PortalFiles.

Lemma X16_file_size_limit_witness :
  let p := (DocumentUploadPortal.step "t" DocumentUploadPortal.init
              (DocumentUploadPortal.SelectType "Passport")).1 in
  let f := {| DocumentUploadPortal.size := 10485760 |} in
  (10485760 < DocumentUploadPortal.size f ->
   DocumentUploadPortal.step "t" p (DocumentUploadPortal.ChooseFile (Some f))
   = (p, [DocumentUploadPortal.Toast "File Too Large" "Maximum file size is 10MB."
            DocumentUploadPortal.Destructive]))
  /\ (DocumentUploadPortal.size f <= 10485760 ->
      (DocumentUploadPortal.step "t" p (DocumentUploadPortal.ChooseFile (Some f))).2
      = [DocumentUploadPortal.ReadAsDataURL f]
      /\ DocumentUploadPortal.readers
           (DocumentUploadPortal.step "t" p (DocumentUploadPortal.ChooseFile (Some f))).1
         = DocumentUploadPortal.readers p ++ [DocumentUploadPortal.selectedType p]
      /\ DocumentUploadPortal.documents
           (DocumentUploadPortal.step "t" p (DocumentUploadPortal.ChooseFile (Some f))).1
         = DocumentUploadPortal.documents p
      /\ DocumentUploadPortal.mode
           (DocumentUploadPortal.step "t" p (DocumentUploadPortal.ChooseFile (Some f))).1
         = DocumentUploadPortal.mode p
      /\ DocumentUploadPortal.selectedType
           (DocumentUploadPortal.step "t" p (DocumentUploadPortal.ChooseFile (Some f))).1
         = DocumentUploadPortal.selectedType p).
Proof.
  intros p f. apply (X16_file_size_limit "t" p f); reflexivity.
Defined.

Lemma X17_file_type_at_choice_witness :
  let p := (DocumentUploadPortal.step "t" DocumentUploadPortal.init
              (DocumentUploadPortal.SelectType "Passport")).1 in
  let f := {| DocumentUploadPortal.size := 2048 |} in
  let evs := [DocumentUploadPortal.ChooseFile (Some f);
              DocumentUploadPortal.SelectType "Other";
              DocumentUploadPortal.ReaderLoad
                (length (DocumentUploadPortal.readers p)) "data:image/png;base64,CCCC" "u3"] in
  DocumentUploadPortal.documents (DocumentUploadPortal.run "t" p evs).1
  = DocumentUploadPortal.documents p
    ++ [{| DocumentUploadPortal.obj := length (DocumentUploadPortal.uploadedUrl p);
           DocumentUploadPortal.id := "u3";
           DocumentUploadPortal.type := DocumentUploadPortal.selectedType p;
           DocumentUploadPortal.imageData := "data:image/png;base64,CCCC" |}]
  /\ DocumentUploadPortal.selectedType (DocumentUploadPortal.run "t" p evs).1 = ""%string
  /\ DocumentUploadPortal.mode (DocumentUploadPortal.run "t" p evs).1
     = DocumentUploadPortal.ModeSelect
  /\ DocumentUploadPortal.readers (DocumentUploadPortal.run "t" p evs).1
     = DocumentUploadPortal.readers p
  /\ (DocumentUploadPortal.run "t" p evs).2
     = [DocumentUploadPortal.ReadAsDataURL f;
        DocumentUploadPortal.Toast "Document Added"
          (DocumentUploadPortal.selectedType p ++ " has been added successfully.")
          DocumentUploadPortal.Default].
Proof.
  intros p f.
  apply (X17_file_type_at_choice "t" p f "Other" "data:image/png;base64,CCCC" "u3");
    [reflexivity|reflexivity|cbn; lia|].
  unfold DocumentUploadPortal.DOCUMENT_TYPES. do 8 right. left.
Defined.

(** ** A submission in flight *)

Section PortalSubmitting.

Import DocumentUploadPortal PortalNotions.

Variable token : string.

(** What a submission does does not depend on the store it starts
    from. *)
Lemma submit_documents_store (env : Env) (docs : list CapturedDocument)
    (s1 s2 : list (option string)) :
  NoDup (obj <$> docs) ->
  Forall (fun d => (obj d < length s1)%nat) docs ->
  Forall (fun d => (obj d < length s2)%nat) docs ->
  (submit_documents token env docs s1).2 = (submit_documents token env docs s2).2.
Proof.
  intros Hnd H1 H2. unfold submit_documents.
  destruct (forallb (document_ok env) (seq 0 (length docs))) eqn:Hok.
  - rewrite !(upload_documents_ok token env docs 0 _ Hok).
    rewrite !(documents_uploaded_stored token env docs 0 _ Hnd) by assumption.
    destruct (update env) as [[m|]|e]; reflexivity.
  - destruct (first_failure env _ _ Hok) as (j & Hj & Hj1 & Hj2).
    destruct (lookup_lt_is_Some_2 docs j Hj) as [doc Hdoc].
    destruct (upload_documents_failed token env docs j doc 0 s1 Hdoc Hj1 Hj2) as (e & He & ->).
    destruct (upload_documents_failed token env docs j doc 0 s2 Hdoc Hj1 Hj2) as (e' & He' & ->).
    replace e' with e by congruence. reflexivity.
Qed.

Lemma step_submitting (p : Portal) (ev : Event) (docs : list CapturedDocument) :
  well_kept p ->
  submitting p = Some docs ->
  is_submit_settled ev = false ->
  submitting (step token p ev).1 = Some docs.
Proof.
  intros Hp Hs Hev. pose proof (uploading_submitting p Hp) as Hu. rewrite Hs in Hu. cbn in Hu.
  destruct ev as [value| |file|k| |img uuid| |k result uuid|env]; cbn [step];
    try discriminate Hev.
  - destruct (_ && _); exact Hs.
  - destruct (_ && _); exact Hs.
  - destruct (_ && _); [|exact Hs]. unfold handleFileUpload.
    destruct file as [f|]; [|exact Hs]. destruct (negb _); [exact Hs|].
    destruct (_ <? _); exact Hs.
  - destruct (negb _); [|exact Hs]. destruct (_ !! _); exact Hs.
  - rewrite Hu, andb_false_r. exact Hs.
  - destruct (camera_shown p); [|exact Hs]. unfold handleCameraCapture.
    destruct (negb _); exact Hs.
  - destruct (camera_shown p); exact Hs.
  - unfold reader_onload. destruct (_ !! _); exact Hs.
Qed.

Lemma run_submitting (evs : list Event) (p : Portal) (docs : list CapturedDocument) :
  well_kept p ->
  submitting p = Some docs ->
  forallb (fun ev => negb (is_submit_settled ev)) evs = true ->
  well_kept (run token p evs).1 /\ submitting (run token p evs).1 = Some docs.
Proof.
  revert p. induction evs as [|ev evs IH]; intros p Hp Hs Hevs; [split; assumption|].
  cbn [forallb] in Hevs. apply andb_true_iff in Hevs as [Hev Hevs].
  apply negb_true_iff in Hev. cbn [run].
  pose proof (portal_step_kept token p ev Hp) as Hp1.
  pose proof (step_submitting p ev docs Hp Hs Hev) as Hs1.
  destruct (step token p ev) as [p1 out1]. cbn [fst] in *.
  specialize (IH p1 Hp1 Hs1 Hevs). destruct (run token p1 evs) as [p2 out2]. exact IH.
Qed.

(** X18.  A submission works on the documents that were there when the submit
    button was clicked: whatever is captured, added or deleted while it is
    in flight, it does what it would have done had it been settled at
    once, and a submit button clicked meanwhile does nothing. *)
Theorem X18_submission_snapshot (p : Portal) (evs : list Event) (env : Env) :
  reachable token p ->
  camera_shown p = false ->
  isUploading p = false ->
  documents p <> [] ->
  forallb (fun ev => negb (is_submit_settled ev)) evs = true ->
  let p' := (run token p (ClickSubmit :: evs)).1 in
  (step token p' (SubmitSettled env)).2
  = (submit_documents token env (documents p) (uploadedUrl p)).2
  /\ isUploading p' = true
  /\ isUploading (step token p' (SubmitSettled env)).1 = false
  /\ step token p' ClickSubmit = (p', []).
Proof.
  intros Hr Hcam Hu Hd Hevs. cbv zeta. pose proof (portal_reachable_kept token p Hr) as Hp.
  cbn [run]. pose proof (portal_step_kept token p ClickSubmit Hp) as Hp1.
  assert (submitting (step token p ClickSubmit).1 = Some (documents p)
          /\ uploadedUrl (step token p ClickSubmit).1 = uploadedUrl p) as [Hs1 Hst1].
  { cbn [step]. rewrite Hcam, Hu. cbn [negb andb]. unfold handleSubmit.
    destruct (documents p); [contradiction|]. split; reflexivity. }
  destruct (step token p ClickSubmit) as [p1 out1]. cbn [fst] in *.
  destruct (run_submitting evs p1 (documents p) Hp1 Hs1 Hevs) as [Hp2 Hs2].
  destruct (run token p1 evs) as [p2 out2]. cbn [fst] in *.
  pose proof (uploading_submitting p2 Hp2) as Hu2. rewrite Hs2 in Hu2. cbn in Hu2.
  destruct (submitting_kept p2 Hp2 _ Hs2) as (_ & _ & Hal2 & Hnd).
  destruct (submitting_kept p1 Hp1 _ Hs1) as (_ & _ & Hal1 & _). rewrite Hst1 in Hal1.
  split; [|split; [exact Hu2|split]].
  - cbn [step]. unfold submit_settled. rewrite Hs2.
    rewrite <- (submit_documents_store env (documents p) (uploadedUrl p2) (uploadedUrl p))
      by assumption.
    destruct (submit_documents token env (documents p) (uploadedUrl p2)). reflexivity.
  - cbn [step]. unfold submit_settled. rewrite Hs2.
    destruct (submit_documents token env (documents p) (uploadedUrl p2)). reflexivity.
  - cbn [step]. rewrite Hu2, andb_false_r. reflexivity.
Qed.

End PortalSubmitting.

Lemma X18_submission_snapshot_witness :
  let p := (DocumentUploadPortal.run "t" DocumentUploadPortal.init
              [DocumentUploadPortal.SelectType "Passport";
               DocumentUploadPortal.ClickUseCamera;
               DocumentUploadPortal.CameraCapture "data:image/jpeg;base64,AAAA" "u1"]).1 in
  let evs := [DocumentUploadPortal.ClickDelete 0; DocumentUploadPortal.ClickSubmit] in
  let p' := (DocumentUploadPortal.run "t" p (DocumentUploadPortal.ClickSubmit :: evs)).1 in
  (DocumentUploadPortal.step "t" p' (DocumentUploadPortal.SubmitSettled PortalExamples.fine)).2
  = (DocumentUploadPortal.submit_documents "t" PortalExamples.fine
       (DocumentUploadPortal.documents p) (DocumentUploadPortal.uploadedUrl p)).2
  /\ DocumentUploadPortal.isUploading p' = true
  /\ DocumentUploadPortal.isUploading
       (DocumentUploadPortal.step "t" p'
          (DocumentUploadPortal.SubmitSettled PortalExamples.fine)).1 = false
  /\ DocumentUploadPortal.step "t" p' DocumentUploadPortal.ClickSubmit = (p', []).
Proof.
  intros p evs.
  apply (X18_submission_snapshot "t" p evs PortalExamples.fine);
    [apply portal_run_reachable, DocumentUploadPortal.reachable_init
    |reflexivity|reflexivity|discriminate|reflexivity].
Defined.

(** ** The name of an uploaded file *)

Section FileNames.

Import DocumentUploadPortal PortalNotions.

Lemma replace_spaces_no_space (s : string) (in_run : bool) :
  Forall (fun c => is_space c = false) (list_ascii_of_string (replace_spaces in_run s)).
Proof.
  revert in_run. induction s as [|c s IH]; intros in_run; [constructor|].
  cbn [replace_spaces]. destruct (is_space c) eqn:Hc.
  - destruct in_run; [apply IH|]. cbn. constructor; [reflexivity|apply IH].
  - cbn. constructor; [exact Hc|apply IH].
Qed.

Lemma replace_spaces_id (s : string) (in_run : bool) :
  Forall (fun c => is_space c = false) (list_ascii_of_string s) ->
  replace_spaces in_run s = s.
Proof.
  revert in_run. induction s as [|c s IH]; intros in_run H; [reflexivity|].
  cbn in H. apply Forall_cons in H as [Hc H]. cbn [replace_spaces]. rewrite Hc.
  f_equal. apply IH, H.
Qed.

(** X21.  In the name of an uploaded file no white space of the document type
    is left, every run of it having become one underscore; a type without
    white space is kept as it is, so that replacing twice is replacing
    once; and these are the names the document types of the select list
    get, while the folder of the path keeps the type as it is. *)
Theorem X21_file_name (ty : string) :
  Forall (fun c => is_space c = false) (list_ascii_of_string (replace_spaces false ty))
  /\ (Forall (fun c => is_space c = false) (list_ascii_of_string ty) ->
      replace_spaces false ty = ty)
  /\ replace_spaces false (replace_spaces false ty) = replace_spaces false ty
  /\ replace_spaces false <$> DOCUMENT_TYPES
     = ["Passport"; "National_ID_Card"; "Driving_License"; "Proof_of_Address";
        "Birth_Certificate"; "Right_to_Work_Document"; "DBS_Certificate";
        "Qualification_Certificate"; "Other"]%string
  /\ filePath "t" 1763561889000 "Proof  of Address"
     = "t/Proof  of Address/1763561889000_Proof_of_Address.jpg"%string.
Proof.
  split; [apply replace_spaces_no_space|]. split; [apply replace_spaces_id|].
  split; [apply replace_spaces_id, replace_spaces_no_space|]. split; reflexivity.
Qed.

End FileNames.

(** ** The camera in the portal *)

Section CameraInPortal.

Import DocumentUploadPortal PortalNotions.

Variable token : string.

(** X22.  Capture and confirm in the camera, with the portal showing it: the
    portal gets one new document, the last of its list, whose image is the
    still the scanner captured from the video at the click on the capture
    control and whose type is the selected one; the portal then leaves the
    camera and clears the selection. *)
Theorem X22_captured_document (v v' : Video) (st : DocumentCaptureCamera.State)
    (p : Portal) (uuid : string) :
  DocumentCaptureCamera.consistent st ->
  DocumentCaptureCamera.session st = DocumentCaptureCamera.Scanning ->
  DocumentCaptureCamera.capture_permitted st = true ->
  camera_shown p = true ->
  let out := (DocumentCaptureCamera.run st
                [(v, DocumentCaptureCamera.Click DocumentCaptureCamera.Capture);
                 (v', DocumentCaptureCamera.Click DocumentCaptureCamera.Confirm)]).2 in
  camera_events out [uuid] = [CameraCapture (Scanner.captureImage v) uuid]
  /\ run token p (camera_events out [uuid])
     = (add_document (selectedType p) (Scanner.captureImage v) uuid p,
        [Toast "Document Captured" (selectedType p ++ " has been captured successfully.")
           Default])
  /\ camera_shown (run token p (camera_events out [uuid])).1 = false.
Proof.
  intros Hc Hs Hp Hcam. cbv zeta.
  assert ((DocumentCaptureCamera.run st
             [(v, DocumentCaptureCamera.Click DocumentCaptureCamera.Capture);
              (v', DocumentCaptureCamera.Click DocumentCaptureCamera.Confirm)]).2
          = [DocumentCaptureCamera.CaptureImage (Scanner.captureImage v);
             DocumentCaptureCamera.ClearInterval;
             DocumentCaptureCamera.OnCapture (Scanner.captureImage v)]) as ->.
  { unfold DocumentCaptureCamera.consistent in Hc. rewrite Hs in Hc. destruct Hc as [Hc Hi].
    unfold DocumentCaptureCamera.session in Hs. destruct st as [q c s i]; cbn in *.
    destruct s; [clear Hs|discriminate Hs]. subst c i.
    unfold DocumentCaptureCamera.capture_permitted in Hp. cbn in Hp.
    unfold DocumentCaptureCamera.step, DocumentCaptureCamera.on_click; cbn.
    destruct (DocumentCaptureCamera.truthy _); [|discriminate Hp]. cbn.
    unfold DocumentCaptureCamera.render_controls, DocumentCaptureCamera.handleConfirm.
    cbn [DocumentCaptureCamera.capturedImage].
    rewrite (captureImage_truthy v). cbn. reflexivity. }
  cbn [camera_events]. split; [reflexivity|].
  cbn [run step]. rewrite Hcam. unfold handleCameraCapture.
  unfold camera_shown in Hcam. destruct (mode p); try discriminate Hcam.
  rewrite Hcam. cbn. split; reflexivity.
Qed.

End CameraInPortal.

Lemma X22_captured_document_witness :
  let st := {| DocumentCaptureCamera.scanQuality := Some Examples.document_quality;
               DocumentCaptureCamera.capturedImage := None;
               DocumentCaptureCamera.isScanning := true;
               DocumentCaptureCamera.interval := Some 500 |} in
  let p := (DocumentUploadPortal.run "t" DocumentUploadPortal.init
              [DocumentUploadPortal.SelectType "Passport";
               DocumentUploadPortal.ClickUseCamera]).1 in
  let out := (DocumentCaptureCamera.run st
                [(Examples.document_video,
                  DocumentCaptureCamera.Click DocumentCaptureCamera.Capture);
                 (Examples.document_video,
                  DocumentCaptureCamera.Click DocumentCaptureCamera.Confirm)]).2 in
  PortalNotions.camera_events out ["u1"%string]
  = [DocumentUploadPortal.CameraCapture (Scanner.captureImage Examples.document_video) "u1"]
  /\ DocumentUploadPortal.run "t" p (PortalNotions.camera_events out ["u1"%string])
     = (DocumentUploadPortal.add_document (DocumentUploadPortal.selectedType p)
          (Scanner.captureImage Examples.document_video) "u1" p,
        [DocumentUploadPortal.Toast "Document Captured"
           (DocumentUploadPortal.selectedType p ++ " has been captured successfully.")
           DocumentUploadPortal.Default])
  /\ DocumentUploadPortal.camera_shown
       (DocumentUploadPortal.run "t" p (PortalNotions.camera_events out ["u1"%string])).1
     = false.
Proof.
  intros st p.
  apply (X22_captured_document "t" Examples.document_video Examples.document_video st p "u1");
    [split; reflexivity|reflexivity|reflexivity|reflexivity].
Defined.


(** * Properties of the upload page *)

Section Page.

Import DocumentUploadPortal PortalNotions DocumentUpload.

(** X23.  After the validation of the token the page never shows the spinner
    any more, however the query settles.  It renders the portal exactly
    when there is a token that is not empty, the query delivers a row
    without an error, the row is not expired and not used; the portal then
    gets the token, the applicant's name and the required documents of the
    row, none when they are not an array.  A row that is used gives the
    "submitted" view instead, and everything else the "invalid link" view.
    Without a token no query is made. *)
Theorem X23_page_view (token : option string) (env : Env) :
  let pg := (validateToken token env init).1 in
  loading pg = false
  /\ (forall t name docs,
       render token pg = UploadPortal t name docs
       <-> exists row,
             t = token /\ DocumentCaptureCamera.truthy_str token = true
             /\ query env = Fulfilled {| data := Some row; fetchError := false |}
             /\ expired env row = false
             /\ DocumentCaptureCamera.truthy_str (used_at row) = false
             /\ name = applicant_name row
             /\ docs = default [] (required_documents row))
  /\ (render token pg = Submitted
      <-> exists row,
            DocumentCaptureCamera.truthy_str token = true
            /\ query env = Fulfilled {| data := Some row; fetchError := false |}
            /\ expired env row = false
            /\ DocumentCaptureCamera.truthy_str (used_at row) = true)
  /\ (render token pg = Submitted
      \/ (exists message, render token pg = LinkInvalid message)
      \/ exists t name docs, render token pg = UploadPortal t name docs)
  /\ (DocumentCaptureCamera.truthy_str token = false ->
      (validateToken token env init).2
      = [SetTitle "Document Upload | Submit Your Documents"]).
Proof.
  cbv zeta. unfold validateToken.
  destruct token as [[|c tok]|].
  - cbn. repeat split; try discriminate; eauto;
      try (intros (row & H); decompose [and] H; discriminate).
  - destruct (query env) as [[[row|] []]|e] eqn:Hq; cbn.
    + repeat split; try discriminate; eauto;
        try (intros (row' & H); decompose [and] H; discriminate).
    + destruct (expired env row) eqn:Hex; cbn.
      * repeat split; try discriminate; eauto;
          try (intros (row' & H); decompose [and] H; congruence).
      * destruct (DocumentCaptureCamera.truthy_str (used_at row)) eqn:Hu; cbn.
        -- split; [reflexivity|]. split; [|split; [|split; [auto|discriminate]]].
           ++ intros t name docs. split; [discriminate|].
              intros (row' & H). decompose [and] H. congruence.
           ++ split; [intros _; exists row; auto|reflexivity].
        -- split; [reflexivity|]. split; [|split; [|split; [eauto 10|discriminate]]].
           ++ intros t name docs. split.
              ** intros [= <- <- <-]. exists row.
                 destruct (required_documents row); auto 10.
              ** intros (row' & -> & _ & [= <-] & _ & _ & -> & ->).
                 destruct (required_documents row); reflexivity.
           ++ split; [discriminate|].
              intros (row' & H). decompose [and] H. congruence.
    + repeat split; try discriminate; eauto;
        try (intros (row' & H); decompose [and] H; discriminate).
    + repeat split; try discriminate; eauto;
        try (intros (row' & H); decompose [and] H; discriminate).
    + repeat split; try discriminate; eauto;
        try (intros (row' & H); decompose [and] H; discriminate).
  - cbn. repeat split; try discriminate; eauto;
      try (intros (row & H); decompose [and] H; discriminate).
Qed.

Lemma on_portal_action_requests (pg : Page) (reqs : list Action) :
  Forall (fun a => is_fetch a || is_upload a || is_update a = true) reqs ->
  foldl on_portal_action pg reqs = pg.
Proof.
  intros H. revert pg. induction H as [|a reqs Ha _ IH]; intros pg; [reflexivity|].
  cbn [foldl]. rewrite <- (IH pg) at 2. f_equal.
  destruct a; try discriminate Ha; reflexivity.
Qed.

(** X24.  With the portal on the page, a submission replaces the portal by the
    "submitted" view exactly when it is complete: every document went
    through and the token was updated.  After a submission that failed,
    the portal is still there, with its documents, to submit again. *)
Theorem X24_page_after_submission (token : option string) (pg : Page)
    (t : option string) (name : string) (required : list string)
    (tok : string) (env : DocumentUploadPortal.Env)
    (docs : list CapturedDocument) (store : list (option string)) :
  render token pg = UploadPortal t name required ->
  NoDup (obj <$> docs) ->
  Forall (fun d => (obj d < length store)%nat) docs ->
  render token (foldl on_portal_action pg (submit_documents tok env docs store).2)
  = if documents_ok env (length docs) && update_ok env then Submitted
    else UploadPortal t name required.
Proof.
  intros Hview Hnd Hal.
  assert (render token (setCompleted true pg) = Submitted) as Hdone.
  { unfold render in *. cbn. destruct (loading pg); [discriminate|].
    destruct (error pg) as [[|c m]|]; cbn in *; [reflexivity|discriminate|reflexivity]. }
  destruct (submit_documents_cases tok env docs store Hnd Hal)
    as [[Hok Heq]|[Hok (reqs & e & Heq & Hreqs)]]; rewrite Hok.
  - rewrite Heq. cbn [snd].
    change [TokenUpdate tok (entries tok env 0 docs) (iso env (length docs));
            success; OnComplete]
      with ([TokenUpdate tok (entries tok env 0 docs) (iso env (length docs))]
            ++ [success; OnComplete]).
    rewrite app_assoc, foldl_app.
    rewrite (on_portal_action_requests pg
               (all_requests tok env 0 docs
                ++ [TokenUpdate tok (entries tok env 0 docs) (iso env (length docs))]));
      [exact Hdone|].
    apply Forall_app. split; [|repeat constructor].
    eapply Forall_impl; [apply all_requests_fetch_upload|]. cbn. intros a ->. reflexivity.
  - rewrite Heq, foldl_app, (on_portal_action_requests pg reqs Hreqs). exact Hview.
Qed.

End Page.

Lemma X24_page_after_submission_witness :
  let env := {| DocumentUpload.query :=
                  DocumentUploadPortal.Fulfilled
                    {| DocumentUpload.data :=
                         Some {| DocumentUpload.applicant_name := "A. Applicant";
                                 DocumentUpload.applicant_email := "a@example.org";
                                 DocumentUpload.required_documents := Some ["Passport"%string];
                                 DocumentUpload.expires_at := "2025-12-01T00:00:00Z";
                                 DocumentUpload.used_at := None |};
                       DocumentUpload.fetchError := false |};
                DocumentUpload.time_value := fun _ => Some 1764547200000;
                DocumentUpload.current_time := 1763561889000 |} in
  let pg := (DocumentUpload.validateToken (Some "t"%string) env DocumentUpload.init).1 in
  let docs := [PortalExamples.passport; PortalExamples.address] in
  DocumentUpload.render (Some "t"%string)
    (foldl DocumentUpload.on_portal_action pg
       (DocumentUploadPortal.submit_documents "t" PortalExamples.refused docs [None; None]).2)
  = if PortalNotions.documents_ok PortalExamples.refused (length docs)
       && PortalNotions.update_ok PortalExamples.refused
    then DocumentUpload.Submitted
    else DocumentUpload.UploadPortal (Some "t"%string) "A. Applicant" ["Passport"%string].
Proof.
  intros env pg docs.
  apply (X24_page_after_submission (Some "t"%string) pg (Some "t"%string)
           "A. Applicant" ["Passport"%string] "t" PortalExamples.refused docs [None; None]).
  - reflexivity.
  - cbn. apply NoDup_cons_2; [|apply NoDup_singleton].
    intros [= ]%list_elem_of_singleton.
  - repeat constructor; cbn; lia.
Defined.
